(** * agreetodisagree: the lobby and round engine of server.js

    The repository ships two variants of the server.  The earlier one
    (no connectivity flags, no reconnection) is embedded in [Module Basic],
    the current one (connectivity flags, reconnection, round skipping) in
    [Module Server].  Both are shallow embeddings: every JavaScript function
    the properties below talk about is a Gallina function of the same name.

    Conventions of the embedding
    - the [Map]s [lobbies], [gameStates] and [disconnectedPlayers] are
      [gmap]s;
    - a plain object used as a dictionary ([votes], [revotes], [scores], the
      vote counters) is the [gmap] of its own properties, read with [js_get]
      and written with [js_set], which follow the prototype chain: reading a
      name that is not an own property yields the member of
      [Object.prototype] of that name if there is one, and an assignment to
      [__proto__] that finds no own property stores nothing;
    - the payload fields [code], [username] and [vote] are strings; the only
      falsy string is the empty one;
    - a score is an integer, [NaN] (what [undefined + k] evaluates to) or the
      text that [+=] makes of an inherited member;
    - game-state objects are shared between the [gameStates] map and the
      closures of timers, so they live in a store ([heap]) and the map holds
      references;
    - [io.to(code).emit] and [socket.emit] append to an outbox, [setTimeout]
      appends to a list of pending callbacks, [setInterval] allocates an entry
      in a table of active intervals;
    - [Math.random()] is an argument of the function that calls it. *)

From Stdlib Require Import ZArith Lia.
From stdpp Require Import base option list gmap sets strings.

Local Open Scope string_scope.
Local Open Scope list_scope.
Local Open Scope Z_scope.

(** ** JavaScript values used by the server *)

(** *** Plain objects as dictionaries *)

(** The property names that every plain object inherits from
    [Object.prototype]. *)
Definition prototype_names : list string :=
  [ "constructor"; "__defineGetter__"; "__defineSetter__"; "hasOwnProperty";
    "__lookupGetter__"; "__lookupSetter__"; "isPrototypeOf";
    "propertyIsEnumerable"; "toString"; "valueOf"; "__proto__";
    "toLocaleString" ].

(** The result of the property read [obj[k]]: the value of an own property,
    the member of [Object.prototype] named [k] (a function, or for
    [__proto__] the prototype itself), or [undefined]. *)
Inductive read (A : Type) : Type :=
| own (a : A)
| inherited (k : string)
| undefined.

Arguments own {A} a.
Arguments inherited {A} k.
Arguments undefined {A}.

#[global] Instance read_eq_dec {A} `{EqDecision A} : EqDecision (read A).
Proof. solve_decision. Defined.

(** [obj[k]], where [m] holds the own properties of [obj]. *)
Definition js_get {A} (m : gmap string A) (k : string) : read A :=
  match m !! k with
  | Some a => own a
  | None =>
      if bool_decide (k ∈ prototype_names) then inherited k else undefined
  end.

(** [obj[k] = a] for a string or a number [a]: an own property is updated;
    otherwise one is created, except under the name [__proto__], where the
    inherited setter is called and ignores a value that is not an object. *)
Definition js_set {A} (k : string) (a : A) (m : gmap string A)
  : gmap string A :=
  match m !! k with
  | Some _ => <[k := a]> m
  | None => if bool_decide (k = "__proto__") then m else <[k := a]> m
  end.

(** What a property read of a dictionary of strings leaves in a variable
    after [|| 'abstain']: a string, or a member of [Object.prototype]. *)
Inductive value :=
| Str (s : string)
| Member (k : string).

#[global] Instance value_eq_dec : EqDecision value.
Proof. solve_decision. Defined.

(** [String(Object.prototype[k])]: the text of the inherited member named
    [k], which is what it is converted to as a property name or under
    [+]. *)
Definition member_text (k : string) : string :=
  if bool_decide (k = "__proto__") then "[object Object]"
  else if bool_decide (k = "constructor")
  then "function Object() { [native code] }"
  else "function " +:+ k +:+ "() { [native code] }".

(** The property name a value is converted to in [obj[v]]. *)
Definition key_of (v : value) : string :=
  match v with
  | Str s => s
  | Member k => member_text k
  end.

(** *** Scores *)

(** A score: an integer, [NaN], or [Text k ps], the string
    [String(Object.prototype[k])] followed by the decimal numerals of [ps]
    (what [+=] makes of an inherited member; it is not the numeral of a
    number). *)
Inductive num := Int (z : Z) | NaN | Text (member : string) (added : list Z).

#[global] Instance num_eq_dec : EqDecision num.
Proof. solve_decision. Defined.

(** [o + k] where [o] is the result of a property read and [k] a number. *)
Definition num_add (o : read num) (k : Z) : num :=
  match o with
  | own (Int z) => Int (z + k)
  | own NaN => NaN
  | own (Text m ps) => Text m (ps ++ [k])
  | inherited m => Text m [k]
  | undefined => NaN
  end.

(** [o - k] where [o] is the result of a property read and [k] a number. *)
Definition num_sub (o : read num) (k : Z) : num :=
  match o with
  | own (Int z) => Int (z - k)
  | _ => NaN
  end.

(** Truthiness of the result of reading a string-valued property. *)
Definition truthy (o : read string) : bool :=
  match o with
  | own s => bool_decide (s ≠ "")
  | inherited _ => true
  | undefined => false
  end.

(** [o || 'abstain'] *)
Definition or_abstain (o : read string) : value :=
  match o with
  | own s => if bool_decide (s ≠ "") then Str s else Str "abstain"
  | inherited k => Member k
  | undefined => Str "abstain"
  end.

(** A value of [Math.random()]: the rational [rnd_num / rnd_den]. *)
Record random := { rnd_num : nat; rnd_den : nat }.

Definition random_ok (r : random) : Prop := (rnd_num r < rnd_den r)%nat.

(** [Math.floor(Math.random() * n)] *)
Definition random_index (r : random) (n : nat) : nat :=
  (rnd_num r * n / rnd_den r)%nat.

(** The vote counters [{ agree: 0, disagree: 0, abstain: 0 }].  The three
    named properties always hold integers; [t[vote]++] on any other property
    name stores [NaN] under that name, recorded in [others], except that
    nothing is stored under [__proto__]. *)
Record tally := {
  agree : Z;
  disagree : Z;
  abstain : Z;
  others : gset string
}.

#[global] Instance tally_eq_dec : EqDecision tally.
Proof. solve_decision. Defined.

Definition tally_zero : tally :=
  {| agree := 0; disagree := 0; abstain := 0; others := ∅ |}.

(** [t[vote]++] *)
Definition tally_incr (vote : string) (t : tally) : tally :=
  if decide (vote = "agree") then
    {| agree := agree t + 1; disagree := disagree t; abstain := abstain t;
       others := others t |}
  else if decide (vote = "disagree") then
    {| agree := agree t; disagree := disagree t + 1; abstain := abstain t;
       others := others t |}
  else if decide (vote = "abstain") then
    {| agree := agree t; disagree := disagree t; abstain := abstain t + 1;
       others := others t |}
  else if decide (vote = "__proto__") then t
  else
    {| agree := agree t; disagree := disagree t; abstain := abstain t;
       others := {[vote]} ∪ others t |}.

Definition valid_choice (vote : string) : Prop :=
  vote = "agree" ∨ vote = "disagree" ∨ vote = "abstain".

#[global] Instance valid_choice_dec vote : Decision (valid_choice vote).
Proof. unfold valid_choice. apply _. Defined.

Inductive gamePhase :=
| voting | vote_results_phase | round_skipped_phase | solo | discussion
| revoting | round_results_phase | scoreboard | waiting.

#[global] Instance phase_eq_dec : EqDecision gamePhase.
Proof. solve_decision. Defined.

(** ** The current server: connectivity flags, reconnection, round skipping *)

Module Server.

(** *** Data model *)

Record participant := {
  username : string;
  isHost : bool;
  connected : bool
}.

#[global] Instance participant_eq_dec : EqDecision participant.
Proof. solve_decision. Defined.

Record lobby := {
  code : string;
  host : string;
  participants : list participant;
  createdAt : Z;
  gameStarted : bool
}.

#[global] Instance lobby_eq_dec : EqDecision lobby.
Proof. solve_decision. Defined.

Definition set_participants (ps : list participant) (l : lobby) : lobby :=
  {| code := code l; host := host l; participants := ps;
     createdAt := createdAt l; gameStarted := gameStarted l |}.

Definition set_gameStarted (b : bool) (l : lobby) : lobby :=
  {| code := code l; host := host l; participants := participants l;
     createdAt := createdAt l; gameStarted := b |}.

Record gameState := {
  phase : gamePhase;
  roundNumber : Z;
  currentTopic : string;
  votes : gmap string string;
  revotes : gmap string string;
  scores : gmap string num;
  usedTopics : list string;
  usedSpeakers : list string;
  timer : Z;
  timerInterval : option nat;
  initialVoteResults : tally;
  finalVoteResults : tally;
  currentSpeaker : option string;
  speakerPosition : option value
}.

Definition set_phase (x : gamePhase) (g : gameState) : gameState :=
  {| phase := x; roundNumber := roundNumber g; currentTopic := currentTopic g;
     votes := votes g; revotes := revotes g; scores := scores g;
     usedTopics := usedTopics g; usedSpeakers := usedSpeakers g;
     timer := timer g; timerInterval := timerInterval g;
     initialVoteResults := initialVoteResults g;
     finalVoteResults := finalVoteResults g;
     currentSpeaker := currentSpeaker g; speakerPosition := speakerPosition g |}.

Definition set_roundNumber (x : Z) (g : gameState) : gameState :=
  {| phase := phase g; roundNumber := x; currentTopic := currentTopic g;
     votes := votes g; revotes := revotes g; scores := scores g;
     usedTopics := usedTopics g; usedSpeakers := usedSpeakers g;
     timer := timer g; timerInterval := timerInterval g;
     initialVoteResults := initialVoteResults g;
     finalVoteResults := finalVoteResults g;
     currentSpeaker := currentSpeaker g; speakerPosition := speakerPosition g |}.

Definition set_currentTopic (x : string) (g : gameState) : gameState :=
  {| phase := phase g; roundNumber := roundNumber g; currentTopic := x;
     votes := votes g; revotes := revotes g; scores := scores g;
     usedTopics := usedTopics g; usedSpeakers := usedSpeakers g;
     timer := timer g; timerInterval := timerInterval g;
     initialVoteResults := initialVoteResults g;
     finalVoteResults := finalVoteResults g;
     currentSpeaker := currentSpeaker g; speakerPosition := speakerPosition g |}.

Definition set_votes (x : gmap string string) (g : gameState) : gameState :=
  {| phase := phase g; roundNumber := roundNumber g;
     currentTopic := currentTopic g;
     votes := x; revotes := revotes g; scores := scores g;
     usedTopics := usedTopics g; usedSpeakers := usedSpeakers g;
     timer := timer g; timerInterval := timerInterval g;
     initialVoteResults := initialVoteResults g;
     finalVoteResults := finalVoteResults g;
     currentSpeaker := currentSpeaker g; speakerPosition := speakerPosition g |}.

Definition set_revotes (x : gmap string string) (g : gameState) : gameState :=
  {| phase := phase g; roundNumber := roundNumber g;
     currentTopic := currentTopic g;
     votes := votes g; revotes := x; scores := scores g;
     usedTopics := usedTopics g; usedSpeakers := usedSpeakers g;
     timer := timer g; timerInterval := timerInterval g;
     initialVoteResults := initialVoteResults g;
     finalVoteResults := finalVoteResults g;
     currentSpeaker := currentSpeaker g; speakerPosition := speakerPosition g |}.

Definition set_scores (x : gmap string num) (g : gameState) : gameState :=
  {| phase := phase g; roundNumber := roundNumber g;
     currentTopic := currentTopic g;
     votes := votes g; revotes := revotes g; scores := x;
     usedTopics := usedTopics g; usedSpeakers := usedSpeakers g;
     timer := timer g; timerInterval := timerInterval g;
     initialVoteResults := initialVoteResults g;
     finalVoteResults := finalVoteResults g;
     currentSpeaker := currentSpeaker g; speakerPosition := speakerPosition g |}.

Definition set_usedTopics (x : list string) (g : gameState) : gameState :=
  {| phase := phase g; roundNumber := roundNumber g;
     currentTopic := currentTopic g;
     votes := votes g; revotes := revotes g; scores := scores g;
     usedTopics := x; usedSpeakers := usedSpeakers g;
     timer := timer g; timerInterval := timerInterval g;
     initialVoteResults := initialVoteResults g;
     finalVoteResults := finalVoteResults g;
     currentSpeaker := currentSpeaker g; speakerPosition := speakerPosition g |}.

Definition set_usedSpeakers (x : list string) (g : gameState) : gameState :=
  {| phase := phase g; roundNumber := roundNumber g;
     currentTopic := currentTopic g;
     votes := votes g; revotes := revotes g; scores := scores g;
     usedTopics := usedTopics g; usedSpeakers := x;
     timer := timer g; timerInterval := timerInterval g;
     initialVoteResults := initialVoteResults g;
     finalVoteResults := finalVoteResults g;
     currentSpeaker := currentSpeaker g; speakerPosition := speakerPosition g |}.

Definition set_timer (x : Z) (g : gameState) : gameState :=
  {| phase := phase g; roundNumber := roundNumber g;
     currentTopic := currentTopic g;
     votes := votes g; revotes := revotes g; scores := scores g;
     usedTopics := usedTopics g; usedSpeakers := usedSpeakers g;
     timer := x; timerInterval := timerInterval g;
     initialVoteResults := initialVoteResults g;
     finalVoteResults := finalVoteResults g;
     currentSpeaker := currentSpeaker g; speakerPosition := speakerPosition g |}.

Definition set_timerInterval (x : option nat) (g : gameState) : gameState :=
  {| phase := phase g; roundNumber := roundNumber g;
     currentTopic := currentTopic g;
     votes := votes g; revotes := revotes g; scores := scores g;
     usedTopics := usedTopics g; usedSpeakers := usedSpeakers g;
     timer := timer g; timerInterval := x;
     initialVoteResults := initialVoteResults g;
     finalVoteResults := finalVoteResults g;
     currentSpeaker := currentSpeaker g; speakerPosition := speakerPosition g |}.

Definition set_initialVoteResults (x : tally) (g : gameState) : gameState :=
  {| phase := phase g; roundNumber := roundNumber g;
     currentTopic := currentTopic g;
     votes := votes g; revotes := revotes g; scores := scores g;
     usedTopics := usedTopics g; usedSpeakers := usedSpeakers g;
     timer := timer g; timerInterval := timerInterval g;
     initialVoteResults := x;
     finalVoteResults := finalVoteResults g;
     currentSpeaker := currentSpeaker g; speakerPosition := speakerPosition g |}.

Definition set_finalVoteResults (x : tally) (g : gameState) : gameState :=
  {| phase := phase g; roundNumber := roundNumber g;
     currentTopic := currentTopic g;
     votes := votes g; revotes := revotes g; scores := scores g;
     usedTopics := usedTopics g; usedSpeakers := usedSpeakers g;
     timer := timer g; timerInterval := timerInterval g;
     initialVoteResults := initialVoteResults g;
     finalVoteResults := x;
     currentSpeaker := currentSpeaker g; speakerPosition := speakerPosition g |}.

Definition set_currentSpeaker (x : option string) (g : gameState) : gameState :=
  {| phase := phase g; roundNumber := roundNumber g;
     currentTopic := currentTopic g;
     votes := votes g; revotes := revotes g; scores := scores g;
     usedTopics := usedTopics g; usedSpeakers := usedSpeakers g;
     timer := timer g; timerInterval := timerInterval g;
     initialVoteResults := initialVoteResults g;
     finalVoteResults := finalVoteResults g;
     currentSpeaker := x; speakerPosition := speakerPosition g |}.

Definition set_speakerPosition (x : option value) (g : gameState) : gameState :=
  {| phase := phase g; roundNumber := roundNumber g;
     currentTopic := currentTopic g;
     votes := votes g; revotes := revotes g; scores := scores g;
     usedTopics := usedTopics g; usedSpeakers := usedSpeakers g;
     timer := timer g; timerInterval := timerInterval g;
     initialVoteResults := initialVoteResults g;
     finalVoteResults := finalVoteResults g;
     currentSpeaker := currentSpeaker g; speakerPosition := x |}.

(** Events sent to clients, with their payloads. *)
Inductive event :=
| lobby_updated (l : lobby)
| lobby_closed
| game_started (l : lobby) (g : gameState)
| topic_selected (topic : string)
| game_phase_update (p : gamePhase) (round : option Z) (speaker : option string)
| game_timer (timeRemaining : Z)
| vote_results (t : tally)
| round_skipped (message : string) (initialVotes : tally)
| speaker_selected (speaker : string) (position : value)
| round_results (initialVotes finalVotes : tally) (winningTeam : list string)
    (pointsPerWinner agreeChange disagreeChange : Z)
| scoreboard_update (sc : gmap string num)
| game_ended (finalScores : gmap string num)
| sync_game_state (g : gameState) (l : lobby)
    (userVote userRevote : read string)
| late_join_welcome (round : Z) (currentPhase : gamePhase) (topic : string).

(** [io.to(code).emit(...)] or [socket.emit(...)] *)
Inductive message :=
| to_room (room : string) (e : event)
| to_socket (id : string) (e : event).

(** References to game-state objects. *)
Definition loc := nat.

(** The callbacks handed to [setTimeout] and [setInterval], as data: each
    constructor is one arrow function of the source with the variables it
    closes over. *)
Inductive task :=
| call_startVotingPhase (c : string)
| call_processVoteResults (c : string)
| call_startSoloPhase (c : string)
| call_startDiscussionPhase (c : string)
| call_startRevotingPhase (c : string)
| call_calculateResults (c : string)
| call_showScoreboard (c : string)
| call_skipNotice (c : string) (voteResults : tally)
| call_nextRound (g : loc) (c : string)
| call_sync (socketId c : string).

(** The arrow function given to [setInterval] in [startTimer] closes over
    the game-state object, the lobby code and the expiry callback. *)
Record interval := {
  iv_state : loc;
  iv_code : string;
  iv_callback : task
}.

Record socket := {
  s_username : option string;
  s_lobbyCode : option string
}.

Record server := {
  debateTopics : list string;
  lobbies : gmap string lobby;
  gameStates : gmap string loc;
  heap : gmap loc gameState;
  disconnectedPlayers : gmap string (string * Z);
  sockets : gmap string socket;
  intervals : gmap nat interval;
  next_interval : nat;
  timeouts : list (Z * task);
  outbox : list message
}.

Definition set_lobbies (x : gmap string lobby) (s : server) : server :=
  {| debateTopics := debateTopics s; lobbies := x; gameStates := gameStates s;
     heap := heap s; disconnectedPlayers := disconnectedPlayers s;
     sockets := sockets s; intervals := intervals s;
     next_interval := next_interval s; timeouts := timeouts s;
     outbox := outbox s |}.

Definition set_gameStates (x : gmap string loc) (s : server) : server :=
  {| debateTopics := debateTopics s; lobbies := lobbies s; gameStates := x;
     heap := heap s; disconnectedPlayers := disconnectedPlayers s;
     sockets := sockets s; intervals := intervals s;
     next_interval := next_interval s; timeouts := timeouts s;
     outbox := outbox s |}.

Definition set_heap (x : gmap loc gameState) (s : server) : server :=
  {| debateTopics := debateTopics s; lobbies := lobbies s;
     gameStates := gameStates s;
     heap := x; disconnectedPlayers := disconnectedPlayers s;
     sockets := sockets s; intervals := intervals s;
     next_interval := next_interval s; timeouts := timeouts s;
     outbox := outbox s |}.

Definition set_disconnectedPlayers (x : gmap string (string * Z)) (s : server)
  : server :=
  {| debateTopics := debateTopics s; lobbies := lobbies s;
     gameStates := gameStates s;
     heap := heap s; disconnectedPlayers := x;
     sockets := sockets s; intervals := intervals s;
     next_interval := next_interval s; timeouts := timeouts s;
     outbox := outbox s |}.

Definition set_sockets (x : gmap string socket) (s : server) : server :=
  {| debateTopics := debateTopics s; lobbies := lobbies s;
     gameStates := gameStates s;
     heap := heap s; disconnectedPlayers := disconnectedPlayers s;
     sockets := x; intervals := intervals s;
     next_interval := next_interval s; timeouts := timeouts s;
     outbox := outbox s |}.

Definition set_intervals (x : gmap nat interval) (n : nat) (s : server)
  : server :=
  {| debateTopics := debateTopics s; lobbies := lobbies s;
     gameStates := gameStates s;
     heap := heap s; disconnectedPlayers := disconnectedPlayers s;
     sockets := sockets s; intervals := x;
     next_interval := n; timeouts := timeouts s;
     outbox := outbox s |}.

Definition set_timeouts (x : list (Z * task)) (s : server) : server :=
  {| debateTopics := debateTopics s; lobbies := lobbies s;
     gameStates := gameStates s;
     heap := heap s; disconnectedPlayers := disconnectedPlayers s;
     sockets := sockets s; intervals := intervals s;
     next_interval := next_interval s; timeouts := x;
     outbox := outbox s |}.

Definition set_outbox (x : list message) (s : server) : server :=
  {| debateTopics := debateTopics s; lobbies := lobbies s;
     gameStates := gameStates s;
     heap := heap s; disconnectedPlayers := disconnectedPlayers s;
     sockets := sockets s; intervals := intervals s;
     next_interval := next_interval s; timeouts := timeouts s;
     outbox := x |}.

(** *** Runtime primitives *)

(** [io.to(c).emit(e)] *)
Definition emit (c : string) (e : event) (s : server) : server :=
  set_outbox (outbox s ++ [to_room c e]) s.

(** [socket.emit(e)] on the socket [id] *)
Definition emit_socket (id : string) (e : event) (s : server) : server :=
  set_outbox (outbox s ++ [to_socket id e]) s.

(** [setTimeout(t, ms)] *)
Definition setTimeout (t : task) (ms : Z) (s : server) : server :=
  set_timeouts (timeouts s ++ [(ms, t)]) s.

(** [setInterval(iv, 1000)]: the new handle is [next_interval s]. *)
Definition setInterval (iv : interval) (s : server) : server :=
  set_intervals (<[next_interval s := iv]> (intervals s))
    (S (next_interval s)) s.

(** [clearInterval(i)] *)
Definition clearInterval (i : nat) (s : server) : server :=
  set_intervals (delete i (intervals s)) (next_interval s) s.

(** [if (gameState.timerInterval) clearInterval(gameState.timerInterval)] *)
Definition clear_timer (g : gameState) (s : server) : server :=
  match timerInterval g with
  | Some i => clearInterval i s
  | None => s
  end.

(** [gameStates.get(c)]: the reference and the object behind it. *)
Definition gameStates_get (c : string) (s : server)
  : option (loc * gameState) :=
  r ← gameStates s !! c; g ← heap s !! r; Some (r, g).

(** A write to a field of the game-state object [r]. *)
Definition store (r : loc) (g : gameState) (s : server) : server :=
  set_heap (<[r := g]> (heap s)) s.

(** A fresh reference for [const gameState = { ... }]. *)
Definition fresh_loc (s : server) : loc := fresh (dom (heap s)).

(** *** Rosters *)

(** [ps.find(p => p.username === u)] *)
Definition find_participant (u : string) (ps : list participant)
  : option participant :=
  List.find (λ p, bool_decide (username p = u)) ps.

(** [ps.find(p => p.username === u).connected = b]: the assignment through
    the reference returned by [find] changes the first match in place. *)
Fixpoint set_connected (u : string) (b : bool) (ps : list participant)
  : list participant :=
  match ps with
  | [] => []
  | p :: ps' =>
      if bool_decide (username p = u)
      then {| username := username p; isHost := isHost p; connected := b |}
           :: ps'
      else p :: set_connected u b ps'
  end.

(** [ps.filter(p => p.username !== u)] *)
Definition remove_participant (u : string) (ps : list participant)
  : list participant :=
  List.filter (λ p, bool_decide (username p ≠ u)) ps.

(** [ps.filter(p => p.connected)] *)
Definition connectedPlayers (ps : list participant) : list participant :=
  List.filter connected ps.

(** [ps.forEach(p => { scores[p.username] = 0 })] *)
Definition zero_scores (ps : list participant) (sc : gmap string num)
  : gmap string num :=
  fold_left (λ m p, js_set (username p) (Int 0) m) ps sc.

(** *** Tallies and scoring *)

(** The counting loop of [processVoteResults] and [calculateResults]:
    [ps.forEach(p => { if (p.connected) { t[ballots[p.username] || 'abstain']++ } })] *)
Definition countVotes (ps : list participant) (ballots : gmap string string)
  : tally :=
  fold_left
    (λ t p, if connected p
            then tally_incr (key_of (or_abstain (js_get ballots (username p))))
                   t
            else t)
    ps tally_zero.

(** The award loop of [calculateResults]. *)
Definition award (ps : list participant) (rv : gmap string string)
    (side : string) (points : Z) (sc : gmap string num) : gmap string num :=
  fold_left
    (λ m p, if bool_decide (js_get rv (username p) = own side)
            then js_set (username p)
                   (num_add (js_get m (username p)) points) m
            else m)
    ps sc.

(** The award step of [calculateResults]:
    [if (winningTeam.length > 0 && pointsPerWinner > 0) { ... }] *)
Definition awardPoints (ps : list participant) (rv : gmap string string)
    (winningTeam : list string) (pointsPerWinner : Z) (sc : gmap string num)
  : gmap string num :=
  match winningTeam with
  | side :: _ =>
      if decide (pointsPerWinner > 0)
      then award ps rv side pointsPerWinner sc
      else sc
  | [] => sc
  end.

(** The penalty loop of [calculateResults]. *)
Definition penalize (ps : list participant) (rv : gmap string string)
    (sc : gmap string num) : gmap string num :=
  fold_left
    (λ m p, if connected p && negb (truthy (js_get rv (username p)))
            then js_set (username p) (num_sub (js_get m (username p)) 1) m
            else m)
    ps sc.

(** The outcome of the comparison of the two vote changes in
    [calculateResults]: the array [winningTeam] and [pointsPerWinner]. *)
Definition winner (agreeChange disagreeChange : Z) : list string * Z :=
  if decide (agreeChange > disagreeChange) then (["agree"], agreeChange)
  else if decide (disagreeChange > agreeChange) then (["disagree"], disagreeChange)
  else ([], 0).

(** [Object.keys(m)] (the order of the keys is that of the finite map, not
    the insertion order of JavaScript; nothing below depends on it). *)
Definition Object_keys {V} (m : gmap string V) : list string :=
  (map_to_list m).*1.

(** *** Phase functions *)

Definition endGame (c : string) (s : server) : server :=
  match gameStates_get c s with
  | None => s
  | Some (r, g) =>
      emit c (game_ended (scores g)) (clear_timer g s)
  end.

(** [startTimer(code, seconds, callback)]: the body up to [setInterval]; the
    arrow function given to [setInterval] is [tick] below. *)
Definition startTimer (c : string) (seconds : Z) (callback : task)
    (s : server) : server :=
  match gameStates_get c s with
  | None => s
  | Some (r, g) =>
      let g1 := set_timer seconds g in
      let s1 := clear_timer g1 (store r g1 s) in
      let i := next_interval s1 in
      setInterval {| iv_state := r; iv_code := c; iv_callback := callback |}
        (store r (set_timerInterval (Some i) g1) s1)
  end.

Definition startRevotingPhase (c : string) (s : server) : server :=
  match gameStates_get c s with
  | None => s
  | Some (r, g) =>
      let g1 := set_timer 20 (set_revotes ∅ (set_phase revoting g)) in
      startTimer c 20 (call_calculateResults c)
        (emit c (game_phase_update revoting None None) (store r g1 s))
  end.

Definition startDiscussionPhase (c : string) (s : server) : server :=
  match gameStates_get c s with
  | None => s
  | Some (r, g) =>
      let g1 := set_timer 180 (set_phase discussion g) in
      startTimer c 180 (call_startRevotingPhase c)
        (emit c (game_phase_update discussion None None) (store r g1 s))
  end.

(** The speakers [startSoloPhase] chooses from, before the reset of
    [usedSpeakers]: [availableSpeakers] of the source. *)
Definition availableSpeakers (l : lobby) (g : gameState) : list string :=
  let gameStartParticipants := Object_keys (scores g) in
  let connectedNames := username <$> connectedPlayers (participants l) in
  List.filter (λ u, negb (bool_decide (u ∈ usedSpeakers g)))
    (List.filter (λ u, bool_decide (u ∈ connectedNames))
       gameStartParticipants).

(** [speakers] of the source. *)
Definition speakers (l : lobby) (g : gameState) : list string :=
  let gameStartParticipants := Object_keys (scores g) in
  let connectedNames := username <$> connectedPlayers (participants l) in
  if decide (length (availableSpeakers l g) = 0%nat)
  then List.filter (λ u, bool_decide (u ∈ connectedNames))
         gameStartParticipants
  else availableSpeakers l g.

Definition startSoloPhase (rnd : random) (c : string) (s : server) : server :=
  match gameStates_get c s, lobbies s !! c with
  | Some (r, g), Some l =>
      let g1 := set_timer 60 (set_phase solo g) in
      let g2 :=
        if decide (length (availableSpeakers l g1) = 0%nat)
        then set_usedSpeakers [] g1 else g1 in
      let sp := speakers l g1 in
      if decide (length sp = 0%nat) then
        startDiscussionPhase c (store r g2 s)
      else
        match sp !! random_index rnd (length sp) with
        | None => store r g2 s
        | Some selectedSpeaker =>
            let speakerVote :=
              or_abstain (js_get (votes g2) selectedSpeaker) in
            let g3 :=
              set_speakerPosition (Some speakerVote)
                (set_currentSpeaker (Some selectedSpeaker)
                   (set_usedSpeakers (usedSpeakers g2 ++ [selectedSpeaker])
                      g2)) in
            startTimer c 60 (call_startDiscussionPhase c)
              (emit c (speaker_selected selectedSpeaker speakerVote)
                 (emit c (game_phase_update solo None (Some selectedSpeaker))
                    (store r g3 s)))
        end
  | _, _ => s
  end.

Definition showScoreboard (c : string) (s : server) : server :=
  match gameStates_get c s with
  | None => s
  | Some (r, g) =>
      setTimeout (call_nextRound r c) 5000
        (emit c (scoreboard_update (scores g))
           (emit c (game_phase_update scoreboard None None)
              (store r (set_phase scoreboard g) s)))
  end.

Definition skip_message : string :=
  "Round skipped - everyone voted the same way!".

(** The first [setTimeout] callback of the skip branch of
    [processVoteResults]. *)
Definition skipNotice (c : string) (voteResults : tally) (s : server)
  : server :=
  setTimeout (call_showScoreboard c) 5000
    (emit c (round_skipped skip_message voteResults)
       (emit c (game_phase_update round_skipped_phase None None) s)).

Definition processVoteResults (c : string) (s : server) : server :=
  match gameStates_get c s, lobbies s !! c with
  | Some (r, g), Some l =>
      let voteResults := countVotes (participants l) (votes g) in
      let g1 := set_initialVoteResults voteResults g in
      if decide (agree voteResults = 0 ∨ disagree voteResults = 0) then
        setTimeout (call_skipNotice c voteResults) 3000
          (emit c (vote_results voteResults)
             (emit c (game_phase_update vote_results_phase None None)
                (store r (set_phase round_skipped_phase g1) s)))
      else
        setTimeout (call_startSoloPhase c) 5000
          (emit c (vote_results voteResults)
             (emit c (game_phase_update vote_results_phase None None)
                (store r (set_phase vote_results_phase g1) s)))
  | _, _ => s
  end.

Definition startVotingPhase (rnd : random) (c : string) (s : server)
  : server :=
  match gameStates_get c s, lobbies s !! c with
  | Some (r, g), Some l =>
      let availableTopics :=
        List.filter (λ t, negb (bool_decide (t ∈ usedTopics g)))
          (debateTopics s) in
      if decide (length availableTopics = 0%nat) then endGame c s
      else
        match availableTopics !! random_index rnd (length availableTopics) with
        | None => s
        | Some selectedTopic =>
            let g1 :=
              set_timer 20
                (set_votes ∅
                   (set_phase voting
                      (set_usedTopics (usedTopics g ++ [selectedTopic])
                         (set_currentTopic selectedTopic g)))) in
            startTimer c 20 (call_processVoteResults c)
              (emit c (game_phase_update voting (Some (roundNumber g1)) None)
                 (emit c (topic_selected selectedTopic)
                    (clear_timer g1 (store r g1 s))))
        end
  | _, _ => s
  end.

Definition calculateResults (c : string) (s : server) : server :=
  match gameStates_get c s, lobbies s !! c with
  | Some (r, g), Some l =>
      let final := countVotes (participants l) (revotes g) in
      let g1 := set_finalVoteResults final g in
      let agreeChange := agree final - agree (initialVoteResults g1) in
      let disagreeChange :=
        disagree final - disagree (initialVoteResults g1) in
      let '(winningTeam, pointsPerWinner) :=
        winner agreeChange disagreeChange in
      let awarded :=
        awardPoints (participants l) (revotes g1) winningTeam pointsPerWinner
          (scores g1) in
      let penalized := penalize (participants l) (revotes g1) awarded in
      let g2 := set_phase round_results_phase (set_scores penalized g1) in
      setTimeout (call_showScoreboard c) 8000
        (emit c (round_results (initialVoteResults g2) final winningTeam
                   pointsPerWinner agreeChange disagreeChange)
           (emit c (game_phase_update round_results_phase None None)
              (store r g2 s)))
  | _, _ => s
  end.

(** The [setTimeout] callback of [showScoreboard]; it closes over the
    game-state object itself. *)
Definition nextRound (r : loc) (c : string) (s : server) : server :=
  match heap s !! r with
  | None => s
  | Some g =>
      let g1 := set_roundNumber (roundNumber g + 1) g in
      let s1 := store r g1 s in
      if decide (roundNumber g1 > 5
                 ∨ (length (debateTopics s) ≤ length (usedTopics g1))%nat)
      then endGame c s1
      else
        setTimeout (call_startVotingPhase c) 3000
          (emit c (game_phase_update waiting None None)
             (store r (set_phase waiting g1) s1))
  end.

Definition syncGameStateToPlayer (socketId c : string) (s : server)
  : server :=
  match gameStates_get c s, lobbies s !! c with
  | Some (r, g), Some l =>
      match sockets s !! socketId with
      | None => s
      | Some sock =>
          emit_socket socketId
            (sync_game_state g l
               (js_get (votes g) (default "undefined" (s_username sock)))
               (js_get (revotes g) (default "undefined" (s_username sock))))
            s
      end
  | _, _ => s
  end.

(** Running a callback. *)
Definition run_task (rnd : random) (t : task) (s : server) : server :=
  match t with
  | call_startVotingPhase c => startVotingPhase rnd c s
  | call_processVoteResults c => processVoteResults c s
  | call_startSoloPhase c => startSoloPhase rnd c s
  | call_startDiscussionPhase c => startDiscussionPhase c s
  | call_startRevotingPhase c => startRevotingPhase c s
  | call_calculateResults c => calculateResults c s
  | call_showScoreboard c => showScoreboard c s
  | call_skipNotice c t => skipNotice c t s
  | call_nextRound r c => nextRound r c s
  | call_sync id c => syncGameStateToPlayer id c s
  end.

(** One firing of the arrow function that [startTimer] gave to
    [setInterval], up to the call of [callback]: the new state and the
    callback to call, if the timer expired.  An interval that has been
    cleared does not fire. *)
Definition tick_body (i : nat) (s : server) : server * option task :=
  match intervals s !! i with
  | None => (s, None)
  | Some iv =>
      match heap s !! iv_state iv with
      | None => (s, None)
      | Some g =>
          let g1 := set_timer (timer g - 1) g in
          let s1 :=
            emit (iv_code iv) (game_timer (timer g1))
              (store (iv_state iv) g1 s) in
          if decide (timer g1 ≤ 0) then
            (store (iv_state iv) (set_timerInterval None g1)
               (clear_timer g1 s1),
             Some (iv_callback iv))
          else (s1, None)
      end
  end.

Definition tick (rnd : random) (i : nat) (s : server) : server :=
  let '(s1, expired) := tick_body i s in
  match expired with
  | Some callback => run_task rnd callback s1
  | None => s1
  end.

(** *** HTTP routes *)

Inductive response :=
| error_response (status : Z) (error : string)
| created_response (c : string) (l : lobby)
| joined_response (l : lobby) (reconnection : bool).

(** [app.post('/api/lobby/create')]; [newCode] is the value of
    [generateLobbyCode()] and [now] that of [new Date()]. *)
Definition api_lobby_create (uname newCode : string) (now : Z) (s : server)
  : server * response :=
  if decide (uname = "" ∨ (String.length uname < 2)%nat) then
    (s, error_response 400 "Username must be at least 2 characters")
  else
    let l := {| code := newCode; host := uname;
                participants :=
                  [{| username := uname; isHost := true; connected := true |}];
                createdAt := now; gameStarted := false |} in
    (set_lobbies (<[newCode := l]> (lobbies s)) s, created_response newCode l).

(** [app.post('/api/lobby/join')] *)
Definition api_lobby_join (c uname : string) (s : server)
  : server * response :=
  if decide (c = "" ∨ uname = "") then
    (s, error_response 400 "Code and username are required")
  else
    match lobbies s !! c with
    | None => (s, error_response 404 "Lobby not found")
    | Some l =>
        match find_participant uname (participants l) with
        | Some existingParticipant =>
            let l1 :=
              set_participants (set_connected uname true (participants l)) l in
            (set_lobbies (<[c := l1]> (lobbies s)) s, joined_response l1 true)
        | None =>
            let l1 :=
              set_participants
                (participants l ++
                 [{| username := uname; isHost := false; connected := true |}])
                l in
            let s1 := set_lobbies (<[c := l1]> (lobbies s)) s in
            let s2 :=
              match gameStates_get c s1 with
              | Some (r, g) =>
                  store r (set_scores (js_set uname (Int 0) (scores g)) g) s1
              | None => s1
              end in
            (s2, joined_response l1 false)
        end
    end.

(** *** Socket events *)

(** [io.on('connection')]: a new socket, with no [username] and no
    [lobbyCode] yet. *)
Definition connection (id : string) (s : server) : server :=
  set_sockets
    (<[id := {| s_username := None; s_lobbyCode := None |}]> (sockets s)) s.

(** The test [gameState && gameState.phase !== 'waiting'] *)
Definition game_active (o : option (loc * gameState)) : bool :=
  match o with
  | Some (_, g) => bool_decide (phase g ≠ waiting)
  | None => false
  end.

Definition join_lobby (id c uname : string) (s : server) : server :=
  let s0 :=
    set_sockets
      (<[id := {| s_username := Some uname; s_lobbyCode := Some c |}]>
         (sockets s)) s in
  match lobbies s0 !! c with
  | None => s0
  | Some l =>
      let participant := find_participant uname (participants l) in
      let l1 :=
        match participant with
        | Some _ =>
            set_participants (set_connected uname true (participants l)) l
        | None => l
        end in
      let s1 := set_lobbies (<[c := l1]> (lobbies s0)) s0 in
      let gameState := gameStates_get c s1 in
      let s2 :=
        if game_active gameState then setTimeout (call_sync id c) 1000 s1
        else s1 in
      let s3 := emit c (lobby_updated l1) s2 in
      match gameState, participant with
      | Some (_, g), None =>
          emit_socket id
            (late_join_welcome (roundNumber g) (phase g) (currentTopic g)) s3
      | _, _ => s3
      end
  end.

(** [now] is the value of [Date.now()]. *)
Definition leave_lobby (c uname : string) (now : Z) (s : server) : server :=
  match lobbies s !! c with
  | None => s
  | Some l =>
      if game_active (gameStates_get c s) then
        match find_participant uname (participants l) with
        | Some _ =>
            let l1 :=
              set_participants (set_connected uname false (participants l)) l in
            emit c (lobby_updated l1)
              (set_disconnectedPlayers
                 (<[uname := (c, now)]> (disconnectedPlayers s))
                 (set_lobbies (<[c := l1]> (lobbies s)) s))
        | None => emit c (lobby_updated l) s
        end
      else
        let l1 :=
          set_participants (remove_participant uname (participants l)) l in
        let s1 := set_lobbies (<[c := l1]> (lobbies s)) s in
        if decide (length (participants l1) = 0%nat ∨ uname = host l1) then
          emit c lobby_closed
            (set_gameStates (delete c (gameStates s1))
               (set_lobbies (delete c (lobbies s1)) s1))
        else emit c (lobby_updated l1) s1
  end.

(** The object literal of [start-game], with the scores of the roster. *)
Definition new_gameState (ps : list participant) : gameState :=
  {| phase := voting; roundNumber := 1; currentTopic := "";
     votes := ∅; revotes := ∅; scores := zero_scores ps ∅;
     usedTopics := []; usedSpeakers := [];
     timer := 20; timerInterval := None;
     initialVoteResults := tally_zero; finalVoteResults := tally_zero;
     currentSpeaker := None; speakerPosition := None |}.

Definition start_game (c uname : string) (s : server) : server :=
  match lobbies s !! c with
  | None => s
  | Some l =>
      if decide (host l = uname ∧ (2 ≤ length (participants l))%nat) then
        let l1 := set_gameStarted true l in
        let gameState := new_gameState (participants l1) in
        let r := fresh_loc s in
        setTimeout (call_startVotingPhase c) 2000
          (emit c (game_started l1 gameState)
             (set_gameStates (<[c := r]> (gameStates s))
                (store r gameState
                   (set_lobbies (<[c := l1]> (lobbies s)) s))))
      else s
  end.

(** The early transition shared by [cast-vote] and [cast-revote]: the
    comparison [Object.keys(ballots).length >= connectedPlayers.length]. *)
Definition all_voted (ballots : gmap string string) (l : lobby) : bool :=
  bool_decide (length (connectedPlayers (participants l))
               ≤ length (Object_keys ballots))%nat.

(** [socket.on('cast-vote')]; [None] is the [TypeError] of reading
    [lobby.participants] when the lobby does not exist. *)
Definition cast_vote (c uname vote : string) (s : server) : option server :=
  match gameStates_get c s with
  | Some (r, g) =>
      if decide (phase g = voting) then
        let g1 := set_votes (js_set uname vote (votes g)) g in
        let s1 := store r g1 s in
        l ← lobbies s1 !! c;
        if all_voted (votes g1) l then
          Some (setTimeout (call_processVoteResults c) 1000 (clear_timer g1 s1))
        else Some s1
      else Some s
  | None => Some s
  end.

(** [socket.on('cast-revote')] *)
Definition cast_revote (c uname vote : string) (s : server) : option server :=
  match gameStates_get c s with
  | Some (r, g) =>
      if decide (phase g = revoting) then
        let g1 := set_revotes (js_set uname vote (revotes g)) g in
        let s1 := store r g1 s in
        l ← lobbies s1 !! c;
        if all_voted (revotes g1) l then
          Some (setTimeout (call_calculateResults c) 1000 (clear_timer g1 s1))
        else Some s1
      else Some s
  | None => Some s
  end.

Definition request_sync (id c : string) (s : server) : server :=
  syncGameStateToPlayer id c s.

Definition restart_game (id c : string) (s : server) : server :=
  match lobbies s !! c, gameStates_get c s with
  | Some l, Some (r, g) =>
      if decide ((sockets s !! id) ≫= s_username = Some (host l)) then
        let g1 :=
          set_scores (zero_scores (participants l) (scores g))
            (set_speakerPosition None
               (set_currentSpeaker None
                  (set_finalVoteResults tally_zero
                     (set_initialVoteResults tally_zero
                        (set_timer 20
                           (set_usedSpeakers []
                              (set_usedTopics []
                                 (set_revotes ∅
                                    (set_votes ∅
                                       (set_currentTopic ""
                                          (set_roundNumber 1
                                             (set_phase voting g))))))))))))
        in
        setTimeout (call_startVotingPhase c) 2000
          (emit c (game_started l g1) (clear_timer g1 (store r g1 s)))
      else s
  | _, _ => s
  end.

(** [socket.on('disconnect')]; the socket is gone from [io.sockets.sockets]
    afterwards. *)
Definition disconnect (id : string) (now : Z) (s : server) : server :=
  let s0 := set_sockets (delete id (sockets s)) s in
  match sockets s !! id with
  | Some {| s_username := Some uname; s_lobbyCode := Some c |} =>
      if decide (c = "" ∨ uname = "") then s0
      else
        match lobbies s0 !! c with
        | None => s0
        | Some l =>
            match find_participant uname (participants l) with
            | None => s0
            | Some _ =>
                let gameState := gameStates_get c s0 in
                if game_active gameState then
                  let l1 :=
                    set_participants
                      (set_connected uname false (participants l)) l in
                  emit c (lobby_updated l1)
                    (set_disconnectedPlayers
                       (<[uname := (c, now)]> (disconnectedPlayers s0))
                       (set_lobbies (<[c := l1]> (lobbies s0)) s0))
                else
                  let l1 :=
                    set_participants
                      (remove_participant uname (participants l)) l in
                  let s1 := set_lobbies (<[c := l1]> (lobbies s0)) s0 in
                  if decide (length (participants l1) = 0%nat
                             ∨ uname = host l1) then
                    let s2 :=
                      match gameState with
                      | Some (_, g) => clear_timer g s1
                      | None => s1
                      end in
                    emit c lobby_closed
                      (set_gameStates (delete c (gameStates s2))
                         (set_lobbies (delete c (lobbies s2)) s2))
                  else emit c (lobby_updated l1) s1
            end
        end
  | _ => s0
  end.

(** *** The sweep of disconnected players *)

(** The body of the [forEach] of the periodic sweep. *)
Definition reap_one (now : Z) (s : server) (e : string * (string * Z))
  : server :=
  let '(uname, (c, timestamp)) := e in
  if decide (now - timestamp > 5 * 60 * 1000) then
    let s1 :=
      match lobbies s !! c with
      | Some l =>
          let l1 :=
            set_participants (remove_participant uname (participants l)) l in
          emit c (lobby_updated l1) (set_lobbies (<[c := l1]> (lobbies s)) s)
      | None => s
      end in
    set_disconnectedPlayers (delete uname (disconnectedPlayers s1)) s1
  else s.

Definition reaper (now : Z) (s : server) : server :=
  fold_left (reap_one now) (map_to_list (disconnectedPlayers s)) s.

(** *** The event loop *)

(** What the server reacts to: an HTTP request, a socket event, a pending
    [setTimeout] callback coming due, an active interval firing, the periodic
    sweep.  No order is imposed on timers: every interleaving the clock could
    produce is a sequence of inputs. *)
Inductive input :=
| http_create (uname newCode : string) (now : Z)
| http_join (c uname : string)
| on_connection (id : string)
| on_join_lobby (id c uname : string)
| on_leave_lobby (c uname : string) (now : Z)
| on_start_game (c uname : string)
| on_cast_vote (c uname vote : string)
| on_cast_revote (c uname vote : string)
| on_request_sync (id c : string)
| on_restart_game (id c : string)
| on_disconnect (id : string) (now : Z)
| on_timeout (k : nat) (rnd : random)
| on_interval (i : nat) (rnd : random)
| on_sweep (now : Z).

(** One turn of the event loop: the next state and the expiry callback that
    was called in this turn, if any, with the handle of its interval.
    [None] is an uncaught exception. *)
Definition step (e : input) (s : server)
  : option (server * option (nat * task)) :=
  match e with
  | http_create uname newCode now =>
      Some ((api_lobby_create uname newCode now s).1, None)
  | http_join c uname => Some ((api_lobby_join c uname s).1, None)
  | on_connection id => Some (connection id s, None)
  | on_join_lobby id c uname => Some (join_lobby id c uname s, None)
  | on_leave_lobby c uname now => Some (leave_lobby c uname now s, None)
  | on_start_game c uname => Some (start_game c uname s, None)
  | on_cast_vote c uname vote =>
      s1 ← cast_vote c uname vote s; Some (s1, None)
  | on_cast_revote c uname vote =>
      s1 ← cast_revote c uname vote s; Some (s1, None)
  | on_request_sync id c => Some (request_sync id c s, None)
  | on_restart_game id c => Some (restart_game id c s, None)
  | on_disconnect id now => Some (disconnect id now s, None)
  | on_timeout k rnd =>
      match timeouts s !! k with
      | Some (_, t) =>
          Some (run_task rnd t (set_timeouts (delete k (timeouts s)) s), None)
      | None => Some (s, None)
      end
  | on_interval i rnd =>
      Some (tick rnd i s, (λ cb, (i, cb)) <$> (tick_body i s).2)
  | on_sweep now => Some (reaper now s, None)
  end.

(** A run of the event loop: the final state and the expiry callbacks called
    on the way, in order. *)
Fixpoint run (es : list input) (s : server)
  : option (server * list (nat * task)) :=
  match es with
  | [] => Some (s, [])
  | e :: es' =>
      '(s1, x) ← step e s;
      '(s2, xs) ← run es' s1;
      Some (s2, option_list x ++ xs)
  end.

(** The server at start-up, with the topics it loaded. *)
Definition init (topics : list string) : server :=
  {| debateTopics := topics; lobbies := ∅; gameStates := ∅; heap := ∅;
     disconnectedPlayers := ∅; sockets := ∅; intervals := ∅;
     next_interval := 0; timeouts := []; outbox := [] |}.

End Server.

(** ** The earlier server: no connectivity flags, no reconnection *)

Module Basic.

Record participant := {
  username : string;
  isHost : bool
}.

Record lobby := {
  code : string;
  host : string;
  participants : list participant;
  createdAt : Z
}.

Record gameState := {
  phase : gamePhase;
  roundNumber : Z;
  currentTopic : string;
  votes : gmap string string;
  revotes : gmap string string;
  scores : gmap string num;
  usedTopics : list string;
  usedSpeakers : list string;
  timer : Z;
  timerInterval : option nat;
  initialVoteResults : tally;
  finalVoteResults : tally
}.

Inductive response :=
| error_response (status : Z) (error : string)
| joined_response (l : lobby).

(** [app.post('/api/lobby/join')] on the [lobbies] map. *)
Definition api_lobby_join (c uname : string) (lobbies : gmap string lobby)
  : gmap string lobby * response :=
  if decide (c = "" ∨ uname = "") then
    (lobbies, error_response 400 "Code and username are required")
  else
    match lobbies !! c with
    | None => (lobbies, error_response 404 "Lobby not found")
    | Some l =>
        if existsb (λ p, bool_decide (username p = uname)) (participants l)
        then (lobbies,
              error_response 400 "Username already taken in this lobby")
        else
          let l1 :=
            {| code := code l; host := host l;
               participants :=
                 participants l ++ [{| username := uname; isHost := false |}];
               createdAt := createdAt l |} in
          (<[c := l1]> lobbies, joined_response l1)
    end.

(** The counting loop: every participant of the roster counts. *)
Definition countVotes (ps : list participant) (ballots : gmap string string)
  : tally :=
  fold_left
    (λ t p, tally_incr (key_of (or_abstain (js_get ballots (username p)))) t)
    ps tally_zero.

(** [ps.filter(p => rv[p.username] === side).map(p => p.username)] *)
Definition winningPlayers (ps : list participant) (rv : gmap string string)
    (agreeChange disagreeChange : Z) : list string :=
  if decide (agreeChange > disagreeChange) then
    username <$>
      List.filter (λ p, bool_decide (js_get rv (username p) = own "agree")) ps
  else if decide (disagreeChange > agreeChange) then
    username <$>
      List.filter (λ p, bool_decide (js_get rv (username p) = own "disagree"))
        ps
  else [].

(** [players.forEach(u => { scores[u] += points })] *)
Definition award (players : list string) (points : Z) (sc : gmap string num)
  : gmap string num :=
  fold_left (λ m u, js_set u (num_add (js_get m u) points) m) players sc.

(** [ps.forEach(p => { if (!rv[p.username]) scores[p.username] -= 1 })] *)
Definition penalize (ps : list participant) (rv : gmap string string)
    (sc : gmap string num) : gmap string num :=
  fold_left
    (λ m p, if negb (truthy (js_get rv (username p)))
            then js_set (username p) (num_sub (js_get m (username p)) 1) m
            else m)
    ps sc.

(** The payload of [round-results]. *)
Record round_results := {
  initialVotes : tally;
  finalVotes : tally;
  winningTeam : list string;
  pointsAwarded : Z;
  agreeChange : Z;
  disagreeChange : Z
}.

(** [calculateResults] on the lobby and the game state it found: the game
    state it leaves and the payload it emits. *)
Definition calculateResults (l : lobby) (g : gameState)
  : gameState * round_results :=
  let final := countVotes (participants l) (revotes g) in
  let ac := agree final - agree (initialVoteResults g) in
  let dc := disagree final - disagree (initialVoteResults g) in
  let players := winningPlayers (participants l) (revotes g) ac dc in
  let points := Z.abs (ac - dc) in
  let awarded :=
    if decide (0 < length players)%nat then award players points (scores g)
    else scores g in
  let penalized := penalize (participants l) (revotes g) awarded in
  ({| phase := round_results_phase; roundNumber := roundNumber g;
      currentTopic := currentTopic g; votes := votes g; revotes := revotes g;
      scores := penalized; usedTopics := usedTopics g;
      usedSpeakers := usedSpeakers g; timer := timer g;
      timerInterval := timerInterval g;
      initialVoteResults := initialVoteResults g;
      finalVoteResults := final |},
   {| initialVotes := initialVoteResults g; finalVotes := final;
      winningTeam := players; pointsAwarded := points;
      agreeChange := ac; disagreeChange := dc |}).

End Basic.

(** ** Vocabulary of the properties *)

Import Server.

(** The counter that the ballot of a participant is counted under: the
    property name that [ballots[p.username] || 'abstain'] is converted to. *)
Definition ballot_of (ballots : gmap string string) (p : participant)
  : string :=
  key_of (or_abstain (js_get ballots (username p))).

(** The number of connected participants whose ballot counts as [ch]. *)
Definition count_for (ch : string) (ballots : gmap string string)
    (ps : list participant) : nat :=
  length (List.filter
            (λ p, connected p && bool_decide (ballot_of ballots p = ch)) ps).

(** Every connected participant's ballot is counted under one of the three
    choices: it is one of them, or it is empty, or it is missing and the
    name of the participant is not a property name of [Object.prototype]
    (these count as abstain). *)
Definition valid_ballots (ballots : gmap string string)
    (ps : list participant) : Prop :=
  ∀ p, p ∈ ps → connected p = true → valid_choice (ballot_of ballots p).

(** The counting loop of [countVotes], started from any counters. *)
Definition count_from (ballots : gmap string string) (ps : list participant)
    (t : tally) : tally :=
  fold_left
    (λ t p, if connected p
            then tally_incr (key_of (or_abstain (js_get ballots (username p))))
                   t
            else t)
    ps t.

(** The roster names. *)
Definition usernames (l : lobby) : list string :=
  username <$> participants l.

(** [agreeChange] and [disagreeChange] of [calculateResults]. *)
Definition agreeChange (l : lobby) (g : gameState) : Z :=
  agree (countVotes (participants l) (revotes g))
  - agree (initialVoteResults g).

Definition disagreeChange (l : lobby) (g : gameState) : Z :=
  disagree (countVotes (participants l) (revotes g))
  - disagree (initialVoteResults g).

(** What a tally [t] of the ballots of the roster [ps] satisfies: it is the
    count over the connected participants alone, each of the three counters
    is the number of connected participants whose ballot counts as that
    choice, and with valid ballots the three add up to the number of
    connected participants. *)
Definition tallied (t : tally) (ballots : gmap string string)
    (ps : list participant) : Prop :=
  t = countVotes (connectedPlayers ps) ballots ∧
  agree t = Z.of_nat (count_for "agree" ballots ps) ∧
  disagree t = Z.of_nat (count_for "disagree" ballots ps) ∧
  abstain t = Z.of_nat (count_for "abstain" ballots ps) ∧
  (valid_ballots ballots ps →
   agree t + disagree t + abstain t
   = Z.of_nat (length (connectedPlayers ps))).

(** Whether a participant with this revote is on the winning side: the side
    whose count changed by more between the initial and the final tally. *)
Definition won (ac dc : Z) (revote : read string) : bool :=
  bool_decide (ac > dc ∧ revote = own "agree")
  || bool_decide (dc > ac ∧ revote = own "disagree").

(** The points a participant with this revote gains: the larger of the two
    changes for a winner, when it is positive. *)
Definition gain (ac dc : Z) (revote : read string) : Z :=
  if won ac dc revote && bool_decide (0 < Z.max ac dc)
  then Z.max ac dc else 0.

(** The points a participant loses when the read of the revote is falsy:
    [undefined] or the empty string. *)
Definition penalty (isConnected : bool) (revote : read string) : Z :=
  if isConnected && negb (truthy revote) then 1 else 0.

(** The timer invariant: every active interval has a handle that was
    already allocated, and is the one recorded in the [timerInterval] field
    of the game-state object its callback closes over. *)
Definition timers_ok (s : server) : Prop :=
  ∀ i iv,
    intervals s !! i = Some iv →
    (i < next_interval s)%nat ∧
    ∃ g, heap s !! iv_state iv = Some g ∧ timerInterval g = Some i.

(** How the timers of [s'] relate to those of an earlier state [s]: the
    invariant is kept, handles are never reused, and an interval that was
    cleared stays cleared. *)
Definition evolves (s s' : server) : Prop :=
  (timers_ok s → timers_ok s') ∧
  (next_interval s ≤ next_interval s')%nat ∧
  (∀ i, (i < next_interval s)%nat →
        intervals s !! i = None → intervals s' !! i = None).

(** The [game-timer] messages of [k] ticks of a timer that stands at [m]:
    m-1, m-2, ..., m-k. *)
Fixpoint ticks_from (c : string) (m : Z) (k : nat) : list message :=
  match k with
  | O => []
  | S k' => to_room c (game_timer (m - 1)) :: ticks_from c (m - 1) k'
  end.

(** ** Vocabulary of the invariants *)

(** What the phase functions and the timer callbacks leave alone: the
    topics, the lobbies with their rosters, the map of game states, the
    sockets and the records of disconnected players. *)
Definition same_registry (s s' : server) : Prop :=
  debateTopics s' = debateTopics s ∧
  lobbies s' = lobbies s ∧
  gameStates s' = gameStates s ∧
  sockets s' = sockets s ∧
  disconnectedPlayers s' = disconnectedPlayers s.

(** A roster with distinct names, where only the participant named
    [lobby.host] can carry the host flag. *)
Definition roster_ok (l : lobby) : Prop :=
  NoDup (usernames l) ∧
  ∀ p, p ∈ participants l → isHost p = true → username p = host l.

(** The registry invariant, on the two maps: every lobby is stored under
    its own code with a good roster, and a game state exists only for a code
    that has a lobby. *)
Definition lobbies_ok (ls : gmap string lobby) (gs : gmap string loc)
  : Prop :=
  (∀ c l, ls !! c = Some l → code l = c ∧ roster_ok l) ∧
  (∀ c, is_Some (gs !! c) → is_Some (ls !! c)).

Definition registry_ok (s : server) : Prop :=
  lobbies_ok (lobbies s) (gameStates s).

(** The events that can change the membership of a lobby or the set of
    lobbies, game states, sockets and disconnection records. *)
Definition membership_event (e : input) : bool :=
  match e with
  | http_create _ _ _ | http_join _ _ | on_connection _
  | on_join_lobby _ _ _ | on_leave_lobby _ _ _ | on_start_game _ _
  | on_disconnect _ _ | on_sweep _ => true
  | _ => false
  end.
(** [s'] has the game-state objects of [s], each with the field [f] as it
    was in [s]. *)
Definition untouched {A} (f : gameState → A) (s s' : server) : Prop :=
  ∀ r,
    match heap s !! r, heap s' !! r with
    | Some g, Some g' => f g' = f g
    | None, None => True
    | _, _ => False
    end.

(** The fields of a game state that the votes, the timers and the departures
    never write: the used topics, the used speakers and the scores. *)
Definition ledger (g : gameState)
  : list string * list string * gmap string num :=
  (usedTopics g, usedSpeakers g, scores g).

(** The turn-taking fields. *)
Definition used (g : gameState) : list string * list string :=
  (usedTopics g, usedSpeakers g).

(** The turn-taking fields of a game state are in order: no topic twice,
    only topics of the list [topics], no speaker twice. *)
Definition turns_ok (topics : list string) (g : gameState) : Prop :=
  NoDup (usedTopics g) ∧
  (∀ t, t ∈ usedTopics g → t ∈ topics) ∧
  NoDup (usedSpeakers g).

(** The invariant on turns, for a server that loaded [topics]. *)
Definition used_ok (topics : list string) (s : server) : Prop :=
  debateTopics s = topics ∧
  ∀ r g, heap s !! r = Some g → turns_ok topics g.

(** Every code with a game state has a game-state object of its own. *)
Definition states_ok (s : server) : Prop :=
  (∀ c r, gameStates s !! c = Some r → is_Some (heap s !! r)) ∧
  (∀ c c' r,
     gameStates s !! c = Some r → gameStates s !! c' = Some r → c = c').

(** Every roster member of a lobby with a game state has a score of its own
    there, and the score is a number; but for a member named [__proto__],
    under which nothing can be stored. *)
Definition scored (s : server) : Prop :=
  ∀ c l r g u,
    lobbies s !! c = Some l →
    gameStates_get c s = Some (r, g) →
    u ∈ usernames l →
    u ≠ "__proto__" →
    ∃ z, scores g !! u = Some (Int z).

Definition books_ok (s : server) : Prop :=
  registry_ok s ∧ states_ok s ∧ scored s.

(** No game-state object has a score stored under [__proto__]. *)
Definition plain_scores (s : server) : Prop :=
  ∀ r g, heap s !! r = Some g → scores g !! "__proto__" = None.

(** [s'] has no game state that [s] has not, and the roster of a lobby of
    [s'] with a game state has only names of the roster it had in [s]. *)
Definition shrinks (s s' : server) : Prop :=
  gameStates s' ⊆ gameStates s ∧
  ∀ c l',
    lobbies s' !! c = Some l' →
    is_Some (gameStates s' !! c) →
    ∃ l, lobbies s !! c = Some l ∧ usernames l' ⊆ usernames l.

(** No create request of the run [es] from [s] draws a code that is in use
    when it arrives. *)
Fixpoint fresh_codes (es : list input) (s : server) : Prop :=
  match es with
  | [] => True
  | e :: es' =>
      match e with
      | http_create _ newCode _ => lobbies s !! newCode = None
      | _ => True
      end ∧
      match step e s with
      | Some (s1, _) => fresh_codes es' s1
      | None => True
      end
  end.

(** Whether the sweep at [now] evicts [u] from the lobby [c]: there is a
    disconnection record of [u], it names [c], and it is older than five
    minutes. *)
Definition evicted (now : Z) (m : gmap string (string * Z)) (c u : string)
  : bool :=
  match m !! u with
  | Some (c', t) => bool_decide (c' = c ∧ now - t > 5 * 60 * 1000)
  | None => false
  end.

(** The entry of [u] in the disconnection records after the sweep at
    [now]. *)
Definition swept (now : Z) (o : option (string * Z)) : option (string * Z) :=
  match o with
  | Some (c, t) => if decide (now - t > 5 * 60 * 1000) then None else o
  | None => None
  end.

(** [agreeChange] and [disagreeChange] of the earlier [calculateResults],
    where every participant of the roster is counted. *)
Definition basic_agreeChange (l : Basic.lobby) (g : Basic.gameState) : Z :=
  agree (Basic.countVotes (Basic.participants l) (Basic.revotes g))
  - agree (Basic.initialVoteResults g).

Definition basic_disagreeChange (l : Basic.lobby) (g : Basic.gameState) : Z :=
  disagree (Basic.countVotes (Basic.participants l) (Basic.revotes g))
  - disagree (Basic.initialVoteResults g).

(** The points the earlier server gives to a participant with this revote:
    the distance between the two changes, for a revote on the side that
    changed by more. *)
Definition basic_gain (ac dc : Z) (revote : read string) : Z :=
  if won ac dc revote then Z.abs (ac - dc) else 0.

(** The point the earlier server takes from a participant when the read of
    the revote is falsy. *)
Definition basic_penalty (revote : read string) : Z :=
  if truthy revote then 0 else 1.

(** ** Scenarios *)

Definition topics : list string := ["T1"; "T2"; "T3"].

Definition first : random := {| rnd_num := 0; rnd_den := 1 |}.

(** The state a run leads to (the initial state if the run throws). *)
Definition after (es : list input) : server :=
  default (init topics) (fst <$> run es (init topics)).

(** Alice creates the lobby ROOM, Bob and Carol join, the three sockets
    connect, Alice starts the game and the first voting phase begins. *)
Definition three_players_voting : list input :=
  [ http_create "Alice" "ROOM" 0;
    http_join "ROOM" "Bob"; http_join "ROOM" "Carol";
    on_connection "s1"; on_join_lobby "s1" "ROOM" "Alice";
    on_connection "s2"; on_join_lobby "s2" "ROOM" "Bob";
    on_connection "s3"; on_join_lobby "s3" "ROOM" "Carol";
    on_start_game "ROOM" "Alice";
    on_timeout 0 first ].

(** Alice votes "maybe", Bob and Carol do not vote. *)
Definition vote_maybe : list input :=
  three_players_voting ++ [ on_cast_vote "ROOM" "Alice" "maybe" ].

(** Alice creates the lobby ROOM, Bob, Carol and Dave join, Alice starts the
    game; Alice and Bob vote agree, Carol and Dave vote disagree; the solo
    and discussion timers run out; in the revoting phase only Alice revotes
    (agree). *)
Definition four_players_revoting : list input :=
  [ http_create "Alice" "ROOM" 0;
    http_join "ROOM" "Bob"; http_join "ROOM" "Carol"; http_join "ROOM" "Dave";
    on_connection "s1"; on_join_lobby "s1" "ROOM" "Alice";
    on_connection "s2"; on_join_lobby "s2" "ROOM" "Bob";
    on_connection "s3"; on_join_lobby "s3" "ROOM" "Carol";
    on_connection "s4"; on_join_lobby "s4" "ROOM" "Dave";
    on_start_game "ROOM" "Alice";
    on_timeout 0 first;
    on_cast_vote "ROOM" "Alice" "agree"; on_cast_vote "ROOM" "Bob" "agree";
    on_cast_vote "ROOM" "Carol" "disagree";
    on_cast_vote "ROOM" "Dave" "disagree";
    on_timeout 0 first;
    on_timeout 0 first ]
  ++ replicate 60 (on_interval 1 first)
  ++ replicate 180 (on_interval 2 first)
  ++ [ on_cast_revote "ROOM" "Alice" "agree" ].

(** In the voting phase of [three_players_voting] Carol votes and then her
    socket disconnects; Alice votes; Bob, connected, has not voted. *)
Definition voter_disconnects : list input :=
  three_players_voting
  ++ [ on_cast_vote "ROOM" "Carol" "agree";
       on_disconnect "s3" 5000;
       on_cast_vote "ROOM" "Alice" "agree" ].

(** Alice creates the lobby ROOM, Bob joins, Alice starts the game; Carol
    joins during the first voting phase; Alice votes agree, Bob disagree,
    the voting timer runs out; during the display of the vote results the
    sockets of Alice and Bob disconnect.  [startSoloPhase] is pending. *)
Definition late_joiner : list input :=
  [ http_create "Alice" "ROOM" 0; http_join "ROOM" "Bob";
    on_connection "s1"; on_join_lobby "s1" "ROOM" "Alice";
    on_connection "s2"; on_join_lobby "s2" "ROOM" "Bob";
    on_start_game "ROOM" "Alice";
    on_timeout 0 first;
    http_join "ROOM" "Carol";
    on_connection "s3"; on_join_lobby "s3" "ROOM" "Carol";
    on_cast_vote "ROOM" "Alice" "agree";
    on_cast_vote "ROOM" "Bob" "disagree" ]
  ++ replicate 20 (on_interval 0 first)
  ++ [ on_disconnect "s1" 30000; on_disconnect "s2" 30000 ].

(** Alice creates the lobby ROOM and Bob joins; the game has not started. *)
Definition lobby_of_two : list input :=
  [ http_create "Alice" "ROOM" 0; http_join "ROOM" "Bob" ].

(** In the voting phase of [three_players_voting], Alice votes agree and Bob
    disagree; Carol has not voted. *)
Definition two_votes : list input :=
  three_players_voting
  ++ [ on_cast_vote "ROOM" "Alice" "agree";
       on_cast_vote "ROOM" "Bob" "disagree" ].

(** In the voting phase of [three_players_voting], Alice and Bob vote agree;
    Carol has not voted. *)
Definition two_agree : list input :=
  three_players_voting
  ++ [ on_cast_vote "ROOM" "Alice" "agree";
       on_cast_vote "ROOM" "Bob" "agree" ].

(** The states these runs lead to. *)
Definition after_four_players_revoting : server :=
  Eval vm_compute in after four_players_revoting.

Definition after_late_joiner : server :=
  Eval vm_compute in after late_joiner.

Definition after_lobby_of_two : server :=
  Eval vm_compute in after lobby_of_two.

Definition after_three_players_voting : server :=
  Eval vm_compute in after three_players_voting.

Definition after_two_agree : server :=
  Eval vm_compute in after two_agree.

Definition after_two_votes : server :=
  Eval vm_compute in after two_votes.

Definition after_vote_maybe : server :=
  Eval vm_compute in after vote_maybe.

(** The lobby ROOM of a state and its game state (defaults where there is
    none). *)
Definition lobby_in (s : server) : lobby :=
  default {| code := ""; host := ""; participants := []; createdAt := 0;
             gameStarted := false |}
    (lobbies s !! "ROOM").

Definition game_in (s : server) : gameState :=
  default (new_gameState []) (snd <$> gameStates_get "ROOM" s).

Definition lobby_after_four_players_revoting : lobby :=
  Eval vm_compute in lobby_in after_four_players_revoting.

Definition game_after_four_players_revoting : gameState :=
  Eval vm_compute in game_in after_four_players_revoting.

Definition lobby_after_late_joiner : lobby :=
  Eval vm_compute in lobby_in after_late_joiner.

Definition game_after_late_joiner : gameState :=
  Eval vm_compute in game_in after_late_joiner.

Definition lobby_after_lobby_of_two : lobby :=
  Eval vm_compute in lobby_in after_lobby_of_two.

Definition lobby_after_three_players_voting : lobby :=
  Eval vm_compute in lobby_in after_three_players_voting.

Definition game_after_three_players_voting : gameState :=
  Eval vm_compute in game_in after_three_players_voting.

Definition lobby_after_two_agree : lobby :=
  Eval vm_compute in lobby_in after_two_agree.

Definition game_after_two_agree : gameState :=
  Eval vm_compute in game_in after_two_agree.

Definition lobby_after_two_votes : lobby :=
  Eval vm_compute in lobby_in after_two_votes.

Definition game_after_two_votes : gameState :=
  Eval vm_compute in game_in after_two_votes.

Definition lobby_after_vote_maybe : lobby :=
  Eval vm_compute in lobby_in after_vote_maybe.

Definition game_after_vote_maybe : gameState :=
  Eval vm_compute in game_in after_vote_maybe.

(** The round of [four_players_revoting] to its end: the revoting timer runs
    out, the results and the scoreboard are shown, and the game waits for
    the next round. *)
Definition round_over : list input :=
  four_players_revoting
  ++ replicate 20 (on_interval 3 first)
  ++ [ on_timeout 0 first; on_timeout 0 first ].

Definition after_round_over : server :=
  Eval vm_compute in after round_over.

Definition lobby_after_round_over : lobby :=
  Eval vm_compute in lobby_in after_round_over.

Definition game_after_round_over : gameState :=
  Eval vm_compute in game_in after_round_over.

(** A round of the earlier server: Alice and Bob; the initial tally was one
    agree and one disagree, and both revoted agree. *)
Definition earlier_lobby : Basic.lobby :=
  {| Basic.code := "ROOM"; Basic.host := "Alice";
     Basic.participants :=
       [ {| Basic.username := "Alice"; Basic.isHost := true |};
         {| Basic.username := "Bob"; Basic.isHost := false |} ];
     Basic.createdAt := 0 |}.

Definition earlier_game : Basic.gameState :=
  {| Basic.phase := revoting; Basic.roundNumber := 1;
     Basic.currentTopic := "T1";
     Basic.votes := {[ "Alice" := "agree"; "Bob" := "disagree" ]};
     Basic.revotes := {[ "Alice" := "agree"; "Bob" := "agree" ]};
     Basic.scores := {[ "Alice" := Int 0; "Bob" := Int 0 ]};
     Basic.usedTopics := ["T1"]; Basic.usedSpeakers := ["Alice"];
     Basic.timer := 0; Basic.timerInterval := None;
     Basic.initialVoteResults :=
       {| agree := 1; disagree := 1; abstain := 0; others := ∅ |};
     Basic.finalVoteResults := tally_zero |}.

(** Alice creates the lobby ROOM, Bob, a third player and Dave join, Alice
    starts the game; Alice votes agree and the three others disagree; the
    solo and discussion timers run out; in the revoting phase the socket of
    Dave disconnects, Alice and Bob revote agree, and the third player,
    connected, does not revote. *)
Definition round_with (third : string) : list input :=
  [ http_create "Alice" "ROOM" 0;
    http_join "ROOM" "Bob"; http_join "ROOM" third; http_join "ROOM" "Dave";
    on_connection "s1"; on_join_lobby "s1" "ROOM" "Alice";
    on_connection "s2"; on_join_lobby "s2" "ROOM" "Bob";
    on_connection "s3"; on_join_lobby "s3" "ROOM" third;
    on_connection "s4"; on_join_lobby "s4" "ROOM" "Dave";
    on_start_game "ROOM" "Alice";
    on_timeout 0 first;
    on_cast_vote "ROOM" "Alice" "agree"; on_cast_vote "ROOM" "Bob" "disagree";
    on_cast_vote "ROOM" third "disagree";
    on_cast_vote "ROOM" "Dave" "disagree";
    on_timeout 0 first;
    on_timeout 0 first ]
  ++ replicate 60 (on_interval 1 first)
  ++ replicate 180 (on_interval 2 first)
  ++ [ on_disconnect "s4" 250000;
       on_cast_revote "ROOM" "Alice" "agree";
       on_cast_revote "ROOM" "Bob" "agree" ].

(** The third player is Carol. *)
Definition swing_round : list input := round_with "Carol".

(** The third player has the name of a member of [Object.prototype]. *)
Definition prototype_name_round : list input := round_with "constructor".

Definition after_swing_round : server :=
  Eval vm_compute in after swing_round.

Definition lobby_after_swing_round : lobby :=
  Eval vm_compute in lobby_in after_swing_round.

Definition game_after_swing_round : gameState :=
  Eval vm_compute in game_in after_swing_round.

Definition after_prototype_name_round : server :=
  Eval vm_compute in after prototype_name_round.

Definition lobby_after_prototype_name_round : lobby :=
  Eval vm_compute in lobby_in after_prototype_name_round.

Definition game_after_prototype_name_round : gameState :=
  Eval vm_compute in game_in after_prototype_name_round.

(** In the voting phase of [three_players_voting] Carol votes disagree and
    her socket disconnects; Alice votes agree, which makes two recorded
    keys for two connected participants and schedules [processVoteResults];
    Bob votes agree within the second, which schedules it again.  The first
    of the two runs: the tally is agree 2, disagree 0. *)
Definition double_tally_first : list input :=
  three_players_voting
  ++ [ on_cast_vote "ROOM" "Carol" "disagree";
       on_disconnect "s3" 5000;
       on_cast_vote "ROOM" "Alice" "agree";
       on_cast_vote "ROOM" "Bob" "agree";
       on_timeout 0 first ].

(** Carol comes back before the second [processVoteResults] runs; then the
    callbacks come due in the order of their delays: the synchronisation of
    Carol's socket, the skip notice of the first [processVoteResults] and
    the [startSoloPhase] of the second. *)
Definition double_tally_second : list input :=
  [ on_connection "s5"; on_join_lobby "s5" "ROOM" "Carol";
    on_timeout 0 first;
    on_timeout 1 first;
    on_timeout 0 first;
    on_timeout 0 first ].

Definition double_tally : list input :=
  double_tally_first ++ double_tally_second.

Definition after_double_tally_first : server :=
  Eval vm_compute in after double_tally_first.

Definition game_after_double_tally_first : gameState :=
  Eval vm_compute in game_in after_double_tally_first.

Definition after_double_tally : server :=
  Eval vm_compute in after double_tally.

Definition game_after_double_tally : gameState :=
  Eval vm_compute in game_in after_double_tally.

(** After [double_tally] the [showScoreboard] of the skip and its callback
    come due while the solo timer runs: the phase is waiting with an active
    interval.  Then Alice, the host, leaves, which closes the lobby. *)
Definition host_leaves_with_timer : list input :=
  double_tally
  ++ [ on_timeout 0 first; on_timeout 0 first;
       on_leave_lobby "ROOM" "Alice" 9000 ].

Definition after_host_leaves_with_timer : server :=
  Eval vm_compute in after host_leaves_with_timer.

(** ** Tallies *)

Lemma tally_incr_agree v t :
  agree (tally_incr v t)
  = agree t + (if bool_decide (v = "agree") then 1 else 0).
Proof.
  unfold tally_incr.
  repeat case_decide; repeat case_bool_decide; simplify_eq; simpl; lia.
Qed.

Lemma tally_incr_disagree v t :
  disagree (tally_incr v t)
  = disagree t + (if bool_decide (v = "disagree") then 1 else 0).
Proof.
  unfold tally_incr.
  repeat case_decide; repeat case_bool_decide; simplify_eq; simpl; lia.
Qed.

Lemma tally_incr_abstain v t :
  abstain (tally_incr v t)
  = abstain t + (if bool_decide (v = "abstain") then 1 else 0).
Proof.
  unfold tally_incr.
  repeat case_decide; repeat case_bool_decide; simplify_eq; simpl; lia.
Qed.

Lemma countVotes_count_from ps ballots :
  countVotes ps ballots = count_from ballots ps tally_zero.
Proof. reflexivity. Qed.

Lemma count_from_agree ballots ps t :
  agree (count_from ballots ps t)
  = agree t + Z.of_nat (count_for "agree" ballots ps).
Proof.
  revert t. induction ps as [|p ps IH]; intros t; simpl.
  - unfold count_for. simpl. lia.
  - fold (count_from ballots ps). rewrite IH.
    unfold count_for, ballot_of. simpl.
    destruct (connected p); simpl; [|lia].
    rewrite tally_incr_agree. case_bool_decide; simpl; lia.
Qed.

Lemma count_from_disagree ballots ps t :
  disagree (count_from ballots ps t)
  = disagree t + Z.of_nat (count_for "disagree" ballots ps).
Proof.
  revert t. induction ps as [|p ps IH]; intros t; simpl.
  - unfold count_for. simpl. lia.
  - fold (count_from ballots ps). rewrite IH.
    unfold count_for, ballot_of. simpl.
    destruct (connected p); simpl; [|lia].
    rewrite tally_incr_disagree. case_bool_decide; simpl; lia.
Qed.

Lemma count_from_abstain ballots ps t :
  abstain (count_from ballots ps t)
  = abstain t + Z.of_nat (count_for "abstain" ballots ps).
Proof.
  revert t. induction ps as [|p ps IH]; intros t; simpl.
  - unfold count_for. simpl. lia.
  - fold (count_from ballots ps). rewrite IH.
    unfold count_for, ballot_of. simpl.
    destruct (connected p); simpl; [|lia].
    rewrite tally_incr_abstain. case_bool_decide; simpl; lia.
Qed.

(** Disconnected participants are skipped by the loop. *)
Lemma count_from_connected ballots ps t :
  count_from ballots ps t = count_from ballots (connectedPlayers ps) t.
Proof.
  revert t. induction ps as [|p ps IH]; intros t; simpl; [done|].
  fold (count_from ballots ps). unfold connectedPlayers in *. simpl.
  destruct (connected p) eqn:E; simpl; [|apply IH].
  rewrite E. apply IH.
Qed.

(** With valid ballots the three counts cover the connected roster. *)
Lemma count_for_valid ballots ps :
  valid_ballots ballots ps →
  (count_for "agree" ballots ps + count_for "disagree" ballots ps
   + count_for "abstain" ballots ps)%nat
  = length (connectedPlayers ps).
Proof.
  induction ps as [|p ps IH]; intros Hv; [done|].
  assert (valid_ballots ballots ps) as Hps.
  { intros q Hq. apply Hv. by right. }
  specialize (IH Hps).
  unfold count_for, connectedPlayers in *. simpl.
  destruct (connected p) eqn:E; simpl; [|exact IH].
  destruct (Hv p) as [H|[H|H]]; [by left|done|..];
    rewrite H; repeat case_bool_decide; simplify_eq; simpl in *; lia.
Qed.

(** ** Reading the store after a phase function *)

Lemma gameStates_get_Some c s r g :
  gameStates_get c s = Some (r, g) ↔
  gameStates s !! c = Some r ∧ heap s !! r = Some g.
Proof.
  unfold gameStates_get. split.
  - intros H. destruct (gameStates s !! c) as [r'|] eqn:E1; simpl in H; [|done].
    destruct (heap s !! r') as [g'|] eqn:E2; simpl in H; [|done].
    by simplify_eq.
  - intros [H1 H2]. rewrite H1. simpl. rewrite H2. done.
Qed.

Lemma processVoteResults_state c s r g l :
  gameStates_get c s = Some (r, g) →
  lobbies s !! c = Some l →
  heap (processVoteResults c s) !! r
  = Some (set_phase
            (if decide (agree (countVotes (participants l) (votes g)) = 0
                        ∨ disagree (countVotes (participants l) (votes g)) = 0)
             then round_skipped_phase else vote_results_phase)
            (set_initialVoteResults (countVotes (participants l) (votes g)) g)).
Proof.
  intros Hg Hl. unfold processVoteResults. rewrite Hg, Hl.
  case_decide; simpl; by rewrite lookup_insert_eq.
Qed.

Lemma calculateResults_state c s r g l :
  gameStates_get c s = Some (r, g) →
  lobbies s !! c = Some l →
  heap (calculateResults c s) !! r
  = Some (set_phase round_results_phase
            (set_scores
               (penalize (participants l) (revotes g)
                  (awardPoints (participants l) (revotes g)
                     (winner (agreeChange l g) (disagreeChange l g)).1
                     (winner (agreeChange l g) (disagreeChange l g)).2
                     (scores g)))
               (set_finalVoteResults
                  (countVotes (participants l) (revotes g)) g))).
Proof.
  intros Hg Hl. unfold calculateResults. rewrite Hg, Hl. simpl.
  fold (agreeChange l g) (disagreeChange l g).
  destruct (winner (agreeChange l g) (disagreeChange l g)) as [team pts].
  simpl. by rewrite lookup_insert_eq.
Qed.

Lemma countVotes_tallied ballots ps :
  tallied (countVotes ps ballots) ballots ps.
Proof.
  unfold tallied. rewrite !countVotes_count_from.
  rewrite count_from_agree, count_from_disagree, count_from_abstain. simpl.
  split; [apply count_from_connected|].
  repeat split; try lia.
  intros Hv. rewrite <- (count_for_valid ballots ps Hv). lia.
Qed.

(** C5, as amended.  At both tally moments (the initial tally stored by
    [processVoteResults], the final tally stored by [calculateResults]) the
    tally is the count over the connected participants only; its agree,
    disagree and abstain counters are the numbers of connected participants
    whose ballot counts as that choice; and when every ballot of a connected
    participant counts as one of the three choices, agree + disagree +
    abstain is the number of connected participants.  The ballot of a
    participant whose name is not a property name of [Object.prototype]
    counts as the recorded choice, and as abstain when there is none or it
    is empty. *)
Theorem tallies_count_connected_ballots (c : string) (s : server)
    (r : loc) (g : gameState) (l : lobby) :
  gameStates_get c s = Some (r, g) →
  lobbies s !! c = Some l →
  ∃ g1 g2,
    heap (processVoteResults c s) !! r = Some g1 ∧
    heap (calculateResults c s) !! r = Some g2 ∧
    tallied (initialVoteResults g1) (votes g) (participants l) ∧
    tallied (finalVoteResults g2) (revotes g) (participants l) ∧
    (∀ ballots p,
       username p ∉ prototype_names →
       ballot_of ballots p
       = match ballots !! username p with
         | Some choice => if bool_decide (choice ≠ "") then choice
                          else "abstain"
         | None => "abstain"
         end).
Proof.
  intros Hg Hl. eexists _, _.
  split; [by apply processVoteResults_state|].
  split; [by apply calculateResults_state|].
  simpl. split; [apply countVotes_tallied|].
  split; [apply countVotes_tallied|].
  intros ballots p Hname. unfold ballot_of, js_get.
  destruct (ballots !! username p) as [choice|]; simpl.
  - by case_bool_decide.
  - by rewrite bool_decide_eq_false_2.
Qed.

(** In the revoting phase of the swing round Dave is disconnected, his vote
    (disagree) is not counted again, and Carol, connected, has no revote:
    a tally of the votes gives 1, 2, 0 and the tally of the revotes
    2, 0, 1. *)
Lemma tallies_count_connected_ballots_witness :
  ∃ g1 g2,
    gameStates_get "ROOM" after_swing_round
    = Some (0%nat, game_after_swing_round) ∧
    lobbies after_swing_round !! "ROOM" = Some lobby_after_swing_round ∧
    heap (processVoteResults "ROOM" after_swing_round) !! 0%nat = Some g1 ∧
    heap (calculateResults "ROOM" after_swing_round) !! 0%nat = Some g2 ∧
    tallied (initialVoteResults g1) (votes game_after_swing_round)
      (participants lobby_after_swing_round) ∧
    tallied (finalVoteResults g2) (revotes game_after_swing_round)
      (participants lobby_after_swing_round) ∧
    votes game_after_swing_round !! "Dave" = Some "disagree" ∧
    revotes game_after_swing_round !! "Carol" = None ∧
    length (connectedPlayers (participants lobby_after_swing_round))
    = 3%nat ∧
    length (participants lobby_after_swing_round) = 4%nat ∧
    (agree (initialVoteResults g1), disagree (initialVoteResults g1),
     abstain (initialVoteResults g1)) = (1, 2, 0) ∧
    (agree (finalVoteResults g2), disagree (finalVoteResults g2),
     abstain (finalVoteResults g2)) = (2, 0, 1).
Proof.
  assert (gameStates_get "ROOM" after_swing_round
          = Some (0%nat, game_after_swing_round)) as Hg
    by (vm_compute; reflexivity).
  assert (lobbies after_swing_round !! "ROOM"
          = Some lobby_after_swing_round) as Hl by (vm_compute; reflexivity).
  destruct (tallies_count_connected_ballots "ROOM" _ _ _ _ Hg Hl)
    as (g1 & g2 & H1 & H2 & H3 & H4 & _).
  exists g1, g2.
  split; [exact Hg|]. split; [exact Hl|]. split; [exact H1|].
  split; [exact H2|]. split; [exact H3|]. split; [exact H4|].
  split; [vm_compute; reflexivity|]. split; [vm_compute; reflexivity|].
  split; [vm_compute; reflexivity|]. split; [vm_compute; reflexivity|].
  destruct H3 as (_ & Ha1 & Hd1 & Hb1 & _).
  destruct H4 as (_ & Ha2 & Hd2 & Hb2 & _).
  rewrite Ha1, Hd1, Hb1, Ha2, Hd2, Hb2.
  split; vm_compute; reflexivity.
Defined.

(** C5 as stated fails: Alice's recorded vote is "maybe", so the three
    counters add up to 2 while 3 participants are connected. *)
Lemma tally_sum_counterexample :
  ∃ r g l g1,
    gameStates_get "ROOM" after_vote_maybe = Some (r, g) ∧
    lobbies after_vote_maybe !! "ROOM" = Some l ∧
    heap (processVoteResults "ROOM" after_vote_maybe) !! r = Some g1 ∧
    votes g !! "Alice" = Some "maybe" ∧
    agree (initialVoteResults g1) + disagree (initialVoteResults g1)
    + abstain (initialVoteResults g1) = 2 ∧
    Z.of_nat (length (connectedPlayers (participants l))) = 3 ∧
    agree (initialVoteResults g1) + disagree (initialVoteResults g1)
    + abstain (initialVoteResults g1)
    ≠ Z.of_nat (length (connectedPlayers (participants l))).
Proof.
  eexists _, _, _, _.
  split; [vm_compute; reflexivity|].
  split; [vm_compute; reflexivity|].
  split; [vm_compute; reflexivity|].
  vm_compute. done.
Qed.

(** ** Reading and writing dictionaries *)

Lemma js_get_own {A} (m : gmap string A) k a :
  m !! k = Some a → js_get m k = own a.
Proof. unfold js_get. by intros ->. Qed.

Lemma js_get_own_inv {A} (m : gmap string A) k a :
  js_get m k = own a → m !! k = Some a.
Proof.
  unfold js_get. destruct (m !! k); [congruence|]. by case_bool_decide.
Qed.

Lemma js_get_inherited {A} (m : gmap string A) k :
  m !! k = None → k ∈ prototype_names → js_get m k = inherited k.
Proof. unfold js_get. intros -> Hk. by rewrite bool_decide_eq_true_2. Qed.

Lemma js_get_undefined {A} (m : gmap string A) k :
  m !! k = None → k ∉ prototype_names → js_get m k = undefined.
Proof. unfold js_get. intros -> Hk. by rewrite bool_decide_eq_false_2. Qed.

Lemma js_set_own {A} (m : gmap string A) k a b :
  m !! k = Some b → js_set k a m = <[k := a]> m.
Proof. unfold js_set. by intros ->. Qed.

Lemma js_set_plain {A} (m : gmap string A) k a :
  k ≠ "__proto__" → js_set k a m = <[k := a]> m.
Proof.
  unfold js_set. intros Hk. destruct (m !! k); [done|].
  by rewrite bool_decide_eq_false_2.
Qed.

(** Nothing is stored under [__proto__] where there is no own property. *)
Lemma js_set_proto {A} (m : gmap string A) a :
  m !! "__proto__" = None → js_set "__proto__" a m = m.
Proof. unfold js_set. by intros ->. Qed.

Lemma lookup_js_set_ne {A} (m : gmap string A) k k' a :
  k ≠ k' → js_set k a m !! k' = m !! k'.
Proof.
  unfold js_set. intros Hne.
  destruct (m !! k); [by rewrite lookup_insert_ne|].
  case_bool_decide; [done|]. by rewrite lookup_insert_ne.
Qed.

Lemma js_get_js_set_ne {A} (m : gmap string A) k k' a :
  k ≠ k' → js_get (js_set k a m) k' = js_get m k'.
Proof. intros Hne. unfold js_get. by rewrite lookup_js_set_ne. Qed.

Lemma lookup_js_set_own {A} (m : gmap string A) k a b :
  m !! k = Some b → js_set k a m !! k = Some a.
Proof. intros Hk. rewrite (js_set_own _ _ _ _ Hk). apply lookup_insert_eq. Qed.

Lemma lookup_js_set_plain {A} (m : gmap string A) k a :
  k ≠ "__proto__" → js_set k a m !! k = Some a.
Proof. intros Hk. rewrite js_set_plain by done. apply lookup_insert_eq. Qed.

Lemma lookup_js_set_eq {A} (m : gmap string A) k a :
  js_set k a m !! k
  = if bool_decide (k = "__proto__" ∧ m !! k = None) then None else Some a.
Proof.
  unfold js_set. destruct (m !! k) eqn:Hk.
  - rewrite bool_decide_eq_false_2 by (intros [_ ?]; done).
    apply lookup_insert_eq.
  - case_bool_decide as Hp.
    + by rewrite bool_decide_eq_true_2.
    + rewrite bool_decide_eq_false_2 by (intros [? _]; done).
      apply lookup_insert_eq.
Qed.

(** A write never removes a property, and adds at most the one it names. *)
Lemma lookup_js_set_is_Some {A} (m : gmap string A) k k' a :
  is_Some (m !! k') → is_Some (js_set k a m !! k').
Proof.
  intros [b Hb]. destruct (decide (k = k')) as [<-|Hne].
  - rewrite (lookup_js_set_own _ _ _ _ Hb). by eexists.
  - rewrite lookup_js_set_ne by done. by eexists.
Qed.

Lemma dom_js_set {A} (m : gmap string A) k a :
  dom (js_set k a m)
  = if bool_decide (k = "__proto__" ∧ m !! k = None) then dom m
    else {[k]} ∪ dom m.
Proof.
  unfold js_set. destruct (m !! k) eqn:Hk.
  - rewrite bool_decide_eq_false_2 by (intros [_ ?]; done).
    by rewrite dom_insert_L.
  - case_bool_decide as Hp.
    + by rewrite bool_decide_eq_true_2.
    + rewrite bool_decide_eq_false_2 by (intros [? _]; done).
      by rewrite dom_insert_L.
Qed.

(** ** The award and penalty loops *)

Lemma award_miss ps rv side pts m u :
  (∀ p, p ∈ ps → username p = u → js_get rv u ≠ own side) →
  award ps rv side pts m !! u = m !! u.
Proof.
  revert m. induction ps as [|q ps IH]; intros m Hmiss; [done|].
  simpl. fold (award ps rv side pts). rewrite IH.
  - case_bool_decide as Hq; [|done].
    destruct (decide (username q = u)) as [<-|Hne].
    + exfalso. eapply Hmiss; [by left|done|done].
    + by rewrite lookup_js_set_ne.
  - intros p Hp. apply Hmiss. by right.
Qed.

Lemma award_hit ps rv side pts m p :
  NoDup (username <$> ps) →
  p ∈ ps →
  js_get rv (username p) = own side →
  award ps rv side pts m !! username p
  = js_set (username p) (num_add (js_get m (username p)) pts) m
      !! username p.
Proof.
  revert m. induction ps as [|q ps IH]; intros m Hnd Hp Hrv.
  - by apply elem_of_nil in Hp.
  - rewrite fmap_cons in Hnd. apply NoDup_cons in Hnd as [Hq Hnd].
    simpl. fold (award ps rv side pts).
    apply elem_of_cons in Hp as [->|Hp].
    + rewrite bool_decide_eq_true_2 by done.
      rewrite award_miss; [done|].
      intros p' Hp' Heq. exfalso. apply Hq. rewrite <- Heq.
      by apply list_elem_of_fmap_2.
    + assert (username q ≠ username p) as Hne.
      { intros Heq. apply Hq. rewrite Heq. by apply list_elem_of_fmap_2. }
      rewrite IH by done.
      case_bool_decide; [|done].
      rewrite !lookup_js_set_eq, lookup_js_set_ne, js_get_js_set_ne by done.
      done.
Qed.

Lemma penalize_miss ps rv m u :
  (∀ p, p ∈ ps → username p = u →
        connected p = false ∨ truthy (js_get rv u) = true) →
  penalize ps rv m !! u = m !! u.
Proof.
  revert m. induction ps as [|q ps IH]; intros m Hmiss; [done|].
  simpl. fold (penalize ps rv). rewrite IH.
  - destruct (connected q && negb (truthy (js_get rv (username q)))) eqn:E;
      [|done].
    destruct (decide (username q = u)) as [<-|Hne].
    + exfalso. apply andb_true_iff in E as [E1 E2].
      apply negb_true_iff in E2.
      destruct (Hmiss q) as [H|H]; [by left|done|congruence..].
    + by rewrite lookup_js_set_ne.
  - intros p Hp. apply Hmiss. by right.
Qed.

Lemma penalize_hit ps rv m p :
  NoDup (username <$> ps) →
  p ∈ ps →
  connected p = true →
  truthy (js_get rv (username p)) = false →
  penalize ps rv m !! username p
  = js_set (username p) (num_sub (js_get m (username p)) 1) m !! username p.
Proof.
  revert m. induction ps as [|q ps IH]; intros m Hnd Hp Hc Hrv.
  - by apply elem_of_nil in Hp.
  - rewrite fmap_cons in Hnd. apply NoDup_cons in Hnd as [Hq Hnd].
    simpl. fold (penalize ps rv).
    apply elem_of_cons in Hp as [->|Hp].
    + rewrite Hc, Hrv. simpl.
      rewrite penalize_miss; [done|].
      intros p' Hp' Heq. exfalso. apply Hq. rewrite <- Heq.
      by apply list_elem_of_fmap_2.
    + assert (username q ≠ username p) as Hne.
      { intros Heq. apply Hq. rewrite Heq. by apply list_elem_of_fmap_2. }
      rewrite IH by done.
      destruct (connected q && negb (truthy (js_get rv (username q))));
        [|done].
      rewrite !lookup_js_set_eq, lookup_js_set_ne, js_get_js_set_ne by done.
      done.
Qed.

Lemma username_inj ps (p q : participant) :
  NoDup (username <$> ps) → p ∈ ps → q ∈ ps → username p = username q → p = q.
Proof.
  induction ps as [|x ps IH]; intros Hnd Hp Hq Heq.
  - by apply elem_of_nil in Hp.
  - rewrite fmap_cons in Hnd. apply NoDup_cons in Hnd as [Hx Hnd].
    apply elem_of_cons in Hp as [->|Hp]; apply elem_of_cons in Hq as [->|Hq].
    + done.
    + exfalso. apply Hx. rewrite Heq. by apply list_elem_of_fmap_2.
    + exfalso. apply Hx. rewrite <- Heq. by apply list_elem_of_fmap_2.
    + by apply IH.
Qed.

Lemma awardPoints_gain ps rv ac dc sc p z :
  NoDup (username <$> ps) →
  p ∈ ps →
  sc !! username p = Some (Int z) →
  awardPoints ps rv (winner ac dc).1 (winner ac dc).2 sc !! username p
  = Some (Int (z + gain ac dc (js_get rv (username p)))).
Proof.
  intros Hnd Hp Hz.
  assert (∀ side pts,
            award ps rv side pts sc !! username p
            = Some (Int (z + if bool_decide
                                  (js_get rv (username p) = own side)
                             then pts else 0))) as Haward.
  { intros side pts. case_bool_decide as Hside.
    - rewrite award_hit by done.
      rewrite (lookup_js_set_own _ _ _ _ Hz).
      by rewrite (js_get_own _ _ _ Hz).
    - rewrite award_miss by (intros q _ _; done). rewrite Hz.
      do 2 f_equal. lia. }
  unfold winner, gain, won, awardPoints.
  destruct (decide (ac > dc)) as [Hgt|Hle]; simpl.
  - rewrite (bool_decide_eq_false_2 (dc > ac ∧ _)) by lia.
    rewrite orb_false_r. replace (Z.max ac dc) with ac by lia.
    destruct (decide (ac > 0)) as [Hpos|Hneg].
    + rewrite Haward, (bool_decide_eq_true_2 (0 < ac)) by lia.
      rewrite andb_true_r. do 3 f_equal.
      repeat case_bool_decide; intuition congruence.
    + rewrite (bool_decide_eq_false_2 (0 < ac)) by lia.
      rewrite andb_false_r, Hz. do 2 f_equal. lia.
  - rewrite (bool_decide_eq_false_2 (ac > dc ∧ _)) by lia. simpl.
    destruct (decide (dc > ac)) as [Hgt|Heq]; simpl.
    + replace (Z.max ac dc) with dc by lia.
      destruct (decide (dc > 0)) as [Hpos|Hneg].
      * rewrite Haward, (bool_decide_eq_true_2 (0 < dc)) by lia.
        rewrite andb_true_r. do 3 f_equal.
        repeat case_bool_decide; intuition congruence.
      * rewrite (bool_decide_eq_false_2 (0 < dc)) by lia.
        rewrite andb_false_r, Hz. do 2 f_equal. lia.
    + rewrite (bool_decide_eq_false_2 (dc > ac ∧ _)) by lia. simpl.
      rewrite Hz. do 2 f_equal. lia.
Qed.

Lemma penalize_penalty ps rv m p z :
  NoDup (username <$> ps) →
  p ∈ ps →
  m !! username p = Some (Int z) →
  penalize ps rv m !! username p
  = Some (Int (z - penalty (connected p) (js_get rv (username p)))).
Proof.
  intros Hnd Hp Hz. unfold penalty.
  destruct (connected p && negb (truthy (js_get rv (username p)))) eqn:E.
  - apply andb_true_iff in E as [E1 E2]. apply negb_true_iff in E2.
    rewrite penalize_hit by done.
    rewrite (lookup_js_set_own _ _ _ _ Hz).
    by rewrite (js_get_own _ _ _ Hz).
  - rewrite penalize_miss.
    + rewrite Hz. do 2 f_equal. lia.
    + intros q Hq Heq.
      assert (q = p) as -> by by eapply username_inj.
      apply andb_false_iff in E as [E|E]; [by left|right].
      by apply negb_false_iff in E.
Qed.

Lemma penalize_outside ps rv m u :
  u ∉ username <$> ps → penalize ps rv m !! u = m !! u.
Proof.
  intros Hu. apply penalize_miss. intros p Hp Heq.
  exfalso. apply Hu. rewrite <- Heq. by apply list_elem_of_fmap_2.
Qed.

Lemma awardPoints_outside ps rv team pts m u :
  u ∉ username <$> ps → awardPoints ps rv team pts m !! u = m !! u.
Proof.
  intros Hu. unfold awardPoints. destruct team as [|side ?]; [done|].
  case_decide; [|done]. apply award_miss. intros p Hp Heq.
  exfalso. apply Hu. rewrite <- Heq. by apply list_elem_of_fmap_2.
Qed.

(** The score of a roster member after [calculateResults]. *)
Lemma calculateResults_score c s r g l p z :
  gameStates_get c s = Some (r, g) →
  lobbies s !! c = Some l →
  NoDup (usernames l) →
  p ∈ participants l →
  scores g !! username p = Some (Int z) →
  ∃ g',
    heap (calculateResults c s) !! r = Some g' ∧
    scores g' !! username p
    = Some (Int (z + gain (agreeChange l g) (disagreeChange l g)
                       (js_get (revotes g) (username p))
                - penalty (connected p) (js_get (revotes g) (username p)))).
Proof.
  intros Hg Hl Hnd Hp Hz. eexists. split; [by apply calculateResults_state|].
  simpl. erewrite penalize_penalty; [done..|].
  by apply awardPoints_gain.
Qed.

(** ** The loops of the earlier server *)

Lemma basic_award_notin players pts m u :
  u ∉ players → Basic.award players pts m !! u = m !! u.
Proof.
  unfold Basic.award. revert m.
  induction players as [|v players IH]; intros m Hu; [done|].
  apply not_elem_of_cons in Hu as [Hne Hu]. simpl. rewrite IH by done.
  by rewrite lookup_js_set_ne.
Qed.

Lemma basic_award_in players pts m u :
  NoDup players → u ∈ players →
  Basic.award players pts m !! u
  = js_set u (num_add (js_get m u) pts) m !! u.
Proof.
  unfold Basic.award. revert m.
  induction players as [|v players IH]; intros m Hnd Hu.
  - by apply elem_of_nil in Hu.
  - apply NoDup_cons in Hnd as [Hv Hnd]. simpl.
    apply elem_of_cons in Hu as [->|Hu].
    + fold (Basic.award players pts
              (js_set v (num_add (js_get m v) pts) m)).
      by rewrite basic_award_notin.
    + assert (v ≠ u) as Hne by (intros ->; done).
      rewrite IH by done.
      rewrite !lookup_js_set_eq, lookup_js_set_ne, js_get_js_set_ne by done.
      done.
Qed.

Lemma basic_side_names ps (rv : gmap string string) side u :
  u ∈ Basic.username
        <$> List.filter
              (λ p, bool_decide (js_get rv (Basic.username p) = own side)) ps
  ↔ u ∈ Basic.username <$> ps ∧ js_get rv u = own side.
Proof.
  rewrite !list_elem_of_fmap. split.
  - intros (p & -> & Hp). apply list_elem_of_In, filter_In in Hp as [Hp Hs].
    apply bool_decide_eq_true in Hs. split; [|done].
    exists p. split; [done|]. by apply list_elem_of_In.
  - intros [(p & -> & Hp) Hs]. exists p. split; [done|].
    apply list_elem_of_In, filter_In. split; [by apply list_elem_of_In|].
    by apply bool_decide_eq_true.
Qed.

Lemma basic_side_NoDup ps (f : Basic.participant → bool) :
  NoDup (Basic.username <$> ps) →
  NoDup (Basic.username <$> List.filter f ps).
Proof.
  induction ps as [|p ps IH]; [done|]. rewrite fmap_cons.
  intros [Hp Hnd]%NoDup_cons. simpl. destruct (f p); [|by apply IH].
  rewrite fmap_cons. apply NoDup_cons. split; [|by apply IH].
  intros (q & Hq & Hin)%list_elem_of_fmap. apply Hp.
  apply list_elem_of_fmap. exists q. split; [done|].
  apply list_elem_of_In, filter_In in Hin as [Hin _].
  by apply list_elem_of_In.
Qed.

Lemma basic_penalize_notin ps rv m u :
  u ∉ Basic.username <$> ps → Basic.penalize ps rv m !! u = m !! u.
Proof.
  unfold Basic.penalize. revert m.
  induction ps as [|q ps IH]; intros m Hu; [done|].
  rewrite fmap_cons in Hu. apply not_elem_of_cons in Hu as [Hne Hu].
  simpl. rewrite IH by done.
  destruct (negb (truthy (js_get rv (Basic.username q)))); [|done].
  by rewrite lookup_js_set_ne.
Qed.

Lemma basic_penalize_in ps rv m u :
  NoDup (Basic.username <$> ps) →
  u ∈ Basic.username <$> ps →
  Basic.penalize ps rv m !! u
  = if truthy (js_get rv u) then m !! u
    else js_set u (num_sub (js_get m u) 1) m !! u.
Proof.
  unfold Basic.penalize. revert m.
  induction ps as [|q ps IH]; intros m Hnd Hu.
  - by apply elem_of_nil in Hu.
  - rewrite fmap_cons in Hnd, Hu. apply NoDup_cons in Hnd as [Hq Hnd].
    simpl. apply elem_of_cons in Hu as [->|Hu].
    + match goal with
      | |- fold_left ?f ps ?m0 !! _ = _ =>
          change (fold_left f ps m0) with (Basic.penalize ps rv m0)
      end.
      rewrite basic_penalize_notin by done.
      by destruct (truthy (js_get rv (Basic.username q))); cbn [negb].
    + rewrite IH by done.
      assert (Basic.username q ≠ u) as Hne by (intros <-; done).
      destruct (negb (truthy (js_get rv (Basic.username q)))); [|done].
      rewrite !lookup_js_set_eq, lookup_js_set_ne, js_get_js_set_ne by done.
      done.
Qed.

(** The score of a roster member after the earlier [calculateResults]. *)
Lemma basic_calculateResults_score (l : Basic.lobby) (g : Basic.gameState)
    (p : Basic.participant) (z : Z) :
  NoDup (Basic.username <$> Basic.participants l) →
  p ∈ Basic.participants l →
  Basic.scores g !! Basic.username p = Some (Int z) →
  Basic.scores (Basic.calculateResults l g).1 !! Basic.username p
  = Some (Int (z + basic_gain (basic_agreeChange l g)
                     (basic_disagreeChange l g)
                     (js_get (Basic.revotes g) (Basic.username p))
               - basic_penalty
                   (js_get (Basic.revotes g) (Basic.username p)))).
Proof.
  intros Hnd Hp Hz.
  unfold Basic.calculateResults. simpl.
  fold (basic_agreeChange l g) (basic_disagreeChange l g).
  set (ac := basic_agreeChange l g). set (dc := basic_disagreeChange l g).
  set (rv := Basic.revotes g). set (u := Basic.username p).
  change (Basic.scores g !! u = Some (Int z)) in Hz.
  assert (u ∈ Basic.username <$> Basic.participants l) as Hu
    by by apply list_elem_of_fmap_2.
  rewrite basic_penalize_in by done.
  set (players := Basic.winningPlayers (Basic.participants l) rv ac dc).
  assert ((if decide (0 < length players)%nat
           then Basic.award players (Z.abs (ac - dc)) (Basic.scores g)
           else Basic.scores g) !! u
          = Some (Int (z + basic_gain ac dc (js_get rv u)))) as Haward.
  { assert (NoDup players) as Hndp.
    { unfold players, Basic.winningPlayers.
      repeat case_decide; try apply NoDup_nil_2;
        by apply basic_side_NoDup. }
    assert (u ∈ players ↔ won ac dc (js_get rv u) = true) as Hwon.
    { unfold players, Basic.winningPlayers, won.
      rewrite orb_true_iff, !bool_decide_eq_true.
      repeat case_decide; rewrite ?basic_side_names, ?elem_of_nil;
        intuition lia. }
    unfold basic_gain. destruct (won ac dc (js_get rv u)) eqn:Ew.
    - assert (u ∈ players) as Hin by by apply Hwon.
      rewrite decide_True by (destruct players; [by apply elem_of_nil in Hin
                                               |simpl; lia]).
      rewrite basic_award_in by done.
      rewrite (lookup_js_set_own _ _ _ _ Hz).
      by rewrite (js_get_own _ _ _ Hz).
    - assert (u ∉ players) as Hout by (rewrite Hwon; congruence).
      case_decide; [rewrite basic_award_notin by done|];
        rewrite Hz; do 2 f_equal; lia. }
  unfold basic_penalty.
  destruct (truthy (js_get rv u)).
  - rewrite Haward. do 2 f_equal. lia.
  - rewrite (lookup_js_set_own _ _ _ _ Haward).
    by rewrite (js_get_own _ _ _ Haward).
Qed.

(** ** Scoring a round *)

Ltac closed :=
  first [ vm_compute; reflexivity
        | apply (bool_decide_unpack _); vm_compute; exact I ].

(** The scenario states are the states their runs lead to. *)
Lemma scenarios_reached :
  run lobby_of_two (init topics) = Some (after_lobby_of_two, []) ∧
  run three_players_voting (init topics)
  = Some (after_three_players_voting, []) ∧
  run vote_maybe (init topics) = Some (after_vote_maybe, []) ∧
  run two_votes (init topics) = Some (after_two_votes, []) ∧
  run two_agree (init topics) = Some (after_two_agree, []) ∧
  run four_players_revoting (init topics)
  = Some (after_four_players_revoting,
          [ (1%nat, call_startDiscussionPhase "ROOM");
            (2%nat, call_startRevotingPhase "ROOM") ]) ∧
  run late_joiner (init topics)
  = Some (after_late_joiner, [ (0%nat, call_processVoteResults "ROOM") ]).
Proof. repeat split; vm_compute; reflexivity. Qed.

(** The new scenario states are the states their runs lead to. *)
Lemma more_scenarios_reached :
  run swing_round (init topics)
  = Some (after_swing_round,
          [ (1%nat, call_startDiscussionPhase "ROOM");
            (2%nat, call_startRevotingPhase "ROOM") ]) ∧
  run prototype_name_round (init topics)
  = Some (after_prototype_name_round,
          [ (1%nat, call_startDiscussionPhase "ROOM");
            (2%nat, call_startRevotingPhase "ROOM") ]) ∧
  run double_tally_first (init topics)
  = Some (after_double_tally_first, []) ∧
  run double_tally (init topics) = Some (after_double_tally, []).
Proof. repeat split; vm_compute; reflexivity. Qed.

(** C1, as amended.  Each call of [calculateResults] compares
    agreeChange = finalAgree - initialAgree with
    disagreeChange = finalDisagree - initialDisagree.

    In the current server the reported winning team is agree when
    agreeChange is larger, disagree when disagreeChange is larger, and empty
    (with zero points) when they are equal.  When the larger change is
    positive, every participant with a numeric score whose recorded revote
    is the winning side has it increased by exactly
    max(agreeChange, disagreeChange), in full; when it is zero or negative
    no score is increased; in every case no other numeric score of a
    participant is increased and the scores of names outside the roster are
    left as they are.

    In the earlier server the side is chosen by the same comparison, the
    reported winners are the roster names whose recorded revote is that
    side, and each of them gains the distance |agreeChange - disagreeChange|
    instead of the maximum; on equality there are no winners, the distance
    is zero and no score is increased. *)
Theorem winners_gain_the_larger_change_when_positive :
  (∀ (c : string) (s : server) (r : loc) (g : gameState) (l : lobby),
     gameStates_get c s = Some (r, g) →
     lobbies s !! c = Some l →
     NoDup (usernames l) →
     let ac := agreeChange l g in
     let dc := disagreeChange l g in
     ∃ g' team pts,
       heap (calculateResults c s) !! r = Some g' ∧
       last (outbox (calculateResults c s))
       = Some (to_room c
                 (round_results (initialVoteResults g) (finalVoteResults g')
                    team pts ac dc)) ∧
       (ac > dc → team = ["agree"] ∧ pts = ac) ∧
       (dc > ac → team = ["disagree"] ∧ pts = dc) ∧
       (ac = dc → team = [] ∧ pts = 0) ∧
       (∀ p z, p ∈ participants l →
               scores g !! username p = Some (Int z) →
               won ac dc (js_get (revotes g) (username p)) = true →
               0 < Z.max ac dc →
               scores g' !! username p = Some (Int (z + Z.max ac dc))) ∧
       (∀ p z, p ∈ participants l →
               scores g !! username p = Some (Int z) →
               won ac dc (js_get (revotes g) (username p)) = false
               ∨ Z.max ac dc ≤ 0 →
               ∃ z', scores g' !! username p = Some (Int z') ∧ z' ≤ z) ∧
       (∀ u, u ∉ usernames l → scores g' !! u = scores g !! u)) ∧
  (∀ (l : Basic.lobby) (g : Basic.gameState),
     NoDup (Basic.username <$> Basic.participants l) →
     let ac := basic_agreeChange l g in
     let dc := basic_disagreeChange l g in
     let g' := (Basic.calculateResults l g).1 in
     let out := (Basic.calculateResults l g).2 in
     Basic.agreeChange out = ac ∧
     Basic.disagreeChange out = dc ∧
     Basic.pointsAwarded out = Z.abs (ac - dc) ∧
     (∀ u, u ∈ Basic.winningTeam out
           ↔ u ∈ Basic.username <$> Basic.participants l
             ∧ won ac dc (js_get (Basic.revotes g) u) = true) ∧
     (ac = dc → Basic.winningTeam out = [] ∧ Basic.pointsAwarded out = 0) ∧
     (∀ p z, p ∈ Basic.participants l →
             Basic.scores g !! Basic.username p = Some (Int z) →
             won ac dc (js_get (Basic.revotes g) (Basic.username p)) = true →
             Basic.scores g' !! Basic.username p
             = Some (Int (z + Z.abs (ac - dc)))) ∧
     (∀ p z, p ∈ Basic.participants l →
             Basic.scores g !! Basic.username p = Some (Int z) →
             won ac dc (js_get (Basic.revotes g) (Basic.username p)) = false →
             ∃ z', Basic.scores g' !! Basic.username p = Some (Int z')
                   ∧ z' ≤ z) ∧
     (∀ u, u ∉ Basic.username <$> Basic.participants l →
           Basic.scores g' !! u = Basic.scores g !! u)).
Proof.
  split.
  - intros c s r g l Hg Hl Hnd ac dc.
    pose proof (calculateResults_state c s r g l Hg Hl) as Hs.
    eexists _, (winner ac dc).1, (winner ac dc).2.
    split; [exact Hs|].
    split.
    { unfold calculateResults. rewrite Hg, Hl. simpl.
      fold (agreeChange l g) (disagreeChange l g). fold ac dc.
      destruct (winner ac dc) as [team pts]. simpl.
      by rewrite last_snoc. }
    split; [|split; [|split]].
    + intros H. unfold winner. by rewrite decide_True.
    + intros H. unfold winner.
      rewrite decide_False by lia. by rewrite decide_True.
    + intros H. unfold winner. by rewrite !decide_False by lia.
    + split; [|split].
      * intros p z Hp Hz Hwon Hpos.
        destruct (calculateResults_score c s r g l p z Hg Hl Hnd Hp Hz)
          as (g' & Hg' & Hsc).
        rewrite Hs in Hg'. injection Hg' as <-. rewrite Hsc.
        fold ac dc. unfold gain, penalty. rewrite Hwon.
        rewrite bool_decide_eq_true_2 by done. simpl.
        assert (truthy (js_get (revotes g) (username p)) = true) as ->.
        { unfold won in Hwon. apply orb_true_iff in Hwon as [H|H];
            apply bool_decide_eq_true in H as [_ ->]; done. }
        rewrite andb_false_r. do 2 f_equal. lia.
      * intros p z Hp Hz Hnot.
        destruct (calculateResults_score c s r g l p z Hg Hl Hnd Hp Hz)
          as (g' & Hg' & Hsc).
        rewrite Hs in Hg'. injection Hg' as <-. rewrite Hsc.
        eexists. split; [done|]. fold ac dc.
        assert (gain ac dc (js_get (revotes g) (username p)) = 0) as ->.
        { unfold gain. destruct Hnot as [-> | Hle]; [done|].
          rewrite (bool_decide_eq_false_2 (0 < Z.max ac dc)) by lia.
          by rewrite andb_false_r. }
        unfold penalty. case_match; lia.
      * intros u Hu. simpl.
        rewrite penalize_outside by done. by apply awardPoints_outside.
  - intros l g Hnd ac dc g' out.
    split; [done|]. split; [done|]. split; [done|].
    assert (∀ u, u ∈ Basic.winningTeam out
                 ↔ u ∈ Basic.username <$> Basic.participants l
                   ∧ won ac dc (js_get (Basic.revotes g) u) = true) as Hteam.
    { intros u. unfold out, Basic.calculateResults. simpl.
      fold (basic_agreeChange l g) (basic_disagreeChange l g). fold ac dc.
      unfold Basic.winningPlayers, won.
      rewrite orb_true_iff, !bool_decide_eq_true.
      repeat case_decide; rewrite ?basic_side_names, ?elem_of_nil;
        intuition lia. }
    split; [exact Hteam|].
    split.
    { intros Heq. split; [|unfold out; simpl;
        fold (basic_agreeChange l g) (basic_disagreeChange l g); lia].
      unfold out, Basic.calculateResults. simpl.
      fold (basic_agreeChange l g) (basic_disagreeChange l g). fold ac dc.
      unfold Basic.winningPlayers. by rewrite !decide_False by lia. }
    split; [|split].
    + intros p z Hp Hz Hwon. unfold g'.
      rewrite (basic_calculateResults_score l g p z Hnd Hp Hz).
      fold ac dc. unfold basic_gain, basic_penalty. rewrite Hwon.
      assert (truthy (js_get (Basic.revotes g) (Basic.username p)) = true)
        as ->.
      { unfold won in Hwon. apply orb_true_iff in Hwon as [H|H];
          apply bool_decide_eq_true in H as [_ ->]; done. }
      do 2 f_equal. lia.
    + intros p z Hp Hz Hnot. unfold g'.
      rewrite (basic_calculateResults_score l g p z Hnd Hp Hz).
      fold ac dc. unfold basic_gain, basic_penalty. rewrite Hnot.
      eexists. split; [done|]. case_match; lia.
    + intros u Hu. unfold g', Basic.calculateResults. simpl.
      rewrite basic_penalize_notin by done.
      case_decide; [|done]. apply basic_award_notin.
      intros Hin. apply Hu.
      fold (basic_agreeChange l g) (basic_disagreeChange l g) in Hin.
      fold ac dc in Hin.
      revert Hin. unfold Basic.winningPlayers.
      repeat case_decide; rewrite ?basic_side_names, ?elem_of_nil;
        intuition.
Qed.

Lemma winners_gain_the_larger_change_when_positive_witness :
  let g := game_after_swing_round in
  let l := lobby_after_swing_round in
  let out := (Basic.calculateResults earlier_lobby earlier_game).2 in
  ∃ g',
    gameStates_get "ROOM" after_swing_round = Some (0%nat, g) ∧
    lobbies after_swing_round !! "ROOM" = Some l ∧
    agreeChange l g = 1 ∧
    disagreeChange l g = -3 ∧
    heap (calculateResults "ROOM" after_swing_round) !! 0%nat = Some g' ∧
    last (outbox (calculateResults "ROOM" after_swing_round))
    = Some (to_room "ROOM"
              (round_results (initialVoteResults g) (finalVoteResults g')
                 ["agree"] 1 1 (-3))) ∧
    revotes g !! "Bob" = Some "agree" ∧
    scores g !! "Bob" = Some (Int 0) ∧
    scores g' !! "Bob" = Some (Int 1) ∧
    (∃ z', scores g' !! "Dave" = Some (Int z') ∧ z' ≤ 0) ∧
    scores g' !! "Zed" = scores g !! "Zed" ∧
    Basic.pointsAwarded out = 2 ∧
    "Bob" ∈ Basic.winningTeam out ∧
    Basic.scores (Basic.calculateResults earlier_lobby earlier_game).1
    !! "Bob" = Some (Int 2).
Proof.
  intros g l out.
  assert (gameStates_get "ROOM" after_swing_round
          = Some (0%nat, game_after_swing_round)) as Hg by closed.
  assert (lobbies after_swing_round !! "ROOM"
          = Some lobby_after_swing_round) as Hl by closed.
  assert (NoDup (usernames lobby_after_swing_round)) as Hnd by closed.
  assert (agreeChange l g = 1) as Hac by closed.
  assert (disagreeChange l g = -3) as Hdc by closed.
  assert (NoDup (Basic.username <$> Basic.participants earlier_lobby))
    as Hndb by closed.
  destruct winners_gain_the_larger_change_when_positive as [HS HB].
  pose proof (HS "ROOM" _ _ _ _ Hg Hl Hnd) as H.
  pose proof (HB earlier_lobby earlier_game Hndb) as H'.
  cbv zeta in H, H'. fold g l in H.
  rewrite Hac, Hdc in H.
  destruct H as (g' & team & pts & H1 & H2 & H3 & _ & _ & H4 & H5 & H6).
  destruct H3 as [-> ->]; [lia|].
  destruct H' as (_ & _ & H7 & H8 & _ & H9 & _ & _).
  exists g'.
  split; [exact Hg|]. split; [exact Hl|]. split; [exact Hac|].
  split; [exact Hdc|]. split; [exact H1|]. split; [exact H2|].
  split; [closed|]. split; [closed|].
  split.
  { apply (H4 {| username := "Bob"; isHost := false; connected := true |} 0);
      [closed|closed|closed|lia]. }
  split.
  { apply (H5 {| username := "Dave"; isHost := false; connected := false |} 0);
      [closed|closed|left; closed]. }
  split; [apply H6; closed|].
  split; [etrans; [exact H7|closed]|].
  split.
  { apply H8. split; [closed|closed]. }
  etrans.
  { apply (H9 {| Basic.username := "Bob"; Basic.isHost := false |} 0).
    - apply elem_of_cons; right; apply elem_of_cons; by left.
    - closed.
    - closed. }
  closed.
Defined.

(** C1 as stated fails in both servers.  In the current one, with initial
    tally agree 2, disagree 2 and Alice the only one to revote (agree),
    agreeChange = -1 > disagreeChange = -2, the agree side is reported as
    winner with pointsPerWinner = -1, and Alice's score stays 0 instead of
    changing by max(-1, -2).  In the earlier one, with votes Alice agree,
    Bob disagree and both revoting agree, agreeChange = 1,
    disagreeChange = -1, and each winner gains 2, not max(1, -1) = 1. *)
Lemma negative_gain_counterexample :
  let g := game_after_four_players_revoting in
  let l := lobby_after_four_players_revoting in
  let earlier := Basic.calculateResults earlier_lobby earlier_game in
  ∃ g',
    gameStates_get "ROOM" after_four_players_revoting = Some (0%nat, g) ∧
    lobbies after_four_players_revoting !! "ROOM" = Some l ∧
    heap (calculateResults "ROOM" after_four_players_revoting) !! 0%nat
    = Some g' ∧
    agreeChange l g = -1 ∧
    disagreeChange l g = -2 ∧
    revotes g !! "Alice" = Some "agree" ∧
    scores g !! "Alice" = Some (Int 0) ∧
    last (outbox (calculateResults "ROOM" after_four_players_revoting))
    = Some (to_room "ROOM"
              (round_results (initialVoteResults g) (finalVoteResults g')
                 ["agree"] (-1) (-1) (-2))) ∧
    scores g' !! "Alice" = Some (Int 0) ∧
    scores g' !! "Alice" ≠ Some (Int (0 + Z.max (-1) (-2))) ∧
    Basic.agreeChange earlier.2 = 1 ∧
    Basic.disagreeChange earlier.2 = -1 ∧
    Basic.revotes earlier_game !! "Alice" = Some "agree" ∧
    Basic.scores earlier_game !! "Alice" = Some (Int 0) ∧
    Basic.scores earlier.1 !! "Alice" = Some (Int 2) ∧
    Basic.scores earlier.1 !! "Alice" ≠ Some (Int (0 + Z.max 1 (-1))).
Proof.
  intros g l earlier. eexists.
  split; [closed|]. split; [closed|]. split; [closed|].
  vm_compute. repeat split; done.
Qed.

(** C7.  In each call of [calculateResults] the penalty loop runs on the
    scores the award step produced, and a participant with no recorded
    revote is left alone by the award step, whichever side won and whatever
    was awarded.  The penalty test [!revotes[name]] reads the prototype
    chain.  When the name is not a property name of [Object.prototype], such
    a participant ends the call with exactly one point less when connected,
    with an unchanged score when disconnected.  When the name is one
    (constructor, toString, ...), the read is an inherited member, the test
    fails, and the participant keeps the score, connected or not. *)
Theorem missing_revote_penalty_reads_the_prototype (c : string) (s : server)
    (r : loc) (g : gameState) (l : lobby) (p : participant) (z : Z) :
  gameStates_get c s = Some (r, g) →
  lobbies s !! c = Some l →
  NoDup (usernames l) →
  p ∈ participants l →
  revotes g !! username p = None →
  scores g !! username p = Some (Int z) →
  ∃ g' awarded,
    heap (calculateResults c s) !! r = Some g' ∧
    awarded
    = awardPoints (participants l) (revotes g)
        (winner (agreeChange l g) (disagreeChange l g)).1
        (winner (agreeChange l g) (disagreeChange l g)).2 (scores g) ∧
    scores g' = penalize (participants l) (revotes g) awarded ∧
    awarded !! username p = Some (Int z) ∧
    (username p ∉ prototype_names →
     scores g' !! username p
     = Some (Int (if connected p then z - 1 else z))) ∧
    (username p ∈ prototype_names →
     scores g' !! username p = Some (Int z)).
Proof.
  intros Hg Hl Hnd Hp Hrv Hz.
  pose proof (calculateResults_state c s r g l Hg Hl) as Hs.
  eexists _, _. split; [exact Hs|]. split; [reflexivity|].
  split; [reflexivity|].
  assert (js_get (revotes g) (username p)
          = if bool_decide (username p ∈ prototype_names)
            then inherited (username p) else undefined) as Hread.
  { unfold js_get. by rewrite Hrv. }
  assert (gain (agreeChange l g) (disagreeChange l g)
            (js_get (revotes g) (username p)) = 0) as Hgain.
  { rewrite Hread. unfold gain, won.
    case_bool_decide;
      rewrite (bool_decide_eq_false_2 (_ ∧ _ = own "agree"))
        by (by intros [_ ?]);
      by rewrite (bool_decide_eq_false_2 (_ ∧ _ = own "disagree"))
        by (by intros [_ ?]). }
  split.
  { rewrite (awardPoints_gain _ _ _ _ _ p z) by done.
    rewrite Hgain. do 2 f_equal. lia. }
  destruct (calculateResults_score c s r g l p z Hg Hl Hnd Hp Hz)
    as (g' & Hg' & Hsc).
  rewrite Hs in Hg'. injection Hg' as <-.
  split; intros Hname; rewrite Hsc, Hgain, Hread.
  - rewrite bool_decide_eq_false_2 by done.
    unfold penalty. destruct (connected p); simpl; do 2 f_equal; lia.
  - rewrite bool_decide_eq_true_2 by done.
    unfold penalty. destruct (connected p); simpl; do 2 f_equal; lia.
Qed.

(** The roster member constructor is connected and has no recorded revote
    when [calculateResults] runs, and keeps the score 0; Carol, in the same
    position in an otherwise equal round, ends with -1. *)
Lemma missing_revote_penalty_reads_the_prototype_witness :
  ∃ g1 g2,
    {| username := "constructor"; isHost := false; connected := true |}
    ∈ participants lobby_after_prototype_name_round ∧
    revotes game_after_prototype_name_round !! "constructor" = None ∧
    scores game_after_prototype_name_round !! "constructor"
    = Some (Int 0) ∧
    heap (calculateResults "ROOM" after_prototype_name_round) !! 0%nat
    = Some g1 ∧
    scores g1 !! "constructor" = Some (Int 0) ∧
    {| username := "Carol"; isHost := false; connected := true |}
    ∈ participants lobby_after_swing_round ∧
    revotes game_after_swing_round !! "Carol" = None ∧
    scores game_after_swing_round !! "Carol" = Some (Int 0) ∧
    heap (calculateResults "ROOM" after_swing_round) !! 0%nat = Some g2 ∧
    scores g2 !! "Carol" = Some (Int (0 - 1)).
Proof.
  assert (gameStates_get "ROOM" after_prototype_name_round
          = Some (0%nat, game_after_prototype_name_round)) as Hg1 by closed.
  assert (lobbies after_prototype_name_round !! "ROOM"
          = Some lobby_after_prototype_name_round) as Hl1 by closed.
  assert (NoDup (usernames lobby_after_prototype_name_round)) as Hnd1
    by closed.
  assert ({| username := "constructor"; isHost := false; connected := true |}
          ∈ participants lobby_after_prototype_name_round) as Hp1 by closed.
  assert (revotes game_after_prototype_name_round !! "constructor" = None)
    as Hrv1 by closed.
  assert (scores game_after_prototype_name_round !! "constructor"
          = Some (Int 0)) as Hz1 by closed.
  assert (gameStates_get "ROOM" after_swing_round
          = Some (0%nat, game_after_swing_round)) as Hg2 by closed.
  assert (lobbies after_swing_round !! "ROOM"
          = Some lobby_after_swing_round) as Hl2 by closed.
  assert (NoDup (usernames lobby_after_swing_round)) as Hnd2 by closed.
  assert ({| username := "Carol"; isHost := false; connected := true |}
          ∈ participants lobby_after_swing_round) as Hp2 by closed.
  assert (revotes game_after_swing_round !! "Carol" = None) as Hrv2
    by closed.
  assert (scores game_after_swing_round !! "Carol" = Some (Int 0)) as Hz2
    by closed.
  destruct (missing_revote_penalty_reads_the_prototype "ROOM" _ _ _ _ _ 0
              Hg1 Hl1 Hnd1 Hp1 Hrv1 Hz1)
    as (g1 & _ & H1 & _ & _ & _ & _ & H1').
  destruct (missing_revote_penalty_reads_the_prototype "ROOM" _ _ _ _ _ 0
              Hg2 Hl2 Hnd2 Hp2 Hrv2 Hz2)
    as (g2 & _ & H2 & _ & _ & _ & H2' & _).
  exists g1, g2.
  split; [exact Hp1|]. split; [exact Hrv1|]. split; [exact Hz1|].
  split; [exact H1|]. split; [apply H1'; closed|].
  split; [exact Hp2|]. split; [exact Hrv2|]. split; [exact Hz2|].
  split; [exact H2|]. apply H2'. closed.
Defined.

(** ** Joining a lobby *)

Lemma set_connected_usernames u b ps :
  username <$> set_connected u b ps = username <$> ps.
Proof.
  induction ps as [|p ps IH]; [done|]. simpl.
  case_bool_decide; simpl; [done|]. f_equal. apply IH.
Qed.

Lemma set_connected_length u b ps :
  length (set_connected u b ps) = length ps.
Proof.
  induction ps as [|p ps IH]; [done|]. simpl.
  case_bool_decide; simpl; [done|]. f_equal. apply IH.
Qed.

Lemma find_participant_Some u ps :
  u ∈ username <$> ps → is_Some (find_participant u ps).
Proof.
  induction ps as [|p ps IH]; intros Hu.
  - by apply elem_of_nil in Hu.
  - unfold find_participant. simpl. case_bool_decide as Hp; [by eexists|].
    apply IH. rewrite fmap_cons in Hu.
    apply elem_of_cons in Hu as [->|Hu]; done.
Qed.


Lemma find_set_connected u b ps :
  u ∈ username <$> ps →
  connected <$> find_participant u (set_connected u b ps) = Some b.
Proof.
  induction ps as [|p ps IH]; intros Hu.
  - by apply elem_of_nil in Hu.
  - unfold find_participant. simpl. case_bool_decide as Hp; simpl.
    + by rewrite bool_decide_eq_true_2.
    + rewrite bool_decide_eq_false_2 by done. apply IH.
      rewrite fmap_cons in Hu. apply elem_of_cons in Hu as [->|Hu]; done.
Qed.

(** Participants with another name are left as they are. *)
Lemma set_connected_other u b ps p :
  username p ≠ u → p ∈ set_connected u b ps ↔ p ∈ ps.
Proof.
  intros Hne. induction ps as [|q ps IH]; [done|]. simpl.
  case_bool_decide as Hq.
  - rewrite !elem_of_cons. split; intros [->|?]; auto; simpl in *; done.
  - rewrite !elem_of_cons, IH. done.
Qed.

Lemma basic_existsb_username u (ps : list Basic.participant) :
  u ∈ Basic.username <$> ps →
  existsb (λ p, bool_decide (Basic.username p = u)) ps = true.
Proof.
  induction ps as [|p ps IH]; intros Hu.
  - by apply elem_of_nil in Hu.
  - simpl. rewrite fmap_cons in Hu. apply elem_of_cons in Hu as [->|Hu].
    + by rewrite bool_decide_eq_true_2.
    + rewrite IH by done. apply orb_true_r.
Qed.

(** C3, as amended.  A join request with an identity that is already in the
    roster of the lobby is, in the current server, a reconnection whether or
    not the game has started: the answer carries [reconnection: true], the
    first roster entry with that name gets [connected = true], the roster
    keeps its names (no second entry), and the game states, with their
    scores, are untouched.  The earlier server rejects such a request as a
    duplicate identity, also whether or not the game has started. *)
Theorem join_with_known_identity (c uname : string) :
  c ≠ "" →
  uname ≠ "" →
  (∀ s l,
     lobbies s !! c = Some l →
     uname ∈ usernames l →
     ∃ l',
       api_lobby_join c uname s
       = (set_lobbies (<[c := l']> (lobbies s)) s, joined_response l' true) ∧
       participants l' = set_connected uname true (participants l) ∧
       usernames l' = usernames l ∧
       connected <$> find_participant uname (participants l') = Some true ∧
       (∀ p, username p ≠ uname → p ∈ participants l' ↔ p ∈ participants l) ∧
       gameStarted l' = gameStarted l ∧
       gameStates (api_lobby_join c uname s).1 = gameStates s ∧
       heap (api_lobby_join c uname s).1 = heap s) ∧
  (∀ (lobbies : gmap string Basic.lobby) l,
     lobbies !! c = Some l →
     uname ∈ Basic.username <$> Basic.participants l →
     Basic.api_lobby_join c uname lobbies
     = (lobbies,
        Basic.error_response 400 "Username already taken in this lobby")).
Proof.
  intros Hc Hu. split.
  - intros s l Hl Hin.
    destruct (find_participant_Some uname (participants l) Hin) as [p Hp].
    unfold api_lobby_join.
    rewrite decide_False by (intros [?|?]; done).
    rewrite Hl, Hp. eexists. split; [reflexivity|]. simpl.
    split; [done|]. split; [apply set_connected_usernames|].
    split; [by apply find_set_connected|].
    split; [intros q Hq; by apply set_connected_other|]. done.
  - intros lobbies l Hl Hin. unfold Basic.api_lobby_join.
    rewrite decide_False by (intros [?|?]; done).
    rewrite Hl. by rewrite basic_existsb_username.
Qed.

Lemma join_with_known_identity_witness :
  (∃ l',
     api_lobby_join "ROOM" "Bob" after_three_players_voting
     = (set_lobbies (<[ "ROOM" := l' ]> (lobbies after_three_players_voting))
          after_three_players_voting,
        joined_response l' true) ∧
     usernames l' = ["Alice"; "Bob"; "Carol"]) ∧
  Basic.api_lobby_join "ROOM" "Bob"
    {[ "ROOM" :=
         {| Basic.code := "ROOM"; Basic.host := "Alice";
            Basic.participants :=
              [ {| Basic.username := "Alice"; Basic.isHost := true |};
                {| Basic.username := "Bob"; Basic.isHost := false |} ];
            Basic.createdAt := 0 |} ]}
  = ({[ "ROOM" :=
          {| Basic.code := "ROOM"; Basic.host := "Alice";
             Basic.participants :=
               [ {| Basic.username := "Alice"; Basic.isHost := true |};
                 {| Basic.username := "Bob"; Basic.isHost := false |} ];
             Basic.createdAt := 0 |} ]},
     Basic.error_response 400 "Username already taken in this lobby").
Proof.
  destruct (join_with_known_identity "ROOM" "Bob") as [H1 H2]; [done..|].
  split.
  - assert (lobbies after_three_players_voting !! "ROOM" = Some lobby_after_three_players_voting)
    as Hl by closed.
    destruct (H1 _ _ Hl) as (l' & Hj & _ & Hn & _); [closed|].
    exists l'. split; [exact Hj|]. rewrite Hn. closed.
  - eapply H2; closed.
Defined.

(** C3 as stated fails: before the game has started, a join with a name that
    is already in the roster is answered as a reconnection, not rejected. *)
Lemma duplicate_identity_counterexample :
  ∃ l l',
    lobbies after_lobby_of_two
      !! "ROOM" = Some l ∧
    gameStarted l = false ∧
    gameStates after_lobby_of_two
      !! "ROOM" = None ∧
    "Bob" ∈ usernames l ∧
    (api_lobby_join "ROOM" "Bob"
       after_lobby_of_two).2
    = joined_response l' true.
Proof.
  eexists _, _. split; [closed|]. split; [closed|]. split; [closed|].
  split; [closed|]. closed.
Qed.

(** ** The host leaves *)

(** C2, as amended.  When the host leaves or disconnects while the lobby has
    no game state or its phase is waiting, the lobby entry and the game
    state are deleted and lobby-closed is broadcast to the group.  While a
    game is active in any other phase the host is treated like every other
    participant: the lobby and the game state stay, the host's connected
    flag is cleared, the host is recorded in [disconnectedPlayers] for the
    grace window, and lobby-updated is broadcast. *)
Theorem host_departure (c : string) (s : server) (l : lobby) (now : Z) :
  lobbies s !! c = Some l →
  (game_active (gameStates_get c s) = false →
   lobbies (leave_lobby c (host l) now s) !! c = None ∧
   gameStates (leave_lobby c (host l) now s) !! c = None ∧
   outbox (leave_lobby c (host l) now s)
   = outbox s ++ [to_room c lobby_closed]) ∧
  (game_active (gameStates_get c s) = true →
   host l ∈ usernames l →
   ∃ l',
     lobbies (leave_lobby c (host l) now s) !! c = Some l' ∧
     participants l' = set_connected (host l) false (participants l) ∧
     gameStates (leave_lobby c (host l) now s) = gameStates s ∧
     heap (leave_lobby c (host l) now s) = heap s ∧
     disconnectedPlayers (leave_lobby c (host l) now s) !! host l
     = Some (c, now) ∧
     outbox (leave_lobby c (host l) now s)
     = outbox s ++ [to_room c (lobby_updated l')]) ∧
  (∀ id,
     sockets s !! id
     = Some {| s_username := Some (host l); s_lobbyCode := Some c |} →
     c ≠ "" →
     host l ≠ "" →
     host l ∈ usernames l →
     (game_active (gameStates_get c s) = false →
      lobbies (disconnect id now s) !! c = None ∧
      gameStates (disconnect id now s) !! c = None ∧
      outbox (disconnect id now s) = outbox s ++ [to_room c lobby_closed]) ∧
     (game_active (gameStates_get c s) = true →
      ∃ l',
        lobbies (disconnect id now s) !! c = Some l' ∧
        participants l' = set_connected (host l) false (participants l) ∧
        gameStates (disconnect id now s) = gameStates s ∧
        heap (disconnect id now s) = heap s ∧
        disconnectedPlayers (disconnect id now s) !! host l
        = Some (c, now) ∧
        outbox (disconnect id now s)
        = outbox s ++ [to_room c (lobby_updated l')])).
Proof.
  intros Hl. split; [|split].
  - intros Hidle. unfold leave_lobby. rewrite Hl, Hidle.
    rewrite decide_True by (by right). simpl.
    by rewrite !lookup_delete_eq.
  - intros Hact Hin. unfold leave_lobby. rewrite Hl, Hact.
    destruct (find_participant_Some _ _ Hin) as [p ->].
    eexists. simpl. rewrite !lookup_insert_eq. done.
  - intros id Hsock Hc Hh Hin.
    destruct (find_participant_Some _ _ Hin) as [p Hp].
    assert (gameStates_get c (set_sockets (delete id (sockets s)) s)
            = gameStates_get c s) as Hget by done.
    split.
    + intros Hidle. unfold disconnect. rewrite Hsock.
      rewrite decide_False by (intros [?|?]; done). simpl.
      rewrite Hl, Hp, Hget, Hidle.
      rewrite decide_True by (by right).
      destruct (gameStates_get c s) as [[r g]|]; simpl;
        [unfold clear_timer; destruct (timerInterval g); simpl|];
        by rewrite !lookup_delete_eq.
    + intros Hact. unfold disconnect. rewrite Hsock.
      rewrite decide_False by (intros [?|?]; done). simpl.
      rewrite Hl, Hp, Hget, Hact.
      eexists. simpl. rewrite !lookup_insert_eq. done.
Qed.

Lemma host_departure_witness :
  lobbies (leave_lobby "ROOM" "Alice" 7
             after_lobby_of_two)
    !! "ROOM" = None ∧
  ∃ l',
    lobbies (leave_lobby "ROOM" "Alice" 7 after_three_players_voting)
      !! "ROOM" = Some l' ∧
    outbox (leave_lobby "ROOM" "Alice" 7 after_three_players_voting)
    = outbox after_three_players_voting
      ++ [to_room "ROOM" (lobby_updated l')].
Proof.
  split.
  - assert (lobbies after_lobby_of_two !! "ROOM" = Some lobby_after_lobby_of_two)
    as Hl by closed.
    destruct (host_departure "ROOM" _ _ 7 Hl) as [H _].
    apply H. closed.
  - assert (lobbies after_three_players_voting !! "ROOM" = Some lobby_after_three_players_voting)
    as Hl by closed.
    destruct (host_departure "ROOM" _ _ 7 Hl) as (_ & H & _).
    destruct H as (l' & H1 & _ & _ & _ & _ & H2); [closed..|].
    exists l'. split; [exact H1|exact H2].
Defined.

(** C2 as stated fails: the host disconnects during the voting phase; the
    lobby and its game state are still there, the host is only flagged as
    disconnected, and what is broadcast is lobby-updated. *)
Lemma host_disconnect_counterexample :
  ∃ r g l l',
    lobbies after_three_players_voting !! "ROOM" = Some l ∧
    host l = "Alice" ∧
    sockets after_three_players_voting !! "s1"
    = Some {| s_username := Some "Alice"; s_lobbyCode := Some "ROOM" |} ∧
    gameStates_get "ROOM" after_three_players_voting = Some (r, g) ∧
    phase g = voting ∧
    lobbies (disconnect "s1" 7 after_three_players_voting) !! "ROOM"
    = Some l' ∧
    find_participant "Alice" (participants l')
    = Some {| username := "Alice"; isHost := true; connected := false |} ∧
    gameStates_get "ROOM" (disconnect "s1" 7 after_three_players_voting)
    = Some (r, g) ∧
    last (outbox (disconnect "s1" 7 after_three_players_voting))
    = Some (to_room "ROOM" (lobby_updated l')) ∧
    to_room "ROOM" lobby_closed
    ∉ outbox (disconnect "s1" 7 after_three_players_voting).
Proof.
  eexists _, _, _, _.
  split; [closed|]. split; [closed|]. split; [closed|]. split; [closed|].
  split; [closed|]. split; [closed|]. split; [closed|]. split; [closed|].
  split; [closed|].
  vm_compute. intros H.
  repeat (apply elem_of_cons in H as [H|H]; [discriminate|]).
  by apply elem_of_nil in H.
Qed.

(** ** Casting votes *)

Lemma Object_keys_length {V} (m : gmap string V) :
  length (Object_keys m) = size m.
Proof. unfold Object_keys. by rewrite length_fmap, length_map_to_list. Qed.

Lemma all_voted_size ballots l :
  all_voted ballots l = true ↔
  (length (connectedPlayers (participants l)) ≤ size ballots)%nat.
Proof.
  unfold all_voted. rewrite Object_keys_length.
  by rewrite bool_decide_eq_true.
Qed.

(** What the fast path of [cast-vote] and [cast-revote] does once the
    ballots are [recorded]. *)
Lemma early_transition_after_store (c : string) (s : server) (r : loc)
    (g g1 : gameState) (l : lobby) (recorded : gmap string string)
    (t : task) :
  lobbies s !! c = Some l →
  timerInterval g1 = timerInterval g →
  let s' := if all_voted recorded l
            then setTimeout t 1000 (clear_timer g1 (store r g1 s))
            else store r g1 s in
  heap s' !! r = Some g1 ∧
  ((length (connectedPlayers (participants l)) ≤ size recorded)%nat →
   timeouts s' = timeouts s ++ [(1000, t)] ∧
   intervals s' = intervals (clear_timer g s)) ∧
  ((size recorded < length (connectedPlayers (participants l)))%nat →
   timeouts s' = timeouts s ∧ intervals s' = intervals s).
Proof.
  intros Hl Hti s'. unfold s'.
  destruct (all_voted recorded l) eqn:E.
  - apply all_voted_size in E.
    split.
    { unfold clear_timer. simpl.
      destruct (timerInterval g1); simpl; by rewrite lookup_insert_eq. }
    split; [|lia]. intros _. unfold clear_timer. rewrite Hti. simpl.
    by destruct (timerInterval g).
  - assert (¬ (length (connectedPlayers (participants l))
               ≤ size recorded)%nat) as Hlt.
    { intros H. apply all_voted_size in H. congruence. }
    simpl. split; [by rewrite lookup_insert_eq|].
    split; [intros; lia|done].
Qed.

(** C10.  A cast-vote received in the voting phase (a cast-revote in the
    revoting phase) assigns the supplied choice to the property of the
    ballot object that the supplied identity names, whatever the identity
    and whatever the choice: no premise relates the identity to the roster
    or the choice to agree/disagree/abstain.  For every identity other than
    [__proto__] the assignment records the choice under it, and a key that
    was not recorded before adds one to the number of keys, whether or not
    it names a member.  For the identity [__proto__] the assignment stores
    nothing and the ballots stay as they were.  The early transition is
    scheduled (after 1000 ms, the timer being cleared) exactly when the
    number of recorded keys reaches the number of connected participants. *)
Theorem ballots_are_recorded_by_assignment (c uname vote : string)
    (s : server) (r : loc) (g : gameState) (l : lobby) :
  gameStates_get c s = Some (r, g) →
  lobbies s !! c = Some l →
  (phase g = voting →
   ∃ s' recorded,
     cast_vote c uname vote s = Some s' ∧
     heap s' !! r = Some (set_votes recorded g) ∧
     recorded = js_set uname vote (votes g) ∧
     (uname ≠ "__proto__" → recorded = <[uname := vote]> (votes g)) ∧
     (uname ≠ "__proto__" → votes g !! uname = None →
      size recorded = S (size (votes g))) ∧
     (uname = "__proto__" → votes g !! uname = None →
      recorded = votes g) ∧
     ((length (connectedPlayers (participants l)) ≤ size recorded)%nat →
      timeouts s' = timeouts s ++ [(1000, call_processVoteResults c)] ∧
      intervals s' = intervals (clear_timer g s)) ∧
     ((size recorded < length (connectedPlayers (participants l)))%nat →
      timeouts s' = timeouts s ∧ intervals s' = intervals s)) ∧
  (phase g = revoting →
   ∃ s' recorded,
     cast_revote c uname vote s = Some s' ∧
     heap s' !! r = Some (set_revotes recorded g) ∧
     recorded = js_set uname vote (revotes g) ∧
     (uname ≠ "__proto__" → recorded = <[uname := vote]> (revotes g)) ∧
     (uname ≠ "__proto__" → revotes g !! uname = None →
      size recorded = S (size (revotes g))) ∧
     (uname = "__proto__" → revotes g !! uname = None →
      recorded = revotes g) ∧
     ((length (connectedPlayers (participants l)) ≤ size recorded)%nat →
      timeouts s' = timeouts s ++ [(1000, call_calculateResults c)] ∧
      intervals s' = intervals (clear_timer g s)) ∧
     ((size recorded < length (connectedPlayers (participants l)))%nat →
      timeouts s' = timeouts s ∧ intervals s' = intervals s)).
Proof.
  intros Hg Hl. split.
  - intros Hph. unfold cast_vote. rewrite Hg, decide_True by done.
    simpl. rewrite Hl. simpl.
    destruct (early_transition_after_store c s r g
                (set_votes (js_set uname vote (votes g)) g) l
                (js_set uname vote (votes g))
                (call_processVoteResults c) Hl eq_refl)
      as (H1 & H2 & H3).
    match type of H1 with
    | heap ?s1 !! _ = _ => exists s1
    end.
    eexists. split; [by destruct (all_voted _ l)|].
    split; [exact H1|]. split; [reflexivity|].
    split; [intros; by apply js_set_plain|].
    split.
    { intros Hne Hnone. rewrite js_set_plain by done.
      by apply map_size_insert_None. }
    split; [intros -> Hnone; by apply js_set_proto|].
    split; [exact H2|exact H3].
  - intros Hph. unfold cast_revote. rewrite Hg, decide_True by done.
    simpl. rewrite Hl. simpl.
    destruct (early_transition_after_store c s r g
                (set_revotes (js_set uname vote (revotes g)) g) l
                (js_set uname vote (revotes g))
                (call_calculateResults c) Hl eq_refl)
      as (H1 & H2 & H3).
    match type of H1 with
    | heap ?s1 !! _ = _ => exists s1
    end.
    eexists. split; [by destruct (all_voted _ l)|].
    split; [exact H1|]. split; [reflexivity|].
    split; [intros; by apply js_set_plain|].
    split.
    { intros Hne Hnone. rewrite js_set_plain by done.
      by apply map_size_insert_None. }
    split; [intros -> Hnone; by apply js_set_proto|].
    split; [exact H2|exact H3].
Qed.

(** With Alice's and Bob's votes recorded and three participants
    connected, a cast-vote under the identity
    [__proto__] leaves the ballots as they were and schedules nothing;
    the vote "maybe" of the non-member Mallory is recorded, is the third
    key, and schedules the early transition. *)
Lemma ballots_are_recorded_by_assignment_witness :
  ∃ s1 g1 s2 g2,
    cast_vote "ROOM" "__proto__" "agree" after_two_votes = Some s1 ∧
    heap s1 !! 0%nat = Some g1 ∧
    votes g1 = votes game_after_two_votes ∧
    votes g1 !! "__proto__" = None ∧
    size (votes g1) = 2%nat ∧
    timeouts s1 = [] ∧
    cast_vote "ROOM" "Mallory" "maybe" after_two_votes = Some s2 ∧
    heap s2 !! 0%nat = Some g2 ∧
    votes g2 !! "Mallory" = Some "maybe" ∧
    size (votes g2) = 3%nat ∧
    timeouts s2 = [(1000, call_processVoteResults "ROOM")].
Proof.
  assert (gameStates_get "ROOM" after_two_votes
          = Some (0%nat, game_after_two_votes)) as Hg by closed.
  assert (lobbies after_two_votes !! "ROOM" = Some lobby_after_two_votes)
    as Hl by closed.
  assert (phase game_after_two_votes = voting) as Hph by closed.
  assert (votes game_after_two_votes !! "__proto__" = None) as Hp
    by closed.
  assert (votes game_after_two_votes !! "Mallory" = None) as Hm by closed.
  assert (size (votes game_after_two_votes) = 2%nat) as Hsz by closed.
  assert (length (connectedPlayers (participants lobby_after_two_votes))
          = 3%nat) as Hn by closed.
  assert (timeouts after_two_votes = []) as Ht by closed.
  destruct (ballots_are_recorded_by_assignment "ROOM" "__proto__" "agree"
              _ _ _ _ Hg Hl) as [H _].
  destruct (H Hph) as (s1 & b1 & A1 & A2 & _ & _ & _ & A3 & _ & A4).
  clear H.
  destruct (ballots_are_recorded_by_assignment "ROOM" "Mallory" "maybe"
              _ _ _ _ Hg Hl) as [H _].
  destruct (H Hph) as (s2 & b2 & B1 & B2 & _ & B3 & B4 & _ & B5 & _).
  clear H.
  specialize (A3 eq_refl Hp). subst b1.
  assert ("Mallory" ≠ "__proto__") as Hne by closed.
  specialize (B3 Hne). specialize (B4 Hne Hm).
  exists s1, (set_votes (votes game_after_two_votes) game_after_two_votes),
    s2, (set_votes b2 game_after_two_votes).
  split; [exact A1|]. split; [exact A2|].
  split; [reflexivity|]. split; [exact Hp|]. split; [exact Hsz|].
  split.
  { destruct A4 as [A4 _]; [rewrite Hsz, Hn; lia|]. by rewrite A4. }
  split; [exact B1|]. split; [exact B2|].
  split; [simpl; rewrite B3; apply lookup_insert_eq|].
  split; [simpl; rewrite B4, Hsz; reflexivity|].
  destruct B5 as [B5 _]; [rewrite B4, Hsz, Hn; lia|].
  rewrite B5, Ht. reflexivity.
Defined.

(** ** The solo phase *)

Lemma gameStates_get_store c s r (g' : gameState) :
  gameStates s !! c = Some r →
  gameStates_get c (store r g' s) = Some (r, g').
Proof.
  intros Hr. unfold gameStates_get. simpl. rewrite Hr. simpl.
  by rewrite lookup_insert_eq.
Qed.

Lemma heap_clear_timer g s : heap (clear_timer g s) = heap s.
Proof. unfold clear_timer. by destruct (timerInterval g). Qed.

Lemma gameStates_clear_timer g s : gameStates (clear_timer g s) = gameStates s.
Proof. unfold clear_timer. by destruct (timerInterval g). Qed.

Lemma outbox_clear_timer g s : outbox (clear_timer g s) = outbox s.
Proof. unfold clear_timer. by destruct (timerInterval g). Qed.

Lemma timeouts_clear_timer g s : timeouts (clear_timer g s) = timeouts s.
Proof. unfold clear_timer. by destruct (timerInterval g). Qed.

Lemma next_interval_clear_timer g s :
  next_interval (clear_timer g s) = next_interval s.
Proof. unfold clear_timer. by destruct (timerInterval g). Qed.

Lemma lobbies_clear_timer g s : lobbies (clear_timer g s) = lobbies s.
Proof. unfold clear_timer. by destruct (timerInterval g). Qed.

(** What [startTimer] leaves behind. *)
Lemma startTimer_state c n cb s r g :
  gameStates_get c s = Some (r, g) →
  heap (startTimer c n cb s)
  = <[r := set_timerInterval (Some (next_interval s)) (set_timer n g)]>
      (heap s) ∧
  intervals (startTimer c n cb s)
  = <[next_interval s :=
        {| iv_state := r; iv_code := c; iv_callback := cb |}]>
      (intervals (clear_timer g s)) ∧
  next_interval (startTimer c n cb s) = S (next_interval s) ∧
  gameStates (startTimer c n cb s) = gameStates s ∧
  lobbies (startTimer c n cb s) = lobbies s ∧
  outbox (startTimer c n cb s) = outbox s ∧
  timeouts (startTimer c n cb s) = timeouts s.
Proof.
  intros Hg. unfold startTimer. rewrite Hg. simpl.
  rewrite !next_interval_clear_timer, !heap_clear_timer,
    !gameStates_clear_timer, !lobbies_clear_timer, !outbox_clear_timer,
    !timeouts_clear_timer.
  simpl. rewrite insert_insert_eq.
  repeat split. unfold clear_timer. simpl. by destruct (timerInterval g).
Qed.

Lemma random_index_lt rnd n :
  random_ok rnd → (0 < n)%nat → (random_index rnd n < n)%nat.
Proof.
  unfold random_ok, random_index. intros Hr Hn.
  apply Nat.Div0.div_lt_upper_bound. nia.
Qed.

(** What [startSoloPhase] does: with no speaker to choose from it goes on to
    the discussion phase; otherwise the speaker is the entry of [speakers]
    that the random number selects, and the position that is emitted is the
    speaker's recorded vote, or abstain. *)
Lemma startSoloPhase_state rnd c s r g l :
  gameStates_get c s = Some (r, g) →
  lobbies s !! c = Some l →
  random_ok rnd →
  (speakers l g = [] →
   phase <$> heap (startSoloPhase rnd c s) !! r = Some discussion) ∧
  (speakers l g ≠ [] →
   ∃ u g',
     speakers l g !! random_index rnd (length (speakers l g)) = Some u ∧
     heap (startSoloPhase rnd c s) !! r = Some g' ∧
     phase g' = solo ∧
     currentSpeaker g' = Some u ∧
     speakerPosition g' = Some (or_abstain (js_get (votes g) u)) ∧
     outbox (startSoloPhase rnd c s)
     = outbox s ++ [to_room c (game_phase_update solo None (Some u));
                    to_room c (speaker_selected u
                                 (or_abstain (js_get (votes g) u)))]).
Proof.
  intros Hg Hl Hrnd.
  apply gameStates_get_Some in Hg as Hg'. destruct Hg' as [Hr Hh].
  unfold startSoloPhase. rewrite Hg, Hl.
  change (speakers l (set_timer 60 (set_phase solo g))) with (speakers l g).
  split.
  - intros Hnil. rewrite Hnil. simpl.
    unfold startDiscussionPhase.
    erewrite gameStates_get_store by done.
    match goal with
    | |- context [startTimer c 180 ?cb ?s0] =>
        destruct (startTimer_state c 180 cb s0 r
                    (set_timer 180 (set_phase discussion
                       (if decide (length (availableSpeakers l
                                     (set_timer 60 (set_phase solo g)))
                                   = 0%nat)
                        then set_usedSpeakers []
                               (set_timer 60 (set_phase solo g))
                        else set_timer 60 (set_phase solo g)))))
          as (-> & _)
    end.
    { unfold gameStates_get. simpl. rewrite Hr. simpl.
      by rewrite lookup_insert_eq. }
    by rewrite lookup_insert_eq.
  - intros Hne.
    destruct (speakers l g) as [|u0 sp] eqn:Esp; [done|].
    rewrite decide_False by done.
    assert (random_index rnd (length (u0 :: sp)) < length (u0 :: sp))%nat
      as Hlt by (apply random_index_lt; [done|simpl; lia]).
    destruct (lookup_lt_is_Some_2 _ _ Hlt) as [u Hu].
    rewrite Hu. exists u. eexists. split; [done|].
    match goal with
    | |- context [startTimer c 60 ?cb ?s0] =>
        match s0 with
        | context [store r ?g3 s] =>
            destruct (startTimer_state c 60 cb s0 r g3)
              as (-> & _ & _ & _ & _ & -> & _)
        end
    end.
    { unfold gameStates_get. simpl. rewrite Hr. simpl.
      by rewrite lookup_insert_eq. }
    rewrite lookup_insert_eq. split; [reflexivity|]. simpl.
    case_decide; simpl; by rewrite <- app_assoc.
Qed.

(** ** After the initial tally *)

Lemma delete_snoc {A} (l : list A) (x : A) : delete (length l) (l ++ [x]) = l.
Proof.
  induction l as [|y l IH]; [done|]. simpl. f_equal. apply IH.
Qed.

Lemma step_timeout s k rnd ms t ts :
  timeouts s = ts ++ [(ms, t)] →
  k = length ts →
  step (on_timeout k rnd) s = Some (run_task rnd t (set_timeouts ts s), None).
Proof.
  intros Hts ->. unfold step. rewrite Hts.
  rewrite list_lookup_middle by done. by rewrite delete_snoc.
Qed.

(** X24.  What a call of [processVoteResults] leads to when its own
    callbacks are the next ones to run.  It always emits the vote results.
    When the tally it computes has no agree vote or no disagree vote, the
    phase becomes round-skipped and the only callback scheduled (after
    3000 ms) emits the round-skipped notice and schedules (after 5000 ms)
    [showScoreboard], which sets the phase to scoreboard: no interval is
    armed on the way.  Otherwise the phase becomes vote-results and
    [startSoloPhase] is scheduled after 5000 ms, which sets the phase to
    solo when there is a speaker to choose and to discussion when there is
    none. *)
Theorem processVoteResults_skips_or_goes_solo (c : string) (s : server)
    (r : loc) (g : gameState) (l : lobby) (rnd : random) :
  gameStates_get c s = Some (r, g) →
  lobbies s !! c = Some l →
  let t := countVotes (participants l) (votes g) in
  let k := length (timeouts s) in
  let s1 := processVoteResults c s in
  outbox s1
  = outbox s ++ [to_room c (game_phase_update vote_results_phase None None);
                 to_room c (vote_results t)] ∧
  intervals s1 = intervals s ∧
  (agree t = 0 ∨ disagree t = 0 →
   phase <$> heap s1 !! r = Some round_skipped_phase ∧
   timeouts s1 = timeouts s ++ [(3000, call_skipNotice c t)] ∧
   ∃ s2 s3,
     step (on_timeout k rnd) s1 = Some (s2, None) ∧
     outbox s2
     = outbox s1
       ++ [to_room c (game_phase_update round_skipped_phase None None);
           to_room c (round_skipped skip_message t)] ∧
     heap s2 = heap s1 ∧
     intervals s2 = intervals s ∧
     timeouts s2 = timeouts s ++ [(5000, call_showScoreboard c)] ∧
     step (on_timeout k rnd) s2 = Some (s3, None) ∧
     outbox s3
     = outbox s2 ++ [to_room c (game_phase_update scoreboard None None);
                     to_room c (scoreboard_update (scores g))] ∧
     phase <$> heap s3 !! r = Some scoreboard ∧
     intervals s3 = intervals s ∧
     timeouts s3 = timeouts s ++ [(5000, call_nextRound r c)]) ∧
  (¬ (agree t = 0 ∨ disagree t = 0) →
   phase <$> heap s1 !! r = Some vote_results_phase ∧
   timeouts s1 = timeouts s ++ [(5000, call_startSoloPhase c)] ∧
   ∃ s2,
     step (on_timeout k rnd) s1 = Some (s2, None) ∧
     s2 = startSoloPhase rnd c (set_timeouts (timeouts s) s1) ∧
     (random_ok rnd →
      phase <$> heap s2 !! r
      = Some (if decide (speakers l g = []) then discussion else solo))).
Proof.
  intros Hg Hl t k s1.
  apply gameStates_get_Some in Hg as Hg'. destruct Hg' as [Hr Hh].
  assert (s1 = processVoteResults c s) as Hs1 by done.
  unfold processVoteResults in Hs1. rewrite Hg, Hl in Hs1. fold t in Hs1.
  destruct (decide (agree t = 0 ∨ disagree t = 0)) as [Hskip|Hno].
  - split; [rewrite Hs1; simpl; by rewrite <- app_assoc|].
    split; [by rewrite Hs1|].
    split; [|done]. intros _.
    split; [rewrite Hs1; simpl; by rewrite lookup_insert_eq|].
    split; [by rewrite Hs1|].
    eexists _, _.
    split; [apply (step_timeout _ _ _ 3000 (call_skipNotice c t) (timeouts s));
            [by rewrite Hs1|done]|].
    split; [simpl; by rewrite <- !app_assoc|].
    split; [done|]. split; [by rewrite Hs1|]. split; [done|].
    split; [apply (step_timeout _ _ _ 5000 (call_showScoreboard c)
                     (timeouts s)); done|].
    simpl. unfold showScoreboard, gameStates_get. rewrite Hs1. simpl.
    rewrite Hr. simpl. rewrite lookup_insert_eq. simpl.
    rewrite lookup_insert_eq.
    split; [by rewrite <- !app_assoc|]. done.
  - split; [rewrite Hs1; simpl; by rewrite <- app_assoc|].
    split; [by rewrite Hs1|].
    split; [done|]. intros _.
    split; [rewrite Hs1; simpl; by rewrite lookup_insert_eq|].
    split; [by rewrite Hs1|].
    eexists.
    split; [apply (step_timeout _ _ _ 5000 (call_startSoloPhase c)
                     (timeouts s)); [by rewrite Hs1|done]|].
    split; [done|]. intros Hrnd. simpl.
    destruct (startSoloPhase_state rnd c (set_timeouts (timeouts s) s1) r
                (set_phase vote_results_phase (set_initialVoteResults t g))
                l) as [Hnone Hsome]; [| |done|].
    + rewrite Hs1. unfold gameStates_get. simpl. rewrite Hr. simpl.
      by rewrite lookup_insert_eq.
    + by rewrite Hs1.
    + change (speakers l
                (set_phase vote_results_phase (set_initialVoteResults t g)))
        with (speakers l g) in Hnone, Hsome.
      case_decide as Hsp.
      * by apply Hnone.
      * destruct (Hsome Hsp) as (u & g' & _ & -> & Hph & _).
        simpl. by rewrite Hph.
Qed.

(** With the votes of Alice and Bob both agree the round is skipped and
    ends at the scoreboard; with Alice agree and Bob disagree the round
    goes on to the solo phase. *)
Lemma processVoteResults_skips_or_goes_solo_witness :
  ∃ s1 s2 s3 t1 t2,
    s1 = processVoteResults "ROOM" after_two_agree ∧
    step (on_timeout 0 first) s1 = Some (s2, None) ∧
    step (on_timeout 0 first) s2 = Some (s3, None) ∧
    phase <$> heap s1 !! 0%nat = Some round_skipped_phase ∧
    heap s2 = heap s1 ∧
    phase <$> heap s3 !! 0%nat = Some scoreboard ∧
    t1 = processVoteResults "ROOM" after_two_votes ∧
    phase <$> heap t1 !! 0%nat = Some vote_results_phase ∧
    step (on_timeout 0 first) t1 = Some (t2, None) ∧
    speakers lobby_after_two_votes game_after_two_votes ≠ [] ∧
    phase <$> heap t2 !! 0%nat = Some solo.
Proof.
  assert (gameStates_get "ROOM" after_two_agree
          = Some (0%nat, game_after_two_agree)) as Hg by closed.
  assert (lobbies after_two_agree !! "ROOM" = Some lobby_after_two_agree)
    as Hl by closed.
  assert (gameStates_get "ROOM" after_two_votes
          = Some (0%nat, game_after_two_votes)) as Hg' by closed.
  assert (lobbies after_two_votes !! "ROOM" = Some lobby_after_two_votes)
    as Hl' by closed.
  assert (speakers lobby_after_two_votes game_after_two_votes ≠ [])
    as Hsp by (vm_compute; discriminate).
  assert (random_ok first) as Hrnd by (vm_compute; lia).
  pose proof (processVoteResults_skips_or_goes_solo "ROOM" _ _ _ _ first
                Hg Hl) as H.
  pose proof (processVoteResults_skips_or_goes_solo "ROOM" _ _ _ _ first
                Hg' Hl') as H'.
  cbv zeta in H, H'.
  destruct H as (_ & _ & H & _).
  destruct H as (H1 & _ & s2 & s3 & H2 & _ & H3 & _ & _ & H4 & _ & H5 & _);
    [right; closed|].
  destruct H' as (_ & _ & _ & H').
  destruct H' as (H6 & _ & t2 & H7 & _ & H8);
    [intros [?|?]; discriminate|].
  specialize (H8 Hrnd). rewrite decide_False in H8 by exact Hsp.
  eexists _, s2, s3, _, t2. split; [reflexivity|].
  split; [exact H2|]. split; [exact H4|]. split; [exact H1|].
  split; [exact H3|]. split; [exact H5|]. split; [reflexivity|].
  split; [exact H6|]. split; [exact H7|]. split; [exact Hsp|exact H8].
Defined.

(** C6.  A round that was skipped enters the solo phase.  Carol votes
    disagree and disconnects; Alice's vote makes two recorded keys for two
    connected participants and schedules [processVoteResults]; Bob's vote,
    while the phase is still voting, schedules it a second time.  The first
    call tallies agree 2, disagree 0: the phase is round-skipped and the
    skip notice is scheduled.  Carol reconnects; the second call tallies
    agree 2, disagree 1 and schedules [startSoloPhase].  The skip notice of
    round 1 goes out, and round 1 then enters the solo phase with a speaker
    and a running timer, while the [showScoreboard] of the skip is still
    pending. *)
Theorem skipped_round_enters_solo_after_a_second_tally :
  ∃ g1 g2 skipped,
    run double_tally_first (init topics)
    = Some (after_double_tally_first, []) ∧
    gameStates_get "ROOM" after_double_tally_first = Some (0%nat, g1) ∧
    roundNumber g1 = 1 ∧
    phase g1 = round_skipped_phase ∧
    skipped = {| agree := 2; disagree := 0; abstain := 0; others := ∅ |} ∧
    initialVoteResults g1 = skipped ∧
    timeouts after_double_tally_first
    = [ (1000, call_processVoteResults "ROOM");
        (3000, call_skipNotice "ROOM" skipped) ] ∧
    run double_tally_second after_double_tally_first
    = Some (after_double_tally, []) ∧
    outbox after_double_tally !! 14%nat
    = Some (to_room "ROOM" (round_skipped skip_message skipped)) ∧
    gameStates_get "ROOM" after_double_tally = Some (0%nat, g2) ∧
    roundNumber g2 = 1 ∧
    phase g2 = solo ∧
    is_Some (currentSpeaker g2) ∧
    (∃ i, timerInterval g2 = Some i ∧
          iv_callback <$> intervals after_double_tally !! i
          = Some (call_startDiscussionPhase "ROOM")) ∧
    timeouts after_double_tally = [ (5000, call_showScoreboard "ROOM") ].
Proof.
  exists game_after_double_tally_first, game_after_double_tally.
  eexists.
  split; [vm_compute; reflexivity|].
  split; [vm_compute; reflexivity|].
  split; [vm_compute; reflexivity|].
  split; [vm_compute; reflexivity|].
  split; [reflexivity|].
  split; [vm_compute; reflexivity|].
  split; [vm_compute; reflexivity|].
  split; [vm_compute; reflexivity|].
  split; [vm_compute; reflexivity|].
  split; [vm_compute; reflexivity|].
  split; [vm_compute; reflexivity|].
  split; [vm_compute; reflexivity|].
  split; [vm_compute; by eexists|].
  split; [exists 1%nat; split; vm_compute; reflexivity|].
  vm_compute; reflexivity.
Qed.

(** ** Where the code departs from its comments *)

(** C4 fails on the code.  Carol votes and disconnects, then Alice votes:
    two keys are recorded and two participants are connected, so the timer
    is cleared and [processVoteResults] is scheduled after 1000 ms, although
    Bob is connected and has not voted. *)
Lemma early_transition_counts_keys_not_voters :
  ∃ s r g l,
    run voter_disconnects (init topics) = Some (s, []) ∧
    gameStates_get "ROOM" s = Some (r, g) ∧
    lobbies s !! "ROOM" = Some l ∧
    phase g = voting ∧
    connectedPlayers (participants l)
    = [ {| username := "Alice"; isHost := true; connected := true |};
        {| username := "Bob"; isHost := false; connected := true |} ] ∧
    votes g !! "Bob" = None ∧
    dom (votes g) = {[ "Alice"; "Carol" ]} ∧
    intervals s = ∅ ∧
    timeouts s = [(1000, call_processVoteResults "ROOM")].
Proof.
  eexists _, _, _, _.
  split; [closed|]. split; [closed|]. split; [closed|].
  repeat split; closed.
Qed.

(** C8 fails on the code.  The game started with Alice and Bob; Carol joined
    afterwards and the join gave her a score, so she is among the keys of
    [scores] that [startSoloPhase] takes for the participants present at
    game start.  With Alice and Bob disconnected she is the one speaker to
    choose from, whatever the random number, instead of the phase being
    skipped. *)
Theorem late_joiner_is_chosen_as_speaker (rnd : random) :
  random_ok rnd →
  ∃ l0 g0 s2 g2,
    outbox after_late_joiner !! 2%nat
    = Some (to_room "ROOM" (game_started l0 g0)) ∧
    usernames l0 = ["Alice"; "Bob"] ∧
    dom (scores g0) = {[ "Alice"; "Bob" ]} ∧
    step (on_timeout 1 rnd) after_late_joiner = Some (s2, None) ∧
    heap s2 !! 0%nat = Some g2 ∧
    phase g2 = solo ∧
    currentSpeaker g2 = Some "Carol".
Proof.
  intros Hrnd.
  assert (timeouts after_late_joiner
          = [(1000, call_sync "s3" "ROOM"); (5000, call_startSoloPhase "ROOM")])
    as Hts by closed.
  assert (gameStates_get "ROOM"
            (set_timeouts [(1000, call_sync "s3" "ROOM")] after_late_joiner)
          = Some (0%nat, game_after_late_joiner)) as Hg by closed.
  assert (lobbies
            (set_timeouts [(1000, call_sync "s3" "ROOM")] after_late_joiner)
            !! "ROOM" = Some lobby_after_late_joiner) as Hl by closed.
  destruct (startSoloPhase_state rnd "ROOM" _ _ _ _ Hg Hl Hrnd) as [_ H].
  destruct H as (u & g' & Hu & Hh & Hph & Hsp & _).
  { intros H. vm_compute in H. discriminate. }
  assert (u = "Carol") as ->.
  { apply list_elem_of_lookup_2 in Hu.
    apply (list_elem_of_singleton u "Carol").
    match type of Hu with
    | _ ∈ ?sp => assert (sp = ["Carol"]) as <- by closed
    end.
    exact Hu. }
  eexists _, _, _, g'.
  split; [closed|]. split; [closed|]. split; [closed|].
  split; [unfold step; rewrite Hts; reflexivity|].
  split; [exact Hh|]. split; [exact Hph|exact Hsp].
Qed.

Lemma late_joiner_is_chosen_as_speaker_witness :
  ∃ s2 g2,
    step (on_timeout 1 first) after_late_joiner = Some (s2, None) ∧
    heap s2 !! 0%nat = Some g2 ∧
    currentSpeaker g2 = Some "Carol".
Proof.
  destruct (late_joiner_is_chosen_as_speaker first)
    as (l0 & g0 & s2 & g2 & _ & _ & _ & H1 & H2 & _ & H3).
  { vm_compute. lia. }
  exists s2, g2. split; [exact H1|]. split; [exact H2|exact H3].
Defined.

(** ** Timers *)

Lemma evolves_refl s : evolves s s.
Proof. unfold evolves. auto. Qed.

Lemma evolves_trans s1 s2 s3 : evolves s1 s2 → evolves s2 s3 → evolves s1 s3.
Proof.
  intros (Ha & Hb & Hc) (Ha' & Hb' & Hc'). split; [auto|]. split; [lia|].
  intros i Hi Hnone. apply Hc'; [lia|]. by apply Hc.
Qed.

Lemma evolves_same_view s s' :
  heap s' = heap s →
  intervals s' = intervals s →
  next_interval s' = next_interval s →
  evolves s s'.
Proof.
  intros Hh Hi Hn. unfold evolves, timers_ok. rewrite Hh, Hi, Hn. auto.
Qed.

Lemma evolves_store s r g g' :
  heap s !! r = Some g →
  timerInterval g' = timerInterval g →
  evolves s (store r g' s).
Proof.
  intros Hr Hti. split; [|split; [done|done]].
  intros Hok i iv Hi. simpl in Hi |- *.
  destruct (Hok i iv Hi) as [Hlt (g0 & Hg0 & Ht)].
  split; [done|]. destruct (decide (iv_state iv = r)) as [Heq|Hne].
  - exists g'. rewrite Heq in Hg0 |- *. rewrite lookup_insert_eq.
    split; [done|]. rewrite Hr in Hg0. injection Hg0 as <-. by rewrite Hti.
  - exists g0. by rewrite lookup_insert_ne.
Qed.

Lemma evolves_store_fresh s r g' :
  heap s !! r = None → evolves s (store r g' s).
Proof.
  intros Hr. split; [|split; [done|done]].
  intros Hok i iv Hi. simpl in Hi |- *.
  destruct (Hok i iv Hi) as [Hlt (g0 & Hg0 & Ht)].
  split; [done|]. exists g0. rewrite lookup_insert_ne; [done|].
  intros Heq. rewrite Heq in Hr. congruence.
Qed.

Lemma evolves_clearInterval s i : evolves s (clearInterval i s).
Proof.
  split; [|split; [done|]].
  - intros Hok j iv Hj. simpl in *.
    apply lookup_delete_Some in Hj as [_ Hj]. by apply Hok.
  - intros j _ Hj. simpl. rewrite lookup_delete_None. by right.
Qed.

Lemma evolves_clear_timer s g : evolves s (clear_timer g s).
Proof.
  unfold clear_timer. destruct (timerInterval g);
    [apply evolves_clearInterval|apply evolves_refl].
Qed.

Lemma intervals_clear_timer_Some g s i iv :
  intervals (clear_timer g s) !! i = Some iv →
  intervals s !! i = Some iv ∧ timerInterval g ≠ Some i.
Proof.
  unfold clear_timer. destruct (timerInterval g) as [j|]; simpl; [|done].
  intros [Hne H]%lookup_delete_Some. split; [done|]. congruence.
Qed.

Lemma intervals_clear_timer_None g s i :
  intervals s !! i = None → intervals (clear_timer g s) !! i = None.
Proof.
  unfold clear_timer. destruct (timerInterval g) as [j|]; simpl; [|done].
  intros H. rewrite lookup_delete_None. by right.
Qed.

Lemma evolves_startTimer c n cb s : evolves s (startTimer c n cb s).
Proof.
  destruct (gameStates_get c s) as [[r g]|] eqn:Hg.
  2: { unfold startTimer. rewrite Hg. apply evolves_refl. }
  destruct (startTimer_state c n cb s r g Hg) as (Hh & Hi & Hn & _).
  apply gameStates_get_Some in Hg as [_ Hr].
  split; [|split; [lia|]].
  - intros Hok i iv Hiv. rewrite Hh, Hn. rewrite Hi in Hiv.
    destruct (decide (i = next_interval s)) as [->|Hne].
    + rewrite lookup_insert_eq in Hiv. injection Hiv as <-. simpl.
      split; [lia|]. eexists. by rewrite lookup_insert_eq.
    + rewrite lookup_insert_ne in Hiv by done.
      apply intervals_clear_timer_Some in Hiv as [Hiv Hold].
      destruct (Hok i iv Hiv) as [Hlt (g0 & Hg0 & Ht)].
      split; [lia|]. exists g0. rewrite lookup_insert_ne; [done|].
      intros Heq. rewrite <- Heq in Hg0. rewrite Hr in Hg0.
      injection Hg0 as <-. congruence.
  - intros i Hlt Hnone. rewrite Hi.
    rewrite lookup_insert_ne by lia. by apply intervals_clear_timer_None.
Qed.

(** An interval that is not active does not fire. *)
Lemma tick_body_cleared i s :
  intervals s !! i = None → tick_body i s = (s, None).
Proof. intros H. unfold tick_body. by rewrite H. Qed.

Lemma evolves_tick_body i s : evolves s (tick_body i s).1.
Proof.
  unfold tick_body.
  destruct (intervals s !! i) as [iv|] eqn:Hiv; [|apply evolves_refl].
  destruct (heap s !! iv_state iv) as [g|] eqn:Hg; [|apply evolves_refl].
  case_decide; simpl.
  - split; [|split].
    + intros Hok j jv Hj. simpl in Hj |- *.
      rewrite next_interval_clear_timer, heap_clear_timer. simpl.
      apply intervals_clear_timer_Some in Hj as [Hj Hne]. simpl in Hj, Hne.
      destruct (Hok j jv Hj) as [Hlt (g0 & Hg0 & Ht)].
      split; [done|]. exists g0. rewrite !lookup_insert_ne; [done|..];
        intros Heq; rewrite Heq in Hg; rewrite Hg in Hg0;
        injection Hg0 as <-; simpl in Hne; congruence.
    + simpl. by rewrite next_interval_clear_timer.
    + intros j Hlt Hj. simpl. by apply intervals_clear_timer_None.
  - apply (evolves_trans _ (store (iv_state iv) (set_timer (timer g - 1) g) s));
      [by eapply evolves_store|by apply evolves_same_view].
Qed.

(** When the timer expires, the interval that fired is cleared. *)
Lemma tick_body_expired i s cb :
  timers_ok s →
  (tick_body i s).2 = Some cb →
  ∃ iv g,
    intervals s !! i = Some iv ∧
    iv_callback iv = cb ∧
    heap s !! iv_state iv = Some g ∧
    timer g - 1 ≤ 0 ∧
    last (outbox (tick_body i s).1)
    = Some (to_room (iv_code iv) (game_timer (timer g - 1))) ∧
    intervals (tick_body i s).1 !! i = None ∧
    (i < next_interval (tick_body i s).1)%nat.
Proof.
  intros Hok. unfold tick_body.
  destruct (intervals s !! i) as [iv|] eqn:Hiv; [|done].
  destruct (Hok i iv Hiv) as [Hlt (g & Hg & Ht)]. rewrite Hg.
  case_decide as Hexp; simpl; [|done]. intros [= <-].
  exists iv, g. split; [done|]. split; [done|]. split; [done|].
  simpl in Hexp. split; [done|].
  unfold clear_timer. simpl. rewrite Ht. simpl.
  rewrite last_snoc, lookup_delete_eq. done.
Qed.

Ltac heap_at :=
  first [ eassumption
        | rewrite ?heap_clear_timer; simpl; rewrite ?heap_clear_timer;
          rewrite ?lookup_insert_eq; first [eassumption | reflexivity] ].

(** Peeling the outermost runtime primitive off the later state. *)
Ltac peel_with rec :=
  lazymatch goal with
  | |- evolves ?s ?s => apply evolves_refl
  | |- evolves ?s (emit _ _ ?t) =>
      apply (evolves_trans s t); [rec | by apply evolves_same_view]
  | |- evolves ?s (emit_socket _ _ ?t) =>
      apply (evolves_trans s t); [rec | by apply evolves_same_view]
  | |- evolves ?s (setTimeout _ _ ?t) =>
      apply (evolves_trans s t); [rec | by apply evolves_same_view]
  | |- evolves ?s (set_lobbies _ ?t) =>
      apply (evolves_trans s t); [rec | by apply evolves_same_view]
  | |- evolves ?s (set_gameStates _ ?t) =>
      apply (evolves_trans s t); [rec | by apply evolves_same_view]
  | |- evolves ?s (set_disconnectedPlayers _ ?t) =>
      apply (evolves_trans s t); [rec | by apply evolves_same_view]
  | |- evolves ?s (set_sockets _ ?t) =>
      apply (evolves_trans s t); [rec | by apply evolves_same_view]
  | |- evolves ?s (set_timeouts _ ?t) =>
      apply (evolves_trans s t); [rec | by apply evolves_same_view]
  | |- evolves ?s (clear_timer _ ?t) =>
      apply (evolves_trans s t); [rec | apply evolves_clear_timer]
  | |- evolves ?s (startTimer _ _ _ ?t) =>
      apply (evolves_trans s t); [rec | apply evolves_startTimer]
  | |- evolves ?s (store ?r ?g ?t) =>
      apply (evolves_trans s t);
      [rec | eapply evolves_store; [heap_at | reflexivity]]
  end.

Ltac peel := idtac; peel_with ltac:(idtac; peel).

Ltac with_game c s :=
  let r := fresh "r" in
  let g := fresh "g" in
  let Hg := fresh "Hg" in
  let Hr := fresh "Hr" in
  let Hh := fresh "Hh" in
  destruct (gameStates_get c s) as [[r g]|] eqn:Hg;
  [apply gameStates_get_Some in Hg as [Hr Hh]|].

Lemma evolves_endGame c s : evolves s (endGame c s).
Proof. unfold endGame. with_game c s; peel. Qed.

Lemma evolves_startRevotingPhase c s : evolves s (startRevotingPhase c s).
Proof. unfold startRevotingPhase. with_game c s; peel. Qed.

Lemma evolves_startDiscussionPhase c s : evolves s (startDiscussionPhase c s).
Proof. unfold startDiscussionPhase. with_game c s; peel. Qed.

Lemma evolves_startSoloPhase rnd c s : evolves s (startSoloPhase rnd c s).
Proof.
  unfold startSoloPhase. with_game c s; [|peel].
  destruct (lobbies s !! c) as [l|]; [|peel].
  repeat case_decide; repeat case_match;
    try (eapply evolves_trans; [|apply evolves_startDiscussionPhase]); peel.
Qed.

Lemma evolves_showScoreboard c s : evolves s (showScoreboard c s).
Proof. unfold showScoreboard. with_game c s; peel. Qed.

Lemma evolves_skipNotice c t s : evolves s (skipNotice c t s).
Proof. unfold skipNotice. peel. Qed.

Lemma evolves_processVoteResults c s : evolves s (processVoteResults c s).
Proof.
  unfold processVoteResults. with_game c s; [|peel].
  destruct (lobbies s !! c) as [l|]; [|peel]. case_decide; peel.
Qed.

Lemma evolves_startVotingPhase rnd c s : evolves s (startVotingPhase rnd c s).
Proof.
  unfold startVotingPhase. with_game c s; [|peel].
  destruct (lobbies s !! c) as [l|]; [|peel].
  case_decide; [apply evolves_endGame|]. case_match; peel.
Qed.

Lemma evolves_calculateResults c s : evolves s (calculateResults c s).
Proof.
  unfold calculateResults. with_game c s; [|peel].
  destruct (lobbies s !! c) as [l|]; [|peel].
  destruct (winner _ _) as [team pts]. peel.
Qed.

Lemma evolves_nextRound r c s : evolves s (nextRound r c s).
Proof.
  unfold nextRound. destruct (heap s !! r) as [g|] eqn:Hh; [|peel].
  case_decide; [eapply evolves_trans; [|apply evolves_endGame]|]; peel.
Qed.

Lemma evolves_syncGameStateToPlayer id c s :
  evolves s (syncGameStateToPlayer id c s).
Proof.
  unfold syncGameStateToPlayer. with_game c s; [|peel].
  destruct (lobbies s !! c) as [l|]; [|peel]. case_match; peel.
Qed.

Lemma evolves_run_task rnd t s : evolves s (run_task rnd t s).
Proof.
  destruct t; simpl;
    auto using evolves_startVotingPhase, evolves_processVoteResults,
      evolves_startSoloPhase, evolves_startDiscussionPhase,
      evolves_startRevotingPhase, evolves_calculateResults,
      evolves_showScoreboard, evolves_skipNotice, evolves_nextRound,
      evolves_syncGameStateToPlayer.
Qed.

Lemma evolves_tick rnd i s : evolves s (tick rnd i s).
Proof.
  unfold tick. pose proof (evolves_tick_body i s) as H.
  destruct (tick_body i s) as [s1 [cb|]]; simpl in H; [|done].
  eapply evolves_trans; [exact H|apply evolves_run_task].
Qed.

Lemma evolves_api_lobby_create u newCode now s :
  evolves s (api_lobby_create u newCode now s).1.
Proof. unfold api_lobby_create. case_decide; simpl; peel. Qed.

Lemma evolves_api_lobby_join c u s : evolves s (api_lobby_join c u s).1.
Proof.
  unfold api_lobby_join. case_decide; simpl; [peel|].
  destruct (lobbies s !! c) as [l|]; simpl; [|peel].
  case_match; simpl; [peel|].
  match goal with |- context [gameStates_get c ?s1] => with_game c s1 end;
    peel.
Qed.

Lemma evolves_connection id s : evolves s (connection id s).
Proof. unfold connection. peel. Qed.

Lemma evolves_join_lobby id c u s : evolves s (join_lobby id c u s).
Proof.
  unfold join_lobby. simpl.
  destruct (lobbies s !! c) as [l|]; [|peel].
  repeat case_match; peel.
Qed.

Lemma evolves_leave_lobby c u now s : evolves s (leave_lobby c u now s).
Proof.
  unfold leave_lobby. destruct (lobbies s !! c) as [l|]; [|peel].
  repeat case_match; peel.
Qed.

Lemma fresh_loc_unused s : heap s !! fresh_loc s = None.
Proof. apply not_elem_of_dom. unfold fresh_loc. apply is_fresh. Qed.

Lemma evolves_start_game c u s : evolves s (start_game c u s).
Proof.
  unfold start_game. destruct (lobbies s !! c) as [l|]; [|peel].
  case_decide; [|peel].
  do 3 (eapply evolves_trans; [|by apply evolves_same_view]).
  eapply evolves_trans;
    [|apply evolves_store_fresh; exact (fresh_loc_unused s)].
  peel.
Qed.

Lemma evolves_cast_vote c u v s s' :
  cast_vote c u v s = Some s' → evolves s s'.
Proof.
  unfold cast_vote. with_game c s; [|intros [= <-]; peel].
  case_decide; [|intros [= <-]; peel]. simpl.
  destruct (lobbies s !! c) as [l|]; simpl; [|done].
  case_match; intros [= <-]; peel.
Qed.

Lemma evolves_cast_revote c u v s s' :
  cast_revote c u v s = Some s' → evolves s s'.
Proof.
  unfold cast_revote. with_game c s; [|intros [= <-]; peel].
  case_decide; [|intros [= <-]; peel]. simpl.
  destruct (lobbies s !! c) as [l|]; simpl; [|done].
  case_match; intros [= <-]; peel.
Qed.

Lemma evolves_restart_game id c s : evolves s (restart_game id c s).
Proof.
  unfold restart_game. destruct (lobbies s !! c) as [l|]; [|peel].
  with_game c s; [|peel]. case_decide; peel.
Qed.

Lemma evolves_disconnect id now s : evolves s (disconnect id now s).
Proof.
  unfold disconnect.
  destruct (sockets s !! id) as [[[u|] [c|]]|]; try peel.
  case_decide; [peel|]. simpl.
  destruct (lobbies s !! c) as [l|]; [|peel].
  destruct (find_participant u (participants l)); [|peel].
  destruct (game_active _); [peel|].
  case_decide; [|peel].
  destruct (gameStates_get c _) as [[r g]|]; peel.
Qed.

Lemma evolves_reap_one now s e : evolves s (reap_one now s e).
Proof.
  destruct e as [u [c t]]. unfold reap_one. case_decide; [|peel].
  destruct (lobbies s !! c) as [l|]; peel.
Qed.

Lemma evolves_reaper now s : evolves s (reaper now s).
Proof.
  unfold reaper. generalize (map_to_list (disconnectedPlayers s)).
  intros l. revert s.
  induction l as [|e l IH]; intros s; [apply evolves_refl|].
  simpl. eapply evolves_trans; [apply evolves_reap_one|apply IH].
Qed.

Lemma evolves_step e s s' x : step e s = Some (s', x) → evolves s s'.
Proof.
  destruct e; simpl; try (intros [= <- <-]);
    auto using evolves_api_lobby_create, evolves_api_lobby_join,
      evolves_connection, evolves_join_lobby, evolves_leave_lobby,
      evolves_start_game, evolves_restart_game, evolves_disconnect,
      evolves_syncGameStateToPlayer, evolves_tick, evolves_reaper.
  - destruct (cast_vote c uname vote s) as [s1|] eqn:E; simpl; [|done].
    intros [= <- <-]. by eapply evolves_cast_vote.
  - destruct (cast_revote c uname vote s) as [s1|] eqn:E; simpl; [|done].
    intros [= <- <-]. by eapply evolves_cast_revote.
  - destruct (timeouts s !! k) as [[ms t]|]; intros [= <- <-]; [|peel].
    eapply evolves_trans; [|apply evolves_run_task]. peel.
Qed.

(** *** Runs of the event loop *)

Lemma timers_ok_init topics : timers_ok (init topics).
Proof. intros i iv H. simpl in H. by rewrite lookup_empty in H. Qed.

Lemma run_app es1 es2 s :
  run (es1 ++ es2) s
  = '(s1, xs1) ← run es1 s; '(s2, xs2) ← run es2 s1; Some (s2, xs1 ++ xs2).
Proof.
  revert s. induction es1 as [|e es1 IH]; intros s; simpl.
  - by destruct (run es2 s) as [[??]|].
  - destruct (step e s) as [[s1 x]|]; simpl; [|done]. rewrite IH.
    destruct (run es1 s1) as [[s2 xs]|]; simpl; [|done].
    destruct (run es2 s2) as [[s3 ys]|]; simpl; [|done].
    by rewrite app_assoc.
Qed.

Lemma run_evolves es s s' xs : run es s = Some (s', xs) → evolves s s'.
Proof.
  revert s s' xs. induction es as [|e es IH]; intros s s' xs; simpl.
  - intros [= <- <-]. apply evolves_refl.
  - destruct (step e s) as [[s1 x]|] eqn:E; simpl; [|done].
    destruct (run es s1) as [[s2 ys]|] eqn:E'; simpl; [|done].
    intros [= <- <-]. eapply evolves_trans; [by eapply evolves_step|eauto].
Qed.

(** Only the tick of an active interval calls an expiry callback. *)
Lemma step_expiry e s s' i cb :
  step e s = Some (s', Some (i, cb)) →
  ∃ rnd,
    e = on_interval i rnd ∧
    (tick_body i s).2 = Some cb ∧
    is_Some (intervals s !! i) ∧
    s' = tick rnd i s.
Proof.
  destruct e as [| | | | | | | | | | | |j rnd|]; simpl; try (by intros [=]).
  - destruct (cast_vote _ _ _ _); simpl; by intros [=].
  - destruct (cast_revote _ _ _ _); simpl; by intros [=].
  - destruct (timeouts s !! k) as [[??]|]; by intros [=].
  - intros [= <- H]. exists rnd.
    destruct (tick_body j s).2 as [cb'|] eqn:E; simpl in H; [|done].
    injection H as -> ->. split; [done|]. split; [done|]. split; [|done].
    destruct (intervals s !! i) eqn:Hi; [done|].
    by rewrite tick_body_cleared in E.
Qed.

(** After its expiry an interval is cleared, for good. *)
Lemma step_expiry_cleared e s s' i cb :
  timers_ok s →
  step e s = Some (s', Some (i, cb)) →
  intervals s' !! i = None ∧ (i < next_interval s')%nat.
Proof.
  intros Hok Hstep.
  destruct (step_expiry _ _ _ _ _ Hstep) as (rnd & -> & Hcb & _ & ->).
  destruct (tick_body_expired i s cb Hok Hcb)
    as (iv & g & _ & _ & _ & _ & _ & Hnone & Hlt).
  unfold tick. destruct (tick_body i s) as [s1 o]. simpl in *. subst o.
  destruct (evolves_run_task rnd cb s1) as (_ & Hle & Hdead).
  split; [by apply Hdead|lia].
Qed.

Lemma cleared_never_expires es s s' xs i :
  (i < next_interval s)%nat →
  intervals s !! i = None →
  run es s = Some (s', xs) →
  i ∉ xs.*1.
Proof.
  revert s s' xs. induction es as [|e es IH]; intros s s' xs Hlt Hnone; simpl.
  - intros [= <- <-]. apply not_elem_of_nil.
  - destruct (step e s) as [[s1 x]|] eqn:E; simpl; [|done].
    destruct (run es s1) as [[s2 ys]|] eqn:E'; simpl; [|done].
    intros [= <- <-]. rewrite fmap_app. apply not_elem_of_app.
    destruct (evolves_step _ _ _ _ E) as (_ & Hle & Hdead).
    split; [|eapply IH; [|by apply Hdead|done]; lia].
    destruct x as [[j cb]|]; simpl; [|apply not_elem_of_nil].
    apply not_elem_of_cons. split; [|apply not_elem_of_nil].
    intros <-. destruct (step_expiry _ _ _ _ _ E) as (_ & _ & _ & [? H] & _).
    congruence.
Qed.

Lemma expiries_NoDup es s s' xs :
  timers_ok s → run es s = Some (s', xs) → NoDup xs.*1.
Proof.
  revert s s' xs. induction es as [|e es IH]; intros s s' xs Hok; simpl.
  - intros [= <- <-]. apply NoDup_nil_2.
  - destruct (step e s) as [[s1 x]|] eqn:E; simpl; [|done].
    destruct (run es s1) as [[s2 ys]|] eqn:E'; simpl; [|done].
    intros [= <- <-].
    assert (timers_ok s1) as Hok1
      by (by apply (evolves_step _ _ _ _ E)).
    destruct x as [[j cb]|]; simpl; [|by eapply IH].
    apply NoDup_cons. split; [|by eapply IH].
    destruct (step_expiry_cleared _ _ _ _ _ Hok E) as [Hnone Hlt].
    by eapply cleared_never_expires.
Qed.

(** [k] ticks of an interval whose timer stands above [k]: no expiry. *)
Lemma countdown_ticks rnd i iv k s g :
  intervals s !! i = Some iv →
  heap s !! iv_state iv = Some g →
  Z.of_nat k < timer g →
  ∃ s' g',
    run (replicate k (on_interval i rnd)) s = Some (s', []) ∧
    intervals s' !! i = Some iv ∧
    heap s' !! iv_state iv = Some g' ∧
    timer g' = timer g - Z.of_nat k ∧
    timerInterval g' = timerInterval g ∧
    outbox s' = outbox s ++ ticks_from (iv_code iv) (timer g) k.
Proof.
  revert s g. induction k as [|k IH]; intros s g Hi Hg Hk.
  - exists s, g. simpl. rewrite app_nil_r. repeat split; try done. lia.
  - simpl. unfold tick, tick_body. rewrite Hi, Hg. simpl.
    rewrite decide_False by lia. simpl.
    edestruct (IH (emit (iv_code iv) (game_timer (timer g - 1))
                     (store (iv_state iv) (set_timer (timer g - 1) g) s))
                 (set_timer (timer g - 1) g))
      as (s' & g' & Hrun & Hi' & Hg' & Ht & Hti & Hout).
    { done. }
    { simpl. by rewrite lookup_insert_eq. }
    { simpl. lia. }
    exists s', g'. rewrite Hrun. simpl. split; [done|]. split; [done|].
    split; [done|]. split; [simpl in Ht; lia|]. split; [done|].
    rewrite Hout. simpl. by rewrite <- app_assoc.
Qed.

Lemma ticks_from_snoc c m k :
  ticks_from c m (S k)
  = ticks_from c m k ++ [to_room c (game_timer (m - Z.of_nat (S k)))].
Proof.
  revert m. induction k as [|k IH]; intros m.
  - reflexivity.
  - change (ticks_from c m (S (S k)))
      with (to_room c (game_timer (m - 1)) :: ticks_from c (m - 1) (S k)).
    rewrite IH.
    change (ticks_from c m (S k))
      with (to_room c (game_timer (m - 1)) :: ticks_from c (m - 1) k).
    rewrite <- app_comm_cons. do 5 f_equal. lia.
Qed.

(** C9.  In a state the server can reach, arm a timer of [n] seconds
    (n > 0) with [startTimer].  If nothing interferes, the first n-1 ticks
    call no expiry callback and the n-th tick, after emitting the remaining
    time 0, clears the interval and calls the callback: the [game-timer]
    messages are n-1, ..., 0 and the callback is called once.  Whatever
    happens after arming, no interval handle ever expires twice; an
    interval that has been cleared (cancelled, or expired) never expires
    afterwards, also when a new timer is armed right after; and an expiry
    callback is only ever called by the tick of an active interval, right
    after the [game-timer] message of a remaining time that is 0 or less. *)
Theorem expiry_fires_once_per_armed_period (topics : list string)
    (es0 : list input) (xs0 : list (nat * task)) (s : server) (c : string)
    (n : nat) (cb : task) (r : loc) (g : gameState) (rnd : random) :
  run es0 (init topics) = Some (s, xs0) →
  gameStates_get c s = Some (r, g) →
  (0 < n)%nat →
  let i := next_interval s in
  let armed := startTimer c (Z.of_nat n) cb s in
  (∃ s1 s2,
     run (replicate (n - 1) (on_interval i rnd)) armed = Some (s1, []) ∧
     tick_body i s1 = (s2, Some cb) ∧
     outbox s2 = outbox s ++ ticks_from c (Z.of_nat n) n ∧
     intervals s2 !! i = None ∧
     step (on_interval i rnd) s1 = Some (run_task rnd cb s2, Some (i, cb))) ∧
  (∀ es s' xs, run es armed = Some (s', xs) → NoDup xs.*1) ∧
  (∀ es1 s1 xs1 es2 s2 xs2,
     run es1 armed = Some (s1, xs1) →
     intervals s1 !! i = None →
     run es2 s1 = Some (s2, xs2) →
     i ∉ xs2.*1) ∧
  (∀ es1 s1 xs1 e s2 j cbj,
     run es1 armed = Some (s1, xs1) →
     step e s1 = Some (s2, Some (j, cbj)) →
     ∃ iv gj,
       intervals s1 !! j = Some iv ∧
       iv_callback iv = cbj ∧
       heap s1 !! iv_state iv = Some gj ∧
       timer gj - 1 ≤ 0 ∧
       last (outbox (tick_body j s1).1)
       = Some (to_room (iv_code iv) (game_timer (timer gj - 1)))).
Proof.
  intros Hrun Hg Hn i armed.
  assert (timers_ok s) as Hok.
  { apply (run_evolves _ _ _ _ Hrun), timers_ok_init. }
  assert (timers_ok armed) as Hoka by (by apply evolves_startTimer).
  destruct (startTimer_state c (Z.of_nat n) cb s r g Hg)
    as (Hh & Hi & Hnext & _ & _ & Hout & _).
  fold armed in Hh, Hi, Hnext, Hout. fold i in Hh, Hi, Hnext.
  split; [|split; [|split]].
  - destruct n as [|k]; [lia|].
    replace (S k - 1)%nat with k by lia.
    destruct (countdown_ticks rnd i
                {| iv_state := r; iv_code := c; iv_callback := cb |} k armed
                (set_timerInterval (Some i) (set_timer (Z.of_nat (S k)) g)))
      as (s1 & g1 & Hrun1 & Hi1 & Hg1 & Ht1 & Hti1 & Hout1).
    { rewrite Hi. by rewrite lookup_insert_eq. }
    { rewrite Hh. by rewrite lookup_insert_eq. }
    { simpl. lia. }
    simpl in Hg1, Ht1, Hti1, Hout1.
    exists s1. eexists. split; [exact Hrun1|].
    assert (tick_body i s1
            = (store r (set_timerInterval None (set_timer (timer g1 - 1) g1))
                 (clear_timer (set_timer (timer g1 - 1) g1)
                    (emit c (game_timer (timer g1 - 1))
                       (store r (set_timer (timer g1 - 1) g1) s1))),
               Some cb)) as Htick.
    { unfold tick_body. rewrite Hi1. simpl. rewrite Hg1. simpl.
      by rewrite decide_True by lia. }
    split; [exact Htick|].
    split; [|split].
    + rewrite ticks_from_snoc. simpl. rewrite outbox_clear_timer. simpl.
      rewrite Hout1, Hout, <- app_assoc.
      by replace (timer g1 - 1) with (Z.of_nat (S k) - Z.of_nat (S k)) by lia.
    + simpl. unfold clear_timer. simpl. rewrite Hti1. simpl.
      by rewrite lookup_delete_eq.
    + unfold step, tick. by rewrite Htick.
  - intros es s' xs Hr. by eapply expiries_NoDup.
  - intros es1 s1 xs1 es2 s2 xs2 Hr1 Hnone Hr2.
    eapply cleared_never_expires; [|exact Hnone|exact Hr2].
    destruct (run_evolves _ _ _ _ Hr1) as (_ & Hle & _). lia.
  - intros es1 s1 xs1 e s2 j cbj Hr1 Hstep.
    assert (timers_ok s1) as Hok1 by (by apply (run_evolves _ _ _ _ Hr1)).
    destruct (step_expiry _ _ _ _ _ Hstep) as (rnd' & -> & Hcb & _ & ->).
    destruct (tick_body_expired j s1 cbj Hok1 Hcb)
      as (iv & gj & H1 & H2 & H3 & H4 & H5 & _).
    by exists iv, gj.
Qed.

Lemma expiry_fires_once_per_armed_period_witness :
  ∃ s1 s2,
    run (replicate 19 (on_interval 1 first))
      (startTimer "ROOM" 20 (call_calculateResults "ROOM")
         after_three_players_voting)
    = Some (s1, []) ∧
    tick_body 1 s1 = (s2, Some (call_calculateResults "ROOM")) ∧
    intervals s2 !! 1%nat = None.
Proof.
  destruct scenarios_reached as (_ & Hrun & _).
  assert (gameStates_get "ROOM" after_three_players_voting
          = Some (0%nat, game_after_three_players_voting)) as Hg by closed.
  pose proof (expiry_fires_once_per_armed_period topics _ _ _ "ROOM" 20
                (call_calculateResults "ROOM") _ _ first Hrun Hg) as H.
  cbv zeta in H. destruct H as [H _]; [lia|].
  destruct H as (s1 & s2 & H1 & H2 & _ & H3 & _).
  exists s1, s2. split; [exact H1|]. split; [exact H2|exact H3].
Defined.

(** ** What the phase functions leave alone *)

Lemma same_registry_refl s : same_registry s s.
Proof. by unfold same_registry. Qed.

Lemma same_registry_trans s1 s2 s3 :
  same_registry s1 s2 → same_registry s2 s3 → same_registry s1 s3.
Proof.
  unfold same_registry. intros (-> & -> & -> & -> & ->) (-> & -> & -> & -> & ->).
  done.
Qed.

Lemma same_registry_clear_timer g s : same_registry s (clear_timer g s).
Proof. unfold clear_timer. by destruct (timerInterval g). Qed.

Lemma same_registry_startTimer c n cb s : same_registry s (startTimer c n cb s).
Proof.
  unfold startTimer. destruct (gameStates_get c s) as [[r g]|]; [|done].
  unfold same_registry. simpl.
  by rewrite lobbies_clear_timer, gameStates_clear_timer;
    unfold clear_timer; destruct (timerInterval _).
Qed.

Ltac frame_with rec :=
  lazymatch goal with
  | |- same_registry ?s ?s => apply same_registry_refl
  | |- same_registry ?s (emit _ _ ?t) =>
      apply (same_registry_trans s t); [rec | done]
  | |- same_registry ?s (emit_socket _ _ ?t) =>
      apply (same_registry_trans s t); [rec | done]
  | |- same_registry ?s (setTimeout _ _ ?t) =>
      apply (same_registry_trans s t); [rec | done]
  | |- same_registry ?s (set_timeouts _ ?t) =>
      apply (same_registry_trans s t); [rec | done]
  | |- same_registry ?s (store _ _ ?t) =>
      apply (same_registry_trans s t); [rec | done]
  | |- same_registry ?s (clear_timer _ ?t) =>
      apply (same_registry_trans s t); [rec | apply same_registry_clear_timer]
  | |- same_registry ?s (startTimer _ _ _ ?t) =>
      apply (same_registry_trans s t); [rec | apply same_registry_startTimer]
  end.

Ltac frame := idtac; frame_with ltac:(idtac; frame).

Lemma same_registry_endGame c s : same_registry s (endGame c s).
Proof. unfold endGame. destruct (gameStates_get c s) as [[r g]|]; frame. Qed.

Lemma same_registry_startRevotingPhase c s :
  same_registry s (startRevotingPhase c s).
Proof.
  unfold startRevotingPhase. destruct (gameStates_get c s) as [[r g]|]; frame.
Qed.

Lemma same_registry_startDiscussionPhase c s :
  same_registry s (startDiscussionPhase c s).
Proof.
  unfold startDiscussionPhase.
  destruct (gameStates_get c s) as [[r g]|]; frame.
Qed.

Lemma same_registry_startSoloPhase rnd c s :
  same_registry s (startSoloPhase rnd c s).
Proof.
  unfold startSoloPhase. destruct (gameStates_get c s) as [[r g]|]; [|frame].
  destruct (lobbies s !! c) as [l|]; [|frame].
  repeat case_decide; repeat case_match;
    try (eapply same_registry_trans;
         [|apply same_registry_startDiscussionPhase]); frame.
Qed.

Lemma same_registry_showScoreboard c s : same_registry s (showScoreboard c s).
Proof.
  unfold showScoreboard. destruct (gameStates_get c s) as [[r g]|]; frame.
Qed.

Lemma same_registry_skipNotice c t s : same_registry s (skipNotice c t s).
Proof. unfold skipNotice. frame. Qed.

Lemma same_registry_processVoteResults c s :
  same_registry s (processVoteResults c s).
Proof.
  unfold processVoteResults.
  destruct (gameStates_get c s) as [[r g]|]; [|frame].
  destruct (lobbies s !! c) as [l|]; [|frame]. case_decide; frame.
Qed.

Lemma same_registry_startVotingPhase rnd c s :
  same_registry s (startVotingPhase rnd c s).
Proof.
  unfold startVotingPhase.
  destruct (gameStates_get c s) as [[r g]|]; [|frame].
  destruct (lobbies s !! c) as [l|]; [|frame].
  case_decide; [apply same_registry_endGame|]. case_match; frame.
Qed.

Lemma same_registry_calculateResults c s :
  same_registry s (calculateResults c s).
Proof.
  unfold calculateResults.
  destruct (gameStates_get c s) as [[r g]|]; [|frame].
  destruct (lobbies s !! c) as [l|]; [|frame].
  destruct (winner _ _) as [team pts]. frame.
Qed.

Lemma same_registry_nextRound r c s : same_registry s (nextRound r c s).
Proof.
  unfold nextRound. destruct (heap s !! r) as [g|]; [|frame].
  case_decide;
    [eapply same_registry_trans; [|apply same_registry_endGame]|]; frame.
Qed.

Lemma same_registry_syncGameStateToPlayer id c s :
  same_registry s (syncGameStateToPlayer id c s).
Proof.
  unfold syncGameStateToPlayer.
  destruct (gameStates_get c s) as [[r g]|]; [|frame].
  destruct (lobbies s !! c) as [l|]; [|frame]. case_match; frame.
Qed.

Lemma same_registry_run_task rnd t s : same_registry s (run_task rnd t s).
Proof.
  destruct t; simpl;
    auto using same_registry_startVotingPhase,
      same_registry_processVoteResults, same_registry_startSoloPhase,
      same_registry_startDiscussionPhase, same_registry_startRevotingPhase,
      same_registry_calculateResults, same_registry_showScoreboard,
      same_registry_skipNotice, same_registry_nextRound,
      same_registry_syncGameStateToPlayer.
Qed.

Lemma same_registry_tick_body i s : same_registry s (tick_body i s).1.
Proof.
  unfold tick_body. destruct (intervals s !! i) as [iv|]; [|simpl; frame].
  destruct (heap s !! iv_state iv) as [g|]; [|simpl; frame].
  case_decide; simpl; frame.
Qed.

Lemma same_registry_tick rnd i s : same_registry s (tick rnd i s).
Proof.
  unfold tick. pose proof (same_registry_tick_body i s) as H.
  destruct (tick_body i s) as [s1 [cb|]]; simpl in H; [|done].
  eapply same_registry_trans; [exact H|apply same_registry_run_task].
Qed.

Lemma same_registry_cast_vote c u v s s' :
  cast_vote c u v s = Some s' → same_registry s s'.
Proof.
  unfold cast_vote. destruct (gameStates_get c s) as [[r g]|];
    [|intros [= <-]; frame].
  case_decide; [|intros [= <-]; frame]. simpl.
  destruct (lobbies s !! c) as [l|]; simpl; [|done].
  case_match; intros [= <-]; frame.
Qed.

Lemma same_registry_cast_revote c u v s s' :
  cast_revote c u v s = Some s' → same_registry s s'.
Proof.
  unfold cast_revote. destruct (gameStates_get c s) as [[r g]|];
    [|intros [= <-]; frame].
  case_decide; [|intros [= <-]; frame]. simpl.
  destruct (lobbies s !! c) as [l|]; simpl; [|done].
  case_match; intros [= <-]; frame.
Qed.

Lemma same_registry_restart_game id c s :
  same_registry s (restart_game id c s).
Proof.
  unfold restart_game. destruct (lobbies s !! c) as [l|]; [|frame].
  destruct (gameStates_get c s) as [[r g]|]; [|frame]. case_decide; frame.
Qed.

(** ** The registry invariant *)

Lemma registry_ok_frame s s' :
  same_registry s s' → registry_ok s → registry_ok s'.
Proof. unfold registry_ok. by intros (_ & -> & -> & _). Qed.

Lemma elem_of_set_connected u b ps p :
  p ∈ set_connected u b ps →
  ∃ q, q ∈ ps ∧ username q = username p ∧ isHost q = isHost p.
Proof.
  induction ps as [|x ps IH]; simpl; [by intros ?%elem_of_nil|].
  case_bool_decide.
  - intros [->|Hp]%elem_of_cons.
    + exists x. split; [by left|done].
    + exists p. split; [by right|done].
  - intros [->|Hp]%elem_of_cons.
    + exists x. split; [by left|done].
    + destruct (IH Hp) as (q & Hq & ?). exists q. split; [by right|done].
Qed.

Lemma roster_ok_set_connected u b l :
  roster_ok l →
  roster_ok (set_participants (set_connected u b (participants l)) l).
Proof.
  intros [Hnd Hhost]. split.
  - unfold usernames. simpl. by rewrite set_connected_usernames.
  - simpl. intros p Hp Hflag.
    destruct (elem_of_set_connected _ _ _ _ Hp) as (q & Hq & Hn & Hh).
    rewrite <- Hn. apply Hhost; [done|congruence].
Qed.

Lemma elem_of_remove_participant u ps p :
  p ∈ remove_participant u ps ↔ p ∈ ps ∧ username p ≠ u.
Proof.
  unfold remove_participant. rewrite !list_elem_of_In, filter_In.
  by rewrite bool_decide_eq_true.
Qed.

Lemma NoDup_remove_participant u ps :
  NoDup (username <$> ps) → NoDup (username <$> remove_participant u ps).
Proof.
  induction ps as [|p ps IH]; [done|].
  rewrite fmap_cons. intros [Hp Hnd]%NoDup_cons.
  unfold remove_participant in *. simpl. case_bool_decide; [|by apply IH].
  rewrite fmap_cons. apply NoDup_cons. split; [|by apply IH].
  intros (q & Hq1 & Hq2)%list_elem_of_fmap. apply Hp.
  apply list_elem_of_fmap. exists q. split; [done|].
  by apply (elem_of_remove_participant u ps q).
Qed.

Lemma roster_ok_remove_participant u l :
  roster_ok l →
  roster_ok (set_participants (remove_participant u (participants l)) l).
Proof.
  intros [Hnd Hhost]. split.
  - by apply NoDup_remove_participant.
  - simpl. intros p [Hp _]%elem_of_remove_participant. by apply Hhost.
Qed.

Lemma find_participant_None_inv u ps :
  find_participant u ps = None → u ∉ username <$> ps.
Proof.
  intros Hnone Hin. destruct (find_participant_Some u ps Hin) as [p Hp].
  congruence.
Qed.

Lemma roster_ok_push u l :
  u ∉ usernames l →
  roster_ok l →
  roster_ok
    (set_participants
       (participants l
        ++ [{| username := u; isHost := false; connected := true |}]) l).
Proof.
  intros Hu [Hnd Hhost]. split.
  - unfold usernames. simpl. rewrite fmap_app. apply NoDup_app.
    split; [done|]. split; [|apply NoDup_singleton].
    intros x Hx Hx'. apply list_elem_of_singleton in Hx' as ->. done.
  - simpl. intros p [Hp|Hp]%elem_of_app; [by apply Hhost|].
    apply list_elem_of_singleton in Hp as ->. done.
Qed.

Lemma lobbies_ok_insert ls gs c l :
  lobbies_ok ls gs → code l = c → roster_ok l → lobbies_ok (<[c := l]> ls) gs.
Proof.
  intros [H1 H2] Hc Hr. split.
  - intros c' l'. destruct (decide (c = c')) as [<-|Hne].
    + rewrite lookup_insert_eq. by intros [= <-].
    + rewrite lookup_insert_ne by done. apply H1.
  - intros c' Hc'. destruct (decide (c = c')) as [<-|Hne].
    + by rewrite lookup_insert_eq.
    + rewrite lookup_insert_ne by done. by apply H2.
Qed.

Lemma lobbies_ok_delete ls gs c :
  lobbies_ok ls gs → lobbies_ok (delete c ls) (delete c gs).
Proof.
  intros [H1 H2]. split.
  - intros c' l' [_ H]%lookup_delete_Some. by apply H1.
  - intros c' [r [Hne H]%lookup_delete_Some].
    rewrite lookup_delete_ne by done. apply H2. by eexists.
Qed.

Lemma lobbies_ok_start ls gs c r :
  lobbies_ok ls gs → is_Some (ls !! c) → lobbies_ok ls (<[c := r]> gs).
Proof.
  intros [H1 H2] Hc. split; [done|].
  intros c'. destruct (decide (c = c')) as [<-|Hne]; [done|].
  rewrite lookup_insert_ne by done. apply H2.
Qed.

Lemma registry_ok_init topics : registry_ok (init topics).
Proof.
  split.
  - intros c l H. simpl in H. by rewrite lookup_empty in H.
  - intros c [r H]. simpl in H. by rewrite lookup_empty in H.
Qed.

Lemma registry_ok_api_lobby_create u newCode now s :
  registry_ok s → registry_ok (api_lobby_create u newCode now s).1.
Proof.
  intros Hok. unfold api_lobby_create. case_decide; [done|].
  unfold registry_ok. simpl. apply lobbies_ok_insert; [done|done|].
  split.
  - unfold usernames. simpl. apply NoDup_singleton.
  - simpl. intros p Hp _. by apply list_elem_of_singleton in Hp as ->.
Qed.

Lemma registry_ok_api_lobby_join c u s :
  registry_ok s → registry_ok (api_lobby_join c u s).1.
Proof.
  intros Hok. unfold api_lobby_join. case_decide; [done|].
  destruct (lobbies s !! c) as [l|] eqn:Hl; [|done].
  destruct (proj1 Hok c l Hl) as [Hc Hr].
  destruct (find_participant u (participants l)) as [p|] eqn:Hp.
  - unfold registry_ok. simpl. apply lobbies_ok_insert; [done|done|].
    by apply roster_ok_set_connected.
  - eapply (registry_ok_frame
              (set_lobbies (<[c:=set_participants
                   (participants l
                    ++ [{| username := u; isHost := false;
                           connected := true |}]) l]> (lobbies s)) s)).
    + simpl. destruct (gameStates_get c _) as [[r g]|]; done.
    + unfold registry_ok. simpl. apply lobbies_ok_insert; [done|done|].
      apply roster_ok_push; [|done]. by apply find_participant_None_inv.
Qed.

Lemma registry_ok_join_lobby id c u s :
  registry_ok s → registry_ok (join_lobby id c u s).
Proof.
  intros Hok. unfold join_lobby. simpl.
  destruct (lobbies s !! c) as [l|] eqn:Hl; [|done].
  destruct (proj1 Hok c l Hl) as [Hc Hr].
  assert (lobbies_ok
            (<[c := match find_participant u (participants l) with
                    | Some _ =>
                        set_participants
                          (set_connected u true (participants l)) l
                    | None => l
                    end]> (lobbies s)) (gameStates s)) as H.
  { apply lobbies_ok_insert; [done|by case_match|].
    case_match; [by apply roster_ok_set_connected|done]. }
  repeat case_match; exact H.
Qed.

Lemma registry_ok_leave_lobby c u now s :
  registry_ok s → registry_ok (leave_lobby c u now s).
Proof.
  intros Hok. unfold leave_lobby.
  destruct (lobbies s !! c) as [l|] eqn:Hl; [|done].
  destruct (proj1 Hok c l Hl) as [Hc Hr].
  destruct (game_active _).
  - destruct (find_participant u (participants l)); [|done].
    unfold registry_ok. simpl. apply lobbies_ok_insert; [done|done|].
    by apply roster_ok_set_connected.
  - case_decide; unfold registry_ok; simpl.
    + rewrite delete_insert_eq. by apply lobbies_ok_delete.
    + apply lobbies_ok_insert; [done|done|].
      by apply roster_ok_remove_participant.
Qed.

Lemma registry_ok_start_game c u s :
  registry_ok s → registry_ok (start_game c u s).
Proof.
  intros Hok. unfold start_game.
  destruct (lobbies s !! c) as [l|] eqn:Hl; [|done].
  destruct (proj1 Hok c l Hl) as [Hc Hr].
  case_decide; [|done]. unfold registry_ok. simpl.
  apply lobbies_ok_start; [|by rewrite lookup_insert_eq].
  by apply lobbies_ok_insert.
Qed.

Lemma registry_ok_disconnect id now s :
  registry_ok s → registry_ok (disconnect id now s).
Proof.
  intros Hok. unfold disconnect.
  destruct (sockets s !! id) as [[[u|] [c|]]|]; try done.
  case_decide; [done|]. simpl.
  destruct (lobbies s !! c) as [l|] eqn:Hl; [|done].
  destruct (proj1 Hok c l Hl) as [Hc Hr].
  destruct (find_participant u (participants l)); [|done].
  destruct (game_active _).
  - unfold registry_ok. simpl. apply lobbies_ok_insert; [done|done|].
    by apply roster_ok_set_connected.
  - case_decide; unfold registry_ok; simpl.
    + destruct (gameStates_get c _) as [[r g]|]; simpl;
        rewrite ?lobbies_clear_timer, ?gameStates_clear_timer; simpl;
        rewrite delete_insert_eq; by apply lobbies_ok_delete.
    + apply lobbies_ok_insert; [done|done|].
      by apply roster_ok_remove_participant.
Qed.

Lemma registry_ok_reap_one now s e :
  registry_ok s → registry_ok (reap_one now s e).
Proof.
  intros Hok. destruct e as [u [c t]]. unfold reap_one.
  case_decide; [|done].
  destruct (lobbies s !! c) as [l|] eqn:Hl; [|done].
  destruct (proj1 Hok c l Hl) as [Hc Hr].
  unfold registry_ok. simpl. apply lobbies_ok_insert; [done|done|].
  by apply roster_ok_remove_participant.
Qed.

Lemma registry_ok_reaper now s : registry_ok s → registry_ok (reaper now s).
Proof.
  unfold reaper. generalize (map_to_list (disconnectedPlayers s)).
  intros l. revert s. induction l as [|e l IH]; intros s Hok; [done|].
  simpl. by apply IH, registry_ok_reap_one.
Qed.

(** With the registry invariant, [cast-vote] and [cast-revote] find the
    lobby of every game state: they do not throw. *)
Lemma cast_vote_returns c u v s :
  registry_ok s → is_Some (cast_vote c u v s).
Proof.
  intros [_ Hok]. unfold cast_vote.
  destruct (gameStates_get c s) as [[r g]|] eqn:Hg; [|done].
  case_decide; [|done]. simpl.
  apply gameStates_get_Some in Hg as [Hr _].
  destruct (Hok c) as [l ->]; [by eexists|]. simpl. by case_match.
Qed.

Lemma cast_revote_returns c u v s :
  registry_ok s → is_Some (cast_revote c u v s).
Proof.
  intros [_ Hok]. unfold cast_revote.
  destruct (gameStates_get c s) as [[r g]|] eqn:Hg; [|done].
  case_decide; [|done]. simpl.
  apply gameStates_get_Some in Hg as [Hr _].
  destruct (Hok c) as [l ->]; [by eexists|]. simpl. by case_match.
Qed.

Lemma step_registry_ok e s :
  registry_ok s →
  ∃ s' x, step e s = Some (s', x) ∧ registry_ok s'.
Proof.
  intros Hok. destruct e; simpl.
  - eexists _, _. split; [done|]. by apply registry_ok_api_lobby_create.
  - eexists _, _. split; [done|]. by apply registry_ok_api_lobby_join.
  - eexists _, _. split; [done|]. done.
  - eexists _, _. split; [done|]. by apply registry_ok_join_lobby.
  - eexists _, _. split; [done|]. by apply registry_ok_leave_lobby.
  - eexists _, _. split; [done|]. by apply registry_ok_start_game.
  - destruct (cast_vote_returns c uname vote s Hok) as [s' Hs'].
    rewrite Hs'. simpl. eexists _, _. split; [done|].
    eapply registry_ok_frame; [by eapply same_registry_cast_vote|done].
  - destruct (cast_revote_returns c uname vote s Hok) as [s' Hs'].
    rewrite Hs'. simpl. eexists _, _. split; [done|].
    eapply registry_ok_frame; [by eapply same_registry_cast_revote|done].
  - eexists _, _. split; [done|].
    eapply registry_ok_frame;
      [apply same_registry_syncGameStateToPlayer|done].
  - eexists _, _. split; [done|].
    eapply registry_ok_frame; [apply same_registry_restart_game|done].
  - eexists _, _. split; [done|]. by apply registry_ok_disconnect.
  - destruct (timeouts s !! k) as [[ms t]|]; eexists _, _; (split; [done|]);
      [|done].
    eapply registry_ok_frame; [apply same_registry_run_task|done].
  - eexists _, _. split; [done|].
    eapply registry_ok_frame; [apply same_registry_tick|done].
  - eexists _, _. split; [done|]. by apply registry_ok_reaper.
Qed.

Lemma run_registry_ok es s :
  registry_ok s →
  ∃ s' xs, run es s = Some (s', xs) ∧ registry_ok s'.
Proof.
  revert s. induction es as [|e es IH]; intros s Hok; simpl.
  - by exists s, [].
  - destruct (step_registry_ok e s Hok) as (s1 & x & -> & Hok1). simpl.
    destruct (IH s1 Hok1) as (s2 & xs & -> & Hok2). simpl.
    by eexists _, _.
Qed.

(** X1.  In every state the server can reach, every lobby is stored under
    its own code, its roster has no two entries with the same name, and at
    most one entry carries the host flag: the one named [lobby.host]. *)
Theorem rosters_keep_distinct_names_and_one_host (topics : list string)
    (es : list input) (s : server) (xs : list (nat * task)) (c : string)
    (l : lobby) :
  run es (init topics) = Some (s, xs) →
  lobbies s !! c = Some l →
  code l = c ∧
  NoDup (usernames l) ∧
  (∀ p, p ∈ participants l → isHost p = true → username p = host l) ∧
  (∀ p q, p ∈ participants l → q ∈ participants l →
          isHost p = true → isHost q = true → p = q).
Proof.
  intros Hrun Hl.
  destruct (run_registry_ok es (init topics) (registry_ok_init topics))
    as (s' & xs' & Hrun' & Hok).
  rewrite Hrun in Hrun'. injection Hrun' as <- <-.
  destruct (proj1 Hok c l Hl) as [Hc [Hnd Hhost]].
  split; [done|]. split; [done|]. split; [done|].
  intros p q Hp Hq Hfp Hfq. eapply username_inj; [done..|].
  rewrite (Hhost p Hp Hfp). by rewrite (Hhost q Hq Hfq).
Qed.

Lemma rosters_keep_distinct_names_and_one_host_witness :
  NoDup (usernames lobby_after_four_players_revoting).
Proof.
  destruct scenarios_reached as (_ & _ & _ & _ & _ & Hrun & _).
  eapply (rosters_keep_distinct_names_and_one_host topics _ _ _ "ROOM" _ Hrun).
  closed.
Defined.

(** X2.  With payloads whose fields are strings, no handler throws: every
    sequence of requests, socket events and timer firings runs to the end.
    In the state it reaches a game state exists only for a code that has a
    lobby, so the lobby that cast-vote and cast-revote dereference without a
    check is there, whatever the code, the name and the choice they are
    sent. *)
Theorem server_never_throws (topics : list string) (es : list input) :
  ∃ s xs,
    run es (init topics) = Some (s, xs) ∧
    (∀ c, is_Some (gameStates s !! c) → is_Some (lobbies s !! c)) ∧
    ∀ c u v, is_Some (cast_vote c u v s) ∧ is_Some (cast_revote c u v s).
Proof.
  destruct (run_registry_ok es (init topics) (registry_ok_init topics))
    as (s & xs & Hrun & Hok).
  exists s, xs. split; [done|]. split; [apply Hok|].
  intros c u v. split; [by apply cast_vote_returns|].
  by apply cast_revote_returns.
Qed.

(** X3.  In every state the server can reach, an active interval is the one
    recorded in the [timerInterval] field of the game-state object its
    callback closes over; so no game-state object has two active
    intervals. *)
Theorem one_active_interval_per_game_state (topics : list string)
    (es : list input) (s : server) (xs : list (nat * task)) (i j : nat)
    (iv jv : interval) :
  run es (init topics) = Some (s, xs) →
  intervals s !! i = Some iv →
  intervals s !! j = Some jv →
  (∃ g, heap s !! iv_state iv = Some g ∧ timerInterval g = Some i) ∧
  (iv_state iv = iv_state jv → i = j).
Proof.
  intros Hrun Hi Hj.
  assert (timers_ok s) as Hok.
  { apply (run_evolves _ _ _ _ Hrun), timers_ok_init. }
  destruct (Hok i iv Hi) as [_ (g & Hg & Hti)].
  destruct (Hok j jv Hj) as [_ (g' & Hg' & Htj)].
  split; [by exists g|]. intros Heq. rewrite Heq in Hg.
  rewrite Hg in Hg'. injection Hg' as <-. congruence.
Qed.

Lemma one_active_interval_per_game_state_witness :
  ∃ g,
    heap after_four_players_revoting !! 0%nat = Some g ∧
    timerInterval g = Some 3%nat.
Proof.
  destruct scenarios_reached as (_ & _ & _ & _ & _ & Hrun & _).
  destruct (one_active_interval_per_game_state topics _ _ _ 3 3
              {| iv_state := 0%nat; iv_code := "ROOM";
                 iv_callback := call_calculateResults "ROOM" |}
              {| iv_state := 0%nat; iv_code := "ROOM";
                 iv_callback := call_calculateResults "ROOM" |} Hrun)
    as [H _]; [closed..|].
  exact H.
Defined.

(** X4.  Votes, sync requests, restarts, due timeouts and interval ticks
    never add, remove or change a lobby or its roster, the map of game
    states, the sockets or the disconnection records: membership only
    changes through the create and join routes, the connection, join-lobby,
    leave-lobby, start-game and disconnect events and the sweep. *)
Theorem game_events_leave_the_registry_alone (e : input) (s s' : server)
    (x : option (nat * task)) :
  membership_event e = false →
  step e s = Some (s', x) →
  same_registry s s'.
Proof.
  destruct e; simpl; try done; intros _.
  - destruct (cast_vote c uname vote s) as [s1|] eqn:E; simpl; [|done].
    intros [= <- <-]. by eapply same_registry_cast_vote.
  - destruct (cast_revote c uname vote s) as [s1|] eqn:E; simpl; [|done].
    intros [= <- <-]. by eapply same_registry_cast_revote.
  - intros [= <- <-]. apply same_registry_syncGameStateToPlayer.
  - intros [= <- <-]. apply same_registry_restart_game.
  - destruct (timeouts s !! k) as [[ms t]|]; intros [= <- <-]; [|done].
    eapply same_registry_trans; [|apply same_registry_run_task]. done.
  - intros [= <- <-]. apply same_registry_tick.
Qed.

Lemma game_events_leave_the_registry_alone_witness :
  same_registry after_four_players_revoting
    (tick first 3 after_four_players_revoting).
Proof.
  apply (game_events_leave_the_registry_alone (on_interval 3 first) _ _
           ((λ cb, (3%nat, cb))
              <$> (tick_body 3 after_four_players_revoting).2));
    reflexivity.
Defined.

(** ** Fields that a function leaves alone *)

Lemma untouched_refl {A} (f : gameState → A) s : untouched f s s.
Proof. intros r. by destruct (heap s !! r). Qed.

Lemma untouched_trans {A} (f : gameState → A) s1 s2 s3 :
  untouched f s1 s2 → untouched f s2 s3 → untouched f s1 s3.
Proof.
  intros H12 H23 r. specialize (H12 r). specialize (H23 r).
  destruct (heap s1 !! r), (heap s2 !! r), (heap s3 !! r); try done.
  congruence.
Qed.

Lemma untouched_view {A} (f : gameState → A) s s' :
  heap s' = heap s → untouched f s s'.
Proof. intros Hh r. rewrite Hh. by destruct (heap s !! r). Qed.

Lemma untouched_store {A} (f : gameState → A) s r g g' :
  heap s !! r = Some g → f g' = f g → untouched f s (store r g' s).
Proof.
  intros Hr Hf r'. simpl. destruct (decide (r = r')) as [<-|Hne].
  - by rewrite lookup_insert_eq, Hr.
  - rewrite lookup_insert_ne by done. by destruct (heap s !! r').
Qed.

Lemma untouched_Some {A} (f : gameState → A) s s' r g' :
  untouched f s s' →
  heap s' !! r = Some g' →
  ∃ g, heap s !! r = Some g ∧ f g' = f g.
Proof.
  intros Hu Hg'. specialize (Hu r). rewrite Hg' in Hu.
  destruct (heap s !! r) as [g|]; [|done]. by exists g.
Qed.

Lemma untouched_Some_inv {A} (f : gameState → A) s s' r g :
  untouched f s s' →
  heap s !! r = Some g →
  ∃ g', heap s' !! r = Some g' ∧ f g' = f g.
Proof.
  intros Hu Hg. specialize (Hu r). rewrite Hg in Hu.
  destruct (heap s' !! r) as [g'|]; [|done]. by exists g'.
Qed.

Lemma untouched_weaken {A B} (f : gameState → A) (h : gameState → B) s s' :
  (∀ g g', f g' = f g → h g' = h g) →
  untouched f s s' → untouched h s s'.
Proof.
  intros Hfh Hu r. specialize (Hu r).
  destruct (heap s !! r), (heap s' !! r); try done. by apply Hfh.
Qed.

Lemma ledger_used s s' : untouched ledger s s' → untouched used s s'.
Proof. apply untouched_weaken. unfold ledger, used. congruence. Qed.

Lemma ledger_scores s s' : untouched ledger s s' → untouched scores s s'.
Proof. apply untouched_weaken. unfold ledger. congruence. Qed.

Lemma untouched_clear_timer {A} (f : gameState → A) g s :
  untouched f s (clear_timer g s).
Proof. apply untouched_view, heap_clear_timer. Qed.

Lemma untouched_startTimer {A} (f : gameState → A) c n cb s :
  (∀ g n, f (set_timer n g) = f g) →
  (∀ g i, f (set_timerInterval i g) = f g) →
  untouched f s (startTimer c n cb s).
Proof.
  intros H1 H2. unfold startTimer. with_game c s; [|apply untouched_refl].
  apply (untouched_trans f s
           (store r (set_timerInterval (Some (next_interval s))
                       (set_timer n g)) s)).
  - eapply untouched_store; [eassumption|]. by rewrite H2, H1.
  - apply untouched_view. simpl.
    rewrite heap_clear_timer, next_interval_clear_timer. simpl.
    by rewrite insert_insert_eq.
Qed.

Lemma untouched_tick_body {A} (f : gameState → A) i s :
  (∀ g n, f (set_timer n g) = f g) →
  (∀ g i, f (set_timerInterval i g) = f g) →
  untouched f s (tick_body i s).1.
Proof.
  intros H1 H2. unfold tick_body.
  destruct (intervals s !! i) as [iv|]; [|apply untouched_refl].
  destruct (heap s !! iv_state iv) as [g|] eqn:Hg; [|apply untouched_refl].
  case_decide; simpl.
  - apply (untouched_trans f s
             (store (iv_state iv)
                (set_timerInterval None (set_timer (timer g - 1) g)) s)).
    + eapply untouched_store; [eassumption|]. by rewrite H2, H1.
    + apply untouched_view. simpl. rewrite heap_clear_timer. simpl.
      by rewrite insert_insert_eq.
  - apply (untouched_trans f s
             (store (iv_state iv) (set_timer (timer g - 1) g) s)).
    + eapply untouched_store; [eassumption|]. by rewrite H1.
    + by apply untouched_view.
Qed.

(** Peeling the outermost runtime primitive off the later state, for a
    field that the timer does not hold. *)
Ltac keep_with rec :=
  lazymatch goal with
  | |- untouched _ ?s ?s => apply untouched_refl
  | |- untouched ?f ?s (emit _ _ ?t) =>
      apply (untouched_trans f s t); [rec | by apply untouched_view]
  | |- untouched ?f ?s (emit_socket _ _ ?t) =>
      apply (untouched_trans f s t); [rec | by apply untouched_view]
  | |- untouched ?f ?s (setTimeout _ _ ?t) =>
      apply (untouched_trans f s t); [rec | by apply untouched_view]
  | |- untouched ?f ?s (setInterval _ ?t) =>
      apply (untouched_trans f s t); [rec | by apply untouched_view]
  | |- untouched ?f ?s (set_lobbies _ ?t) =>
      apply (untouched_trans f s t); [rec | by apply untouched_view]
  | |- untouched ?f ?s (set_gameStates _ ?t) =>
      apply (untouched_trans f s t); [rec | by apply untouched_view]
  | |- untouched ?f ?s (set_disconnectedPlayers _ ?t) =>
      apply (untouched_trans f s t); [rec | by apply untouched_view]
  | |- untouched ?f ?s (set_sockets _ ?t) =>
      apply (untouched_trans f s t); [rec | by apply untouched_view]
  | |- untouched ?f ?s (set_timeouts _ ?t) =>
      apply (untouched_trans f s t); [rec | by apply untouched_view]
  | |- untouched ?f ?s (clear_timer _ ?t) =>
      apply (untouched_trans f s t); [rec | apply untouched_clear_timer]
  | |- untouched ?f ?s (startTimer _ _ _ ?t) =>
      apply (untouched_trans f s t); [rec | by apply untouched_startTimer]
  | |- untouched ?f ?s (store ?r ?g ?t) =>
      apply (untouched_trans f s t);
      [rec | eapply untouched_store; [heap_at | reflexivity]]
  end.

Ltac keep := idtac; keep_with ltac:(idtac; keep).

(** ** The ledger: used topics, used speakers, scores *)

Lemma ledger_endGame c s : untouched ledger s (endGame c s).
Proof. unfold endGame. with_game c s; keep. Qed.

Lemma ledger_startRevotingPhase c s :
  untouched ledger s (startRevotingPhase c s).
Proof. unfold startRevotingPhase. with_game c s; keep. Qed.

Lemma ledger_startDiscussionPhase c s :
  untouched ledger s (startDiscussionPhase c s).
Proof. unfold startDiscussionPhase. with_game c s; keep. Qed.

Lemma ledger_showScoreboard c s : untouched ledger s (showScoreboard c s).
Proof. unfold showScoreboard. with_game c s; keep. Qed.

Lemma ledger_skipNotice c t s : untouched ledger s (skipNotice c t s).
Proof. unfold skipNotice. keep. Qed.

Lemma ledger_processVoteResults c s :
  untouched ledger s (processVoteResults c s).
Proof.
  unfold processVoteResults. with_game c s; [|keep].
  destruct (lobbies s !! c) as [l|]; [|keep]. case_decide; keep.
Qed.

Lemma ledger_nextRound r c s : untouched ledger s (nextRound r c s).
Proof.
  unfold nextRound. destruct (heap s !! r) as [g|] eqn:Hh; [|keep].
  case_decide; [eapply untouched_trans; [|apply ledger_endGame]|]; keep.
Qed.

Lemma ledger_syncGameStateToPlayer id c s :
  untouched ledger s (syncGameStateToPlayer id c s).
Proof.
  unfold syncGameStateToPlayer. with_game c s; [|keep].
  destruct (lobbies s !! c) as [l|]; [|keep]. case_match; keep.
Qed.

Lemma ledger_cast_vote c u v s s' :
  cast_vote c u v s = Some s' → untouched ledger s s'.
Proof.
  unfold cast_vote. with_game c s; [|intros [= <-]; keep].
  case_decide; [|intros [= <-]; keep]. simpl.
  destruct (lobbies s !! c) as [l|]; simpl; [|done].
  case_match; intros [= <-]; keep.
Qed.

Lemma ledger_cast_revote c u v s s' :
  cast_revote c u v s = Some s' → untouched ledger s s'.
Proof.
  unfold cast_revote. with_game c s; [|intros [= <-]; keep].
  case_decide; [|intros [= <-]; keep]. simpl.
  destruct (lobbies s !! c) as [l|]; simpl; [|done].
  case_match; intros [= <-]; keep.
Qed.

Lemma ledger_api_lobby_create u newCode now s :
  untouched ledger s (api_lobby_create u newCode now s).1.
Proof. unfold api_lobby_create. case_decide; simpl; keep. Qed.

Lemma ledger_join_lobby id c u s : untouched ledger s (join_lobby id c u s).
Proof.
  unfold join_lobby. simpl.
  destruct (lobbies s !! c) as [l|]; [|keep].
  repeat case_match; keep.
Qed.

Lemma ledger_leave_lobby c u now s :
  untouched ledger s (leave_lobby c u now s).
Proof.
  unfold leave_lobby. destruct (lobbies s !! c) as [l|]; [|keep].
  repeat case_match; keep.
Qed.

Lemma ledger_disconnect id now s : untouched ledger s (disconnect id now s).
Proof.
  unfold disconnect.
  destruct (sockets s !! id) as [[[u|] [c|]]|]; try keep.
  case_decide; [keep|]. simpl.
  destruct (lobbies s !! c) as [l|]; [|keep].
  destruct (find_participant u (participants l)); [|keep].
  destruct (game_active _); [keep|].
  case_decide; [|keep].
  destruct (gameStates_get c _) as [[r g]|]; keep.
Qed.

Lemma ledger_reaper now s : untouched ledger s (reaper now s).
Proof.
  unfold reaper. generalize (map_to_list (disconnectedPlayers s)).
  intros l. revert s.
  induction l as [|e l IH]; intros s; [apply untouched_refl|].
  simpl. eapply untouched_trans; [|apply IH].
  destruct e as [u [c t]]. unfold reap_one. case_decide; [|keep].
  destruct (lobbies s !! c) as [l0|]; keep.
Qed.

Lemma ledger_tick_body i s : untouched ledger s (tick_body i s).1.
Proof. by apply untouched_tick_body. Qed.

(** The four functions that write one part of the ledger leave the others
    alone. *)
Lemma scores_startSoloPhase rnd c s :
  untouched (λ g, (usedTopics g, scores g)) s (startSoloPhase rnd c s).
Proof.
  unfold startSoloPhase. with_game c s; [|keep].
  destruct (lobbies s !! c) as [l|]; [|keep].
  repeat case_decide; repeat case_match;
    try (eapply untouched_trans;
         [|eapply untouched_weaken; [|apply ledger_startDiscussionPhase];
           unfold ledger; congruence]);
    keep.
Qed.

Lemma scores_startVotingPhase rnd c s :
  untouched (λ g, (usedSpeakers g, scores g)) s (startVotingPhase rnd c s).
Proof.
  unfold startVotingPhase. with_game c s; [|keep].
  destruct (lobbies s !! c) as [l|]; [|keep].
  case_decide.
  { eapply untouched_weaken; [|apply ledger_endGame].
    unfold ledger; congruence. }
  case_match; keep.
Qed.

Lemma used_calculateResults c s : untouched used s (calculateResults c s).
Proof.
  unfold calculateResults. with_game c s; [|keep].
  destruct (lobbies s !! c) as [l|]; [|keep].
  destruct (winner _ _) as [team pts]. keep.
Qed.

Lemma used_api_lobby_join c u s : untouched used s (api_lobby_join c u s).1.
Proof.
  unfold api_lobby_join. case_decide; simpl; [keep|].
  destruct (lobbies s !! c) as [l|]; simpl; [|keep].
  case_match; simpl; [keep|].
  match goal with |- context [gameStates_get c ?s1] => with_game c s1 end;
    keep.
Qed.

(** ** Turns: topics and speakers *)

Lemma debateTopics_clear_timer g s :
  debateTopics (clear_timer g s) = debateTopics s.
Proof. unfold clear_timer. by destruct (timerInterval g). Qed.

Lemma debateTopics_reaper now s : debateTopics (reaper now s) = debateTopics s.
Proof.
  unfold reaper. generalize (map_to_list (disconnectedPlayers s)).
  intros l. revert s. induction l as [|e l IH]; intros s; [done|].
  simpl. rewrite IH. destruct e as [u [c t]]. unfold reap_one.
  case_decide; [|done]. by destruct (lobbies s !! c).
Qed.

Lemma debateTopics_step e s s' x :
  step e s = Some (s', x) → debateTopics s' = debateTopics s.
Proof.
  destruct e; simpl.
  - intros [= <- <-]. unfold api_lobby_create. by case_decide.
  - intros [= <- <-]. unfold api_lobby_join. case_decide; [done|].
    destruct (lobbies s !! c); [|done]. case_match; [done|]. simpl.
    by destruct (gameStates_get c _) as [[??]|].
  - by intros [= <- <-].
  - intros [= <- <-]. unfold join_lobby. simpl.
    destruct (lobbies s !! c); [|done]. by repeat case_match.
  - intros [= <- <-]. unfold leave_lobby.
    destruct (lobbies s !! c); [|done]. by repeat case_match.
  - intros [= <- <-]. unfold start_game.
    destruct (lobbies s !! c); [|done]. by case_decide.
  - destruct (cast_vote c uname vote s) as [s1|] eqn:E; simpl; [|done].
    intros [= <- <-]. by apply (same_registry_cast_vote _ _ _ _ _ E).
  - destruct (cast_revote c uname vote s) as [s1|] eqn:E; simpl; [|done].
    intros [= <- <-]. by apply (same_registry_cast_revote _ _ _ _ _ E).
  - intros [= <- <-]. apply (same_registry_syncGameStateToPlayer id c s).
  - intros [= <- <-]. apply (same_registry_restart_game id c s).
  - intros [= <- <-]. unfold disconnect.
    destruct (sockets s !! id) as [[[u|] [c|]]|]; try done.
    case_decide; [done|]. simpl.
    destruct (lobbies s !! c); [|done].
    destruct (find_participant _ _); [|done].
    destruct (game_active _); [done|]. case_decide; [|done].
    destruct (gameStates_get c _) as [[??]|]; simpl;
      by rewrite ?debateTopics_clear_timer.
  - destruct (timeouts s !! k) as [[ms t]|]; intros [= <- <-]; [|done].
    apply (same_registry_run_task rnd t (set_timeouts _ s)).
  - intros [= <- <-]. apply (same_registry_tick rnd i s).
  - intros [= <- <-]. apply debateTopics_reaper.
Qed.

Ltac registry_eq :=
  match goal with
  | |- debateTopics ?s' = debateTopics ?s0 =>
      let H := fresh in
      assert (same_registry s0 s') as H by frame; apply H
  end.

Lemma used_ok_untouched topics s s' :
  debateTopics s' = debateTopics s →
  untouched used s s' →
  used_ok topics s → used_ok topics s'.
Proof.
  intros Hd Hu [Ht Hok]. split; [congruence|].
  intros r g' Hg'. destruct (untouched_Some _ _ _ _ _ Hu Hg') as (g & Hg & Heq).
  unfold used in Heq. injection Heq as Ht' Hs'.
  unfold turns_ok. rewrite Ht', Hs'. by apply (Hok r g).
Qed.

Lemma used_ok_store topics s r g' :
  turns_ok topics g' → used_ok topics s → used_ok topics (store r g' s).
Proof.
  intros Hg' [Ht Hok]. split; [done|]. intros r' g0. simpl.
  destruct (decide (r = r')) as [<-|Hne].
  - rewrite lookup_insert_eq. by intros [= <-].
  - rewrite lookup_insert_ne by done. apply Hok.
Qed.

Lemma used_ok_startVotingPhase topics rnd c s :
  used_ok topics s → used_ok topics (startVotingPhase rnd c s).
Proof.
  intros Hok. unfold startVotingPhase. with_game c s; [|done].
  destruct (lobbies s !! c) as [l|]; [|done].
  case_decide.
  { eapply used_ok_untouched;
      [apply (same_registry_endGame c s)
      |apply ledger_used, ledger_endGame|done]. }
  destruct (_ !! random_index rnd _) as [t|] eqn:Ht; [|done].
  apply list_elem_of_lookup_2, list_elem_of_In, filter_In in Ht as [Hin Hun].
  apply list_elem_of_In in Hin.
  apply negb_true_iff, bool_decide_eq_false in Hun.
  destruct (proj2 Hok r g Hh) as (Hnd & Hsub & Hsp).
  match goal with
  | |- used_ok _ (startTimer _ _ _
                    (emit _ _ (emit _ _ (clear_timer _ (store r ?g1 s))))) =>
      apply (used_ok_untouched topics (store r g1 s))
  end; [registry_eq|keep|].
  apply used_ok_store; [|done].
  split; [|split]; simpl; [| |done].
  - apply NoDup_app. split; [done|]. split; [|apply NoDup_singleton].
    intros x Hx Hx'. apply list_elem_of_singleton in Hx' as ->. done.
  - intros x [Hx|Hx]%elem_of_app; [by apply Hsub|].
    apply list_elem_of_singleton in Hx as ->. by rewrite <- (proj1 Hok).
Qed.

Lemma speakers_unused l g u :
  availableSpeakers l g ≠ [] → u ∈ speakers l g → u ∉ usedSpeakers g.
Proof.
  intros Hne. unfold speakers. rewrite decide_False.
  - unfold availableSpeakers. intros Hu.
    apply list_elem_of_In, filter_In in Hu as [_ Hu].
    by apply negb_true_iff, bool_decide_eq_false in Hu.
  - by destruct (availableSpeakers l g).
Qed.

Lemma used_ok_startSoloPhase topics rnd c s :
  used_ok topics s → used_ok topics (startSoloPhase rnd c s).
Proof.
  intros Hok. unfold startSoloPhase. with_game c s; [|done].
  destruct (lobbies s !! c) as [l|]; [|done].
  change (speakers l (set_timer 60 (set_phase solo g)))
    with (speakers l g).
  change (availableSpeakers l (set_timer 60 (set_phase solo g)))
    with (availableSpeakers l g).
  destruct (proj2 Hok r g Hh) as (Hnd & Hsub & Hsp).
  set (g2 := if decide (length (availableSpeakers l g) = 0%nat)
             then set_usedSpeakers [] (set_timer 60 (set_phase solo g))
             else set_timer 60 (set_phase solo g)).
  assert (turns_ok topics g2) as Hg2.
  { unfold g2. case_decide; repeat split; simpl; try done. apply NoDup_nil_2. }
  case_decide as Hsp0.
  - apply (used_ok_untouched topics (store r g2 s));
      [apply same_registry_startDiscussionPhase
      |apply ledger_used, ledger_startDiscussionPhase
      |by apply used_ok_store].
  - destruct (speakers l g !! _) as [u|] eqn:Hu; [|by apply used_ok_store].
    apply list_elem_of_lookup_2 in Hu.
    match goal with
    | |- used_ok _ (startTimer _ _ _ (emit _ _ (emit _ _ (store r ?g3 s)))) =>
        apply (used_ok_untouched topics (store r g3 s))
    end; [registry_eq|keep|].
    apply used_ok_store; [|done].
    destruct Hg2 as (Hnd2 & Hsub2 & Hsp2).
    split; [done|]. split; [done|]. simpl.
    unfold g2. case_decide as Hav; simpl; [apply NoDup_singleton|].
    apply NoDup_app. split; [done|]. split; [|apply NoDup_singleton].
    intros x Hx Hx'. apply list_elem_of_singleton in Hx' as ->.
    eapply speakers_unused; [|done..].
    by destruct (availableSpeakers l g).
Qed.

Lemma used_ok_run_task topics rnd t s :
  used_ok topics s → used_ok topics (run_task rnd t s).
Proof.
  intros Hok.
  destruct t; simpl;
    [by apply used_ok_startVotingPhase| |by apply used_ok_startSoloPhase|..];
    (eapply used_ok_untouched; [|..|exact Hok];
     [match goal with
      | |- debateTopics ?s' = _ =>
          first [ apply (same_registry_processVoteResults c s)
                | apply (same_registry_startDiscussionPhase c s)
                | apply (same_registry_startRevotingPhase c s)
                | apply (same_registry_calculateResults c s)
                | apply (same_registry_showScoreboard c s)
                | apply (same_registry_skipNotice c voteResults s)
                | apply (same_registry_nextRound g c s)
                | apply (same_registry_syncGameStateToPlayer socketId c s) ]
      end
     |first [ apply used_calculateResults
            | apply ledger_used;
              auto using ledger_processVoteResults,
                ledger_startDiscussionPhase, ledger_startRevotingPhase,
                ledger_showScoreboard, ledger_skipNotice, ledger_nextRound,
                ledger_syncGameStateToPlayer ]]).
Qed.

Lemma turns_ok_fresh topics g :
  usedTopics g = [] → usedSpeakers g = [] → turns_ok topics g.
Proof.
  intros Ht Hs. unfold turns_ok. rewrite Ht, Hs.
  split; [apply NoDup_nil_2|]. split; [|apply NoDup_nil_2].
  by intros t ?%elem_of_nil.
Qed.

Lemma used_ok_step topics e s s' x :
  step e s = Some (s', x) →
  used_ok topics s → used_ok topics s'.
Proof.
  intros Hstep Hok. pose proof (debateTopics_step _ _ _ _ Hstep) as Hd.
  destruct e; simpl in Hstep.
  - injection Hstep as <- <-.
    eapply used_ok_untouched;
      [done|apply ledger_used, ledger_api_lobby_create|done].
  - injection Hstep as <- <-.
    eapply used_ok_untouched; [done|apply used_api_lobby_join|done].
  - injection Hstep as <- <-. done.
  - injection Hstep as <- <-.
    eapply used_ok_untouched; [done|apply ledger_used, ledger_join_lobby|done].
  - injection Hstep as <- <-.
    eapply used_ok_untouched;
      [done|apply ledger_used, ledger_leave_lobby|done].
  - injection Hstep as <- <-. unfold start_game in *.
    destruct (lobbies s !! c) as [l|]; [|done]. case_decide; [|done].
    exact (used_ok_store topics s (fresh_loc s) _
             (turns_ok_fresh topics
                (new_gameState (participants (set_gameStarted true l)))
                eq_refl eq_refl) Hok).
  - destruct (cast_vote c uname vote s) as [s1|] eqn:E; simpl in Hstep; [|done].
    injection Hstep as <- <-.
    eapply used_ok_untouched;
      [done|by eapply ledger_used, ledger_cast_vote|done].
  - destruct (cast_revote c uname vote s) as [s1|] eqn:E; simpl in Hstep;
      [|done].
    injection Hstep as <- <-.
    eapply used_ok_untouched;
      [done|by eapply ledger_used, ledger_cast_revote|done].
  - injection Hstep as <- <-.
    eapply used_ok_untouched;
      [done|apply ledger_used, ledger_syncGameStateToPlayer|done].
  - injection Hstep as <- <-. unfold restart_game in *.
    destruct (lobbies s !! c) as [l|]; [|done].
    with_game c s; [|done]. case_decide; [|done].
    match goal with
    | |- used_ok _ (setTimeout _ _ (emit _ _ (clear_timer _ (store r ?g1 s)))) =>
        apply (used_ok_untouched topics (store r g1 s))
    end; [registry_eq|keep|].
    apply used_ok_store; [by apply turns_ok_fresh|done].
  - injection Hstep as <- <-.
    eapply used_ok_untouched; [done|apply ledger_used, ledger_disconnect|done].
  - destruct (timeouts s !! k) as [[ms t]|]; injection Hstep as <- <-;
      [|done].
    by apply used_ok_run_task.
  - injection Hstep as <- <-. unfold tick.
    pose proof (ledger_used _ _ (ledger_tick_body i s)) as Hu.
    pose proof (same_registry_tick_body i s) as (Hd' & _).
    destruct (tick_body i s) as [s1 [cb|]]; simpl in Hu, Hd'.
    + apply used_ok_run_task.
      by eapply used_ok_untouched.
    + by eapply used_ok_untouched.
  - injection Hstep as <- <-.
    eapply used_ok_untouched; [done|apply ledger_used, ledger_reaper|done].
Qed.

Lemma used_ok_run topics es s s' xs :
  run es s = Some (s', xs) →
  used_ok topics s → used_ok topics s'.
Proof.
  revert s s' xs. induction es as [|e es IH]; intros s s' xs; simpl.
  - by intros [= <- <-].
  - destruct (step e s) as [[s1 x]|] eqn:E; simpl; [|done].
    destruct (run es s1) as [[s2 ys]|] eqn:E'; simpl; [|done].
    intros [= <- <-] Hok. eapply IH; [done|]. by eapply used_ok_step.
Qed.

Lemma used_ok_init topics : used_ok topics (init topics).
Proof.
  split; [done|]. intros r' g' H. simpl in H. by rewrite lookup_empty in H.
Qed.

(** X5.  Within a game no topic is used twice: in every state the server can
    reach, the used topics of every game state are distinct topics of the
    loaded list. *)
Theorem topics_are_never_repeated (topics : list string) (es : list input)
    (s : server) (xs : list (nat * task)) (r : loc) (g : gameState) :
  run es (init topics) = Some (s, xs) →
  heap s !! r = Some g →
  NoDup (usedTopics g) ∧ ∀ t, t ∈ usedTopics g → t ∈ topics.
Proof.
  intros Hrun Hg.
  destruct (used_ok_run topics _ _ _ _ Hrun (used_ok_init topics))
    as [_ Hok].
  destruct (Hok r g Hg) as (? & ? & ?). done.
Qed.

Lemma topics_are_never_repeated_witness :
  NoDup (usedTopics game_after_four_players_revoting).
Proof.
  destruct scenarios_reached as (_ & _ & _ & _ & _ & Hrun & _).
  eapply (topics_are_never_repeated topics _ _ _ 0%nat _ Hrun). closed.
Defined.

(** X6.  Speakers take turns: in every state the server can reach, no name
    is twice among the used speakers of a game state, so nobody speaks a
    second time before the list is reset. *)
Theorem speakers_take_turns (topics : list string) (es : list input)
    (s : server) (xs : list (nat * task)) (r : loc) (g : gameState) :
  run es (init topics) = Some (s, xs) →
  heap s !! r = Some g →
  NoDup (usedSpeakers g).
Proof.
  intros Hrun Hg.
  destruct (used_ok_run topics _ _ _ _ Hrun (used_ok_init topics))
    as [_ Hok].
  destruct (Hok r g Hg) as (? & ? & ?). done.
Qed.

Lemma speakers_take_turns_witness :
  NoDup (usedSpeakers game_after_four_players_revoting).
Proof.
  destruct scenarios_reached as (_ & _ & _ & _ & _ & Hrun & _).
  eapply (speakers_take_turns topics _ _ _ 0%nat _ Hrun). closed.
Defined.

(** ** Scores of the roster *)

Lemma zero_scores_spec ps sc u :
  zero_scores ps sc !! u
  = if bool_decide (u ∈ username <$> ps)
    then if bool_decide (u = "__proto__" ∧ sc !! u = None) then None
         else Some (Int 0)
    else sc !! u.
Proof.
  unfold zero_scores. revert sc. induction ps as [|p ps IH]; intros sc.
  - done.
  - rewrite fmap_cons. simpl. rewrite IH.
    destruct (decide (u = username p)) as [->|Hne].
    + rewrite (bool_decide_eq_true_2 (_ ∈ _ :: _)) by by left.
      rewrite lookup_js_set_eq.
      destruct (decide (username p ∈ username <$> ps)) as [Hin|Hout].
      * rewrite (bool_decide_eq_true_2 (_ ∈ username <$> ps)) by done.
        destruct (sc !! username p) as [n|] eqn:Hsc.
        -- rewrite (bool_decide_eq_false_2 (_ ∧ Some n = None))
             by (by intros [_ ?]).
           by rewrite bool_decide_eq_false_2 by (by intros [_ ?]).
        -- destruct (decide (username p = "__proto__")) as [Hp|Hp].
           ++ rewrite (bool_decide_eq_true_2 (_ ∧ None = None)) by done.
              by rewrite bool_decide_eq_true_2.
           ++ rewrite (bool_decide_eq_false_2 (_ ∧ None = None))
                by (by intros [? _]).
              by rewrite bool_decide_eq_false_2 by (by intros [? _]).
      * by rewrite (bool_decide_eq_false_2 (_ ∈ username <$> ps)) by done.
    + rewrite lookup_js_set_ne by done.
      destruct (decide (u ∈ username <$> ps)) as [Hin|Hout].
      * rewrite (bool_decide_eq_true_2 (u ∈ username <$> ps)) by done.
        by rewrite (bool_decide_eq_true_2 (u ∈ _ :: _)) by by right.
      * rewrite (bool_decide_eq_false_2 (u ∈ username <$> ps)) by done.
        rewrite (bool_decide_eq_false_2 (u ∈ _ :: _)); [done|].
        by intros [?|?]%elem_of_cons.
Qed.

(** Setting the scores of a roster gives every member but [__proto__] a
    zero of its own. *)
Lemma zero_scores_member ps sc u :
  u ∈ username <$> ps → u ≠ "__proto__" →
  zero_scores ps sc !! u = Some (Int 0).
Proof.
  intros Hin Hne. rewrite zero_scores_spec.
  rewrite bool_decide_eq_true_2 by done.
  by rewrite bool_decide_eq_false_2 by (by intros [? _]).
Qed.

(** Nothing is stored under [__proto__] in scores that had no such
    property. *)
Lemma zero_scores_proto ps sc :
  sc !! "__proto__" = None → zero_scores ps sc !! "__proto__" = None.
Proof.
  intros Hnone. rewrite zero_scores_spec. case_bool_decide; [|done].
  by rewrite bool_decide_eq_true_2.
Qed.

Lemma books_ok_shrinks s s' :
  registry_ok s' → shrinks s s' → untouched scores s s' →
  books_ok s → books_ok s'.
Proof.
  intros Hreg [Hsub Hros] Hu (_ & [Hheap Hinj] & Hsc).
  split; [done|]. split; [split|].
  - intros c r Hr. eapply lookup_weaken in Hr; [|done].
    destruct (Hheap c r Hr) as [g Hg].
    destruct (untouched_Some_inv _ _ _ _ _ Hu Hg) as (g' & Hg' & _).
    by exists g'.
  - intros c c' r H1 H2. eapply Hinj; eapply lookup_weaken; done.
  - intros c l' r g' u Hl' Hg' Hin Hnp.
    apply gameStates_get_Some in Hg' as [Hr Hh].
    destruct (Hros c l' Hl') as (l & Hl & Hsubl); [by eexists|].
    destruct (untouched_Some _ _ _ _ _ Hu Hh) as (g & Hg & Heq).
    rewrite Heq. eapply (Hsc c l r g); [done| |by apply Hsubl|done].
    apply gameStates_get_Some. split; [|done]. by eapply lookup_weaken.
Qed.

Lemma shrinks_view s s' :
  gameStates s' = gameStates s → lobbies s' = lobbies s → shrinks s s'.
Proof.
  intros Hg Hl. split; [by rewrite Hg|].
  intros c l' Hl' _. rewrite Hl in Hl'. by exists l'.
Qed.

Lemma shrinks_same s s' : same_registry s s' → shrinks s s'.
Proof. intros (_ & Hl & Hg & _). by apply shrinks_view. Qed.

Lemma shrinks_trans s1 s2 s3 : shrinks s1 s2 → shrinks s2 s3 → shrinks s1 s3.
Proof.
  intros [Hg12 Hl12] [Hg23 Hl23]. split; [by etrans|].
  intros c l3 Hl3 Hsome.
  destruct (Hl23 c l3 Hl3 Hsome) as (l2 & Hl2 & Hsub2).
  destruct (Hl12 c l2 Hl2) as (l1 & Hl1 & Hsub1).
  { destruct Hsome as [r Hr]. exists r. by eapply lookup_weaken. }
  exists l1. split; [done|]. by etrans.
Qed.

Lemma books_ok_frame s s' :
  same_registry s s' → untouched scores s s' → books_ok s → books_ok s'.
Proof.
  intros Hsame Hu Hok. apply (books_ok_shrinks s); [|by apply shrinks_same|done..].
  eapply registry_ok_frame; [done|apply Hok].
Qed.

(** A change of the roster of one lobby to names it had already. *)
Lemma shrinks_roster s s' c l l1 :
  lobbies s !! c = Some l →
  usernames l1 ⊆ usernames l →
  gameStates s' = gameStates s →
  lobbies s' = <[c := l1]> (lobbies s) →
  shrinks s s'.
Proof.
  intros Hl Hsub Hg Hl'. split; [by rewrite Hg|].
  intros c' l' Hc' _. rewrite Hl' in Hc'.
  destruct (decide (c = c')) as [<-|Hne].
  - rewrite lookup_insert_eq in Hc'. injection Hc' as <-. by exists l.
  - rewrite lookup_insert_ne in Hc' by done. by exists l'.
Qed.

(** The removal of a lobby and of its game state. *)
Lemma shrinks_close s s' c l1 :
  gameStates s' = delete c (gameStates s) →
  lobbies s' = delete c (<[c := l1]> (lobbies s)) →
  shrinks s s'.
Proof.
  intros Hg Hl'. split; [rewrite Hg; apply delete_subseteq|].
  intros c' l' Hc' _. rewrite Hl' in Hc'.
  apply lookup_delete_Some in Hc' as [Hne Hc'].
  rewrite lookup_insert_ne in Hc' by done. by exists l'.
Qed.

Lemma usernames_set_connected u b l :
  usernames (set_participants (set_connected u b (participants l)) l)
  = usernames l.
Proof. unfold usernames. simpl. apply set_connected_usernames. Qed.

Lemma usernames_remove_participant u l :
  usernames (set_participants (remove_participant u (participants l)) l)
  ⊆ usernames l.
Proof.
  unfold usernames. simpl. intros x (p & -> & Hp)%list_elem_of_fmap.
  apply elem_of_remove_participant in Hp as [Hp _].
  by apply list_elem_of_fmap_2.
Qed.

Lemma shrinks_api_lobby_create u newCode now s :
  registry_ok s →
  lobbies s !! newCode = None →
  shrinks s (api_lobby_create u newCode now s).1.
Proof.
  intros [_ Hgs] Hnone. unfold api_lobby_create.
  case_decide; simpl; [by apply shrinks_view|].
  split; [done|]. simpl. intros c l' Hl' Hsome.
  destruct (decide (newCode = c)) as [<-|Hne].
  - destruct (Hgs newCode Hsome) as [l Hl]. congruence.
  - rewrite lookup_insert_ne in Hl' by done. by exists l'.
Qed.

Lemma shrinks_join_lobby id c u s : shrinks s (join_lobby id c u s).
Proof.
  unfold join_lobby. simpl.
  destruct (lobbies s !! c) as [l|] eqn:Hl; [|by apply shrinks_view].
  set (l1 := match find_participant u (participants l) with
             | Some _ => _ | None => _ end).
  assert (usernames l1 ⊆ usernames l) as Hsub.
  { unfold l1. destruct (find_participant u (participants l)); [|done].
    by rewrite usernames_set_connected. }
  repeat case_match; by eapply (shrinks_roster s _ c l l1).
Qed.

Lemma shrinks_leave_lobby c u now s : shrinks s (leave_lobby c u now s).
Proof.
  unfold leave_lobby.
  destruct (lobbies s !! c) as [l|] eqn:Hl; [|by apply shrinks_view].
  destruct (game_active _).
  - destruct (find_participant u (participants l)); [|by apply shrinks_view].
    eapply (shrinks_roster s _ c l); [done| |done..].
    by rewrite usernames_set_connected.
  - case_decide.
    + by eapply shrinks_close.
    + eapply (shrinks_roster s _ c l); [done| |done..].
      apply usernames_remove_participant.
Qed.

Lemma shrinks_disconnect id now s : shrinks s (disconnect id now s).
Proof.
  unfold disconnect.
  destruct (sockets s !! id) as [[[u|] [c|]]|]; try by apply shrinks_view.
  case_decide; [by apply shrinks_view|]. simpl.
  destruct (lobbies s !! c) as [l|] eqn:Hl; [|by apply shrinks_view].
  destruct (find_participant u (participants l)); [|by apply shrinks_view].
  destruct (game_active _).
  - eapply (shrinks_roster s _ c l); [done| |done..].
    by rewrite usernames_set_connected.
  - case_decide.
    + destruct (gameStates_get c _) as [[r g]|]; simpl.
      * eapply shrinks_close; simpl;
          by rewrite ?gameStates_clear_timer, ?lobbies_clear_timer.
      * by eapply shrinks_close.
    + eapply (shrinks_roster s _ c l); [done| |done..].
      apply usernames_remove_participant.
Qed.

Lemma shrinks_reaper now s : shrinks s (reaper now s).
Proof.
  unfold reaper. generalize (map_to_list (disconnectedPlayers s)).
  intros l. revert s.
  induction l as [|e l IH]; intros s; [by apply shrinks_view|].
  simpl. eapply shrinks_trans; [|apply IH].
  destruct e as [u [c t]]. unfold reap_one.
  case_decide; [|by apply shrinks_view].
  destruct (lobbies s !! c) as [l0|] eqn:Hl; [|by apply shrinks_view].
  eapply (shrinks_roster s _ c l0); [done| |done..].
  apply usernames_remove_participant.
Qed.

(** A write to the game-state object of one code that leaves the roster of
    that code with numbers for scores. *)
Lemma books_ok_update s s' c l r g :
  same_registry s s' →
  lobbies s !! c = Some l →
  gameStates s !! c = Some r →
  heap s !! r = Some g →
  (∀ r', r' ≠ r → heap s' !! r' = heap s !! r') →
  (∀ u z, u ∈ usernames l → u ≠ "__proto__" →
          scores g !! u = Some (Int z) →
          ∃ g' z', heap s' !! r = Some g' ∧ scores g' !! u = Some (Int z')) →
  is_Some (heap s' !! r) →
  books_ok s → books_ok s'.
Proof.
  intros Hsame Hl Hr Hg Hother Hnew Hsome (Hreg & [Hheap Hinj] & Hsc).
  pose proof Hsame as (_ & Hls & Hgs & _).
  split; [by eapply registry_ok_frame|]. split; [split|].
  - intros c' r'. rewrite Hgs. intros Hr'.
    destruct (decide (r' = r)) as [->|Hne]; [done|].
    rewrite Hother by done. by eapply Hheap.
  - rewrite Hgs. apply Hinj.
  - intros c' l' r' g' u Hl' Hg' Hin Hnp.
    apply gameStates_get_Some in Hg' as [Hr' Hh']. rewrite Hls in Hl'.
    rewrite Hgs in Hr'.
    destruct (decide (r' = r)) as [->|Hne].
    + assert (c' = c) as -> by by eapply Hinj.
      assert (l' = l) as -> by congruence.
      destruct (Hsc c l r g u Hl) as [z Hz]; [|done..|].
      { by apply gameStates_get_Some. }
      destruct (Hnew u z Hin Hnp Hz) as (g0 & z' & Hg0 & Hz').
      exists z'. congruence.
    + rewrite Hother in Hh' by done.
      eapply (Hsc c' l' r' g'); [done| |done..].
      by apply gameStates_get_Some.
Qed.

Lemma books_ok_calculateResults c s :
  books_ok s → books_ok (calculateResults c s).
Proof.
  intros Hok. destruct (gameStates_get c s) as [[r g]|] eqn:Hg; cycle 1.
  { unfold calculateResults. by rewrite Hg. }
  destruct (lobbies s !! c) as [l|] eqn:Hl; cycle 1.
  { unfold calculateResults. by rewrite Hg, Hl. }
  pose proof (calculateResults_state c s r g l Hg Hl) as Hst.
  apply gameStates_get_Some in Hg as Hg'. destruct Hg' as [Hr Hh].
  eapply (books_ok_update s _ c l r g);
    [apply same_registry_calculateResults|done..| | | |done].
  - intros r' Hne. unfold calculateResults. rewrite Hg, Hl.
    destruct (winner _ _) as [team pts]. simpl.
    by rewrite lookup_insert_ne.
  - intros u z (p & -> & Hp)%list_elem_of_fmap _ Hz.
    destruct (calculateResults_score c s r g l p z Hg Hl) as (g' & ? & ?);
      [|done..|by eexists _, _].
    by destruct (proj1 (proj1 Hok) c l Hl) as [_ [Hnd _]].
  - by eexists.
Qed.

Lemma books_ok_restart_game id c s :
  books_ok s → books_ok (restart_game id c s).
Proof.
  intros Hok. unfold restart_game.
  destruct (lobbies s !! c) as [l|] eqn:Hl; [|done].
  with_game c s; [|done]. case_decide; [|done].
  eapply (books_ok_update s _ c l r g); [frame|done..| | | |done].
  - intros r' Hne. simpl. rewrite heap_clear_timer. simpl.
    by rewrite lookup_insert_ne.
  - intros u z Hu Hnp _. eexists _, 0. simpl. rewrite heap_clear_timer.
    simpl. rewrite lookup_insert_eq. split; [done|]. simpl.
    by apply zero_scores_member.
  - simpl. rewrite heap_clear_timer. simpl. rewrite lookup_insert_eq.
    by eexists.
Qed.

Lemma books_ok_start_game c u s : books_ok s → books_ok (start_game c u s).
Proof.
  intros Hok. pose proof (registry_ok_start_game c u s (proj1 Hok)) as Hreg.
  unfold start_game in *.
  destruct (lobbies s !! c) as [l|] eqn:Hl; [|done]. case_decide; [|done].
  destruct Hok as (_ & [Hheap Hinj] & Hsc).
  pose proof (fresh_loc_unused s) as Hfresh.
  assert (∀ c' r', gameStates s !! c' = Some r' → r' ≠ fresh_loc s) as Hold.
  { intros c' r' Hr' ->. destruct (Hheap c' _ Hr') as [g Hg]. congruence. }
  split; [done|]. split; [split|]; simpl.
  - intros c' r'. destruct (decide (c = c')) as [<-|Hne].
    + rewrite lookup_insert_eq. intros [= <-].
      rewrite lookup_insert_eq. by eexists.
    + rewrite lookup_insert_ne by done. intros Hr'.
      rewrite lookup_insert_ne; [by eapply Hheap|].
      intros Heq. by eapply Hold.
  - intros c1 c2 r0.
    destruct (decide (c = c1)) as [<-|Hne1];
      destruct (decide (c = c2)) as [<-|Hne2]; [done|..].
    + rewrite lookup_insert_eq, lookup_insert_ne by done.
      intros [= <-] H2. by destruct (Hold _ _ H2).
    + rewrite lookup_insert_eq, lookup_insert_ne by done.
      intros H1 [= <-]. by destruct (Hold _ _ H1).
    + rewrite !lookup_insert_ne by done. apply Hinj.
  - intros c' l' r' g' u' Hl' Hg' Hin Hnp.
    apply gameStates_get_Some in Hg' as [Hr' Hh']. simpl in *.
    destruct (decide (c = c')) as [<-|Hne].
    + rewrite lookup_insert_eq in Hl'. rewrite lookup_insert_eq in Hr'.
      injection Hl' as <-. injection Hr' as <-.
      rewrite lookup_insert_eq in Hh'. injection Hh' as <-.
      exists 0. simpl. by apply zero_scores_member.
    + rewrite lookup_insert_ne in Hl' by done.
      rewrite lookup_insert_ne in Hr' by done.
      rewrite lookup_insert_ne in Hh' by (intros Heq; by eapply Hold).
      eapply (Hsc c' l' r' g'); [done| |done..].
      by apply gameStates_get_Some.
Qed.

Lemma books_ok_api_lobby_join c u s :
  books_ok s → books_ok (api_lobby_join c u s).1.
Proof.
  intros Hok. pose proof (registry_ok_api_lobby_join c u s (proj1 Hok)) as Hreg.
  unfold api_lobby_join in *. case_decide; [done|].
  destruct (lobbies s !! c) as [l|] eqn:Hl; [|done].
  destruct (find_participant u (participants l)) eqn:Hfind.
  { simpl. apply (books_ok_shrinks s); [done| |keep|done].
    eapply (shrinks_roster s _ c l); [done| |done..].
    by rewrite usernames_set_connected. }
  simpl in *. destruct Hok as (_ & [Hheap Hinj] & Hsc).
  unfold gameStates_get in *. simpl in *.
  destruct (gameStates s !! c) as [r|] eqn:Hr; simpl in *; cycle 1.
  { split; [done|]. split; [done|]. intros c' l' r' g' u' Hl' Hg' Hin Hnp.
    simpl in *. destruct (decide (c = c')) as [<-|Hne].
    - unfold gameStates_get in Hg'. simpl in Hg'. by rewrite Hr in Hg'.
    - rewrite lookup_insert_ne in Hl' by done. by eapply (Hsc c' l' r' g'). }
  destruct (Hheap c r Hr) as [g Hg]. rewrite Hg in *. simpl in *.
  split; [done|]. split; [split|]; simpl.
  - intros c' r' Hr'. apply lookup_insert_is_Some'. right. by eapply Hheap.
  - done.
  - intros c' l' r' g' u' Hl' Hg' Hin Hnp.
    apply gameStates_get_Some in Hg' as [Hr' Hh']. simpl in *.
    destruct (decide (c = c')) as [<-|Hne].
    + rewrite lookup_insert_eq in Hl'. injection Hl' as <-.
      assert (r' = r) as -> by congruence.
      rewrite lookup_insert_eq in Hh'. injection Hh' as <-. simpl.
      destruct (decide (u' = u)) as [->|Hneu].
      * exists 0. by apply lookup_js_set_plain.
      * rewrite lookup_js_set_ne by done.
        eapply (Hsc c l r g); [done|by apply gameStates_get_Some| |done].
        unfold usernames in *. simpl in Hin. rewrite fmap_app in Hin.
        apply elem_of_app in Hin as [Hin|Hin]; [done|].
        by apply list_elem_of_singleton in Hin.
    + rewrite lookup_insert_ne in Hl' by done.
      assert (r' ≠ r) as Hner.
      { intros ->. apply Hne. by eapply Hinj. }
      rewrite lookup_insert_ne in Hh' by done.
      eapply (Hsc c' l' r' g'); [done|by apply gameStates_get_Some|done..].
Qed.

Lemma books_ok_run_task rnd t s : books_ok s → books_ok (run_task rnd t s).
Proof.
  intros Hok. destruct t; simpl.
  - eapply books_ok_frame; [apply same_registry_startVotingPhase| |done].
    eapply untouched_weaken; [|apply scores_startVotingPhase]. congruence.
  - eapply books_ok_frame;
      [apply same_registry_processVoteResults
      |apply ledger_scores, ledger_processVoteResults|done].
  - eapply books_ok_frame; [apply same_registry_startSoloPhase| |done].
    eapply untouched_weaken; [|apply scores_startSoloPhase]. congruence.
  - eapply books_ok_frame;
      [apply same_registry_startDiscussionPhase
      |apply ledger_scores, ledger_startDiscussionPhase|done].
  - eapply books_ok_frame;
      [apply same_registry_startRevotingPhase
      |apply ledger_scores, ledger_startRevotingPhase|done].
  - by apply books_ok_calculateResults.
  - eapply books_ok_frame;
      [apply same_registry_showScoreboard
      |apply ledger_scores, ledger_showScoreboard|done].
  - eapply books_ok_frame;
      [apply same_registry_skipNotice
      |apply ledger_scores, ledger_skipNotice|done].
  - eapply books_ok_frame;
      [apply same_registry_nextRound
      |apply ledger_scores, ledger_nextRound|done].
  - eapply books_ok_frame;
      [apply same_registry_syncGameStateToPlayer
      |apply ledger_scores, ledger_syncGameStateToPlayer|done].
Qed.

Lemma books_ok_step e s s' x :
  match e with
  | http_create _ newCode _ => lobbies s !! newCode = None
  | _ => True
  end →
  step e s = Some (s', x) →
  books_ok s → books_ok s'.
Proof.
  intros Hfresh Hstep Hok. destruct e; simpl in Hstep.
  - injection Hstep as <- <-. apply (books_ok_shrinks s); [| | |done].
    + apply registry_ok_api_lobby_create, Hok.
    + apply shrinks_api_lobby_create; [apply Hok|done].
    + apply ledger_scores, ledger_api_lobby_create.
  - injection Hstep as <- <-. by apply books_ok_api_lobby_join.
  - injection Hstep as <- <-. done.
  - injection Hstep as <- <-. apply (books_ok_shrinks s); [| | |done].
    + apply registry_ok_join_lobby, Hok.
    + apply shrinks_join_lobby.
    + apply ledger_scores, ledger_join_lobby.
  - injection Hstep as <- <-. apply (books_ok_shrinks s); [| | |done].
    + apply registry_ok_leave_lobby, Hok.
    + apply shrinks_leave_lobby.
    + apply ledger_scores, ledger_leave_lobby.
  - injection Hstep as <- <-. by apply books_ok_start_game.
  - destruct (cast_vote c uname vote s) as [s1|] eqn:E; simpl in Hstep; [|done].
    injection Hstep as <- <-.
    eapply books_ok_frame;
      [by eapply same_registry_cast_vote
      |by eapply ledger_scores, ledger_cast_vote|done].
  - destruct (cast_revote c uname vote s) as [s1|] eqn:E; simpl in Hstep;
      [|done].
    injection Hstep as <- <-.
    eapply books_ok_frame;
      [by eapply same_registry_cast_revote
      |by eapply ledger_scores, ledger_cast_revote|done].
  - injection Hstep as <- <-.
    eapply books_ok_frame;
      [apply same_registry_syncGameStateToPlayer
      |apply ledger_scores, ledger_syncGameStateToPlayer|done].
  - injection Hstep as <- <-. by apply books_ok_restart_game.
  - injection Hstep as <- <-. apply (books_ok_shrinks s); [| | |done].
    + apply registry_ok_disconnect, Hok.
    + apply shrinks_disconnect.
    + apply ledger_scores, ledger_disconnect.
  - destruct (timeouts s !! k) as [[ms t]|]; injection Hstep as <- <-;
      [|done].
    by apply books_ok_run_task.
  - injection Hstep as <- <-. unfold tick.
    pose proof (ledger_scores _ _ (ledger_tick_body i s)) as Hu.
    pose proof (same_registry_tick_body i s) as Hsame.
    destruct (tick_body i s) as [s1 [cb|]]; simpl in Hu, Hsame.
    + apply books_ok_run_task. by eapply books_ok_frame.
    + by eapply books_ok_frame.
  - injection Hstep as <- <-. apply (books_ok_shrinks s); [| | |done].
    + apply registry_ok_reaper, Hok.
    + apply shrinks_reaper.
    + apply ledger_scores, ledger_reaper.
Qed.

Lemma books_ok_run es s s' xs :
  fresh_codes es s →
  run es s = Some (s', xs) →
  books_ok s → books_ok s'.
Proof.
  revert s s' xs. induction es as [|e es IH]; intros s s' xs; simpl.
  - by intros _ [= <- <-].
  - intros [Hfresh Hrest].
    destruct (step e s) as [[s1 x]|] eqn:E; simpl; [|done].
    destruct (run es s1) as [[s2 ys]|] eqn:E'; simpl; [|done].
    intros [= <- <-] Hok. eapply IH; [done..|]. by eapply books_ok_step.
Qed.

Lemma books_ok_init topics : books_ok (init topics).
Proof.
  split; [apply registry_ok_init|]. split; [split|].
  - intros c r H. simpl in H. by rewrite lookup_empty in H.
  - intros c c' r H. simpl in H. by rewrite lookup_empty in H.
  - intros c l r g u H. simpl in H. by rewrite lookup_empty in H.
Qed.

(** *** Nothing is stored under [__proto__] *)

Lemma lookup_js_set_proto_None {A} (m : gmap string A) k a :
  m !! "__proto__" = None → js_set k a m !! "__proto__" = None.
Proof.
  intros Hm. destruct (decide (k = "__proto__")) as [->|Hne].
  - by rewrite js_set_proto.
  - by rewrite lookup_js_set_ne.
Qed.

Lemma award_proto ps rv side pts m :
  m !! "__proto__" = None → award ps rv side pts m !! "__proto__" = None.
Proof.
  unfold award. revert m. induction ps as [|p ps IH]; intros m Hm; [done|].
  simpl. apply IH. case_bool_decide; [|done].
  by apply lookup_js_set_proto_None.
Qed.

Lemma awardPoints_proto ps rv team pts m :
  m !! "__proto__" = None →
  awardPoints ps rv team pts m !! "__proto__" = None.
Proof.
  intros Hm. unfold awardPoints. destruct team as [|side ?]; [done|].
  case_decide; [|done]. by apply award_proto.
Qed.

Lemma penalize_proto ps rv m :
  m !! "__proto__" = None → penalize ps rv m !! "__proto__" = None.
Proof.
  unfold penalize. revert m. induction ps as [|p ps IH]; intros m Hm; [done|].
  simpl. apply IH.
  destruct (connected p && negb (truthy (js_get rv (username p)))); [|done].
  by apply lookup_js_set_proto_None.
Qed.

Lemma plain_scores_untouched s s' :
  untouched scores s s' → plain_scores s → plain_scores s'.
Proof.
  intros Hu Hok r g' Hg'.
  destruct (untouched_Some _ _ _ _ _ Hu Hg') as (g & Hg & Heq).
  rewrite Heq. by eapply Hok.
Qed.

Lemma plain_scores_calculateResults c s :
  plain_scores s → plain_scores (calculateResults c s).
Proof.
  intros Hok. destruct (gameStates_get c s) as [[r g]|] eqn:Hg; cycle 1.
  { unfold calculateResults. by rewrite Hg. }
  destruct (lobbies s !! c) as [l|] eqn:Hl; cycle 1.
  { unfold calculateResults. by rewrite Hg, Hl. }
  pose proof (calculateResults_state c s r g l Hg Hl) as Hst.
  apply gameStates_get_Some in Hg as Hg'. destruct Hg' as [Hr Hh].
  intros r' g' Hg'. destruct (decide (r' = r)) as [->|Hne].
  - rewrite Hst in Hg'. injection Hg' as <-. simpl.
    apply penalize_proto, awardPoints_proto. by eapply Hok.
  - revert Hg'. unfold calculateResults. rewrite Hg, Hl.
    destruct (winner _ _) as [team pts]. simpl.
    rewrite lookup_insert_ne by done. apply Hok.
Qed.

Lemma plain_scores_restart_game id c s :
  plain_scores s → plain_scores (restart_game id c s).
Proof.
  intros Hok. unfold restart_game.
  destruct (lobbies s !! c) as [l|] eqn:Hl; [|done].
  with_game c s; [|done]. case_decide; [|done].
  intros r' g'. simpl. rewrite heap_clear_timer. simpl.
  destruct (decide (r' = r)) as [->|Hne].
  - rewrite lookup_insert_eq. intros [= <-]. simpl.
    apply zero_scores_proto. by eapply Hok.
  - rewrite lookup_insert_ne by done. apply Hok.
Qed.

Lemma plain_scores_start_game c u s :
  plain_scores s → plain_scores (start_game c u s).
Proof.
  intros Hok. unfold start_game.
  destruct (lobbies s !! c) as [l|] eqn:Hl; [|done]. case_decide; [|done].
  intros r' g'. simpl.
  destruct (decide (r' = fresh_loc s)) as [->|Hne].
  - rewrite lookup_insert_eq. intros [= <-]. simpl.
    by apply zero_scores_proto.
  - rewrite lookup_insert_ne by done. apply Hok.
Qed.

Lemma plain_scores_api_lobby_join c u s :
  plain_scores s → plain_scores (api_lobby_join c u s).1.
Proof.
  intros Hok. unfold api_lobby_join. case_decide; [done|].
  destruct (lobbies s !! c) as [l|] eqn:Hl; [|done].
  destruct (find_participant u (participants l)); [done|]. simpl.
  unfold gameStates_get. simpl.
  destruct (gameStates s !! c) as [r|]; simpl; [|done].
  destruct (heap s !! r) as [g|] eqn:Hg; simpl; [|done].
  intros r' g'. simpl. destruct (decide (r' = r)) as [->|Hne].
  - rewrite lookup_insert_eq. intros [= <-]. simpl.
    apply lookup_js_set_proto_None. by eapply Hok.
  - rewrite lookup_insert_ne by done. apply Hok.
Qed.

Lemma plain_scores_run_task rnd t s :
  plain_scores s → plain_scores (run_task rnd t s).
Proof.
  intros Hok. destruct t; simpl;
    try (by apply plain_scores_calculateResults);
    (eapply plain_scores_untouched; [|done]).
  - eapply untouched_weaken; [|apply scores_startVotingPhase]. congruence.
  - apply ledger_scores, ledger_processVoteResults.
  - eapply untouched_weaken; [|apply scores_startSoloPhase]. congruence.
  - apply ledger_scores, ledger_startDiscussionPhase.
  - apply ledger_scores, ledger_startRevotingPhase.
  - apply ledger_scores, ledger_showScoreboard.
  - apply ledger_scores, ledger_skipNotice.
  - apply ledger_scores, ledger_nextRound.
  - apply ledger_scores, ledger_syncGameStateToPlayer.
Qed.

Lemma plain_scores_step e s s' x :
  step e s = Some (s', x) → plain_scores s → plain_scores s'.
Proof.
  intros Hstep Hok. destruct e; simpl in Hstep.
  - injection Hstep as <- <-. eapply plain_scores_untouched; [|done].
    apply ledger_scores, ledger_api_lobby_create.
  - injection Hstep as <- <-. by apply plain_scores_api_lobby_join.
  - injection Hstep as <- <-. done.
  - injection Hstep as <- <-. eapply plain_scores_untouched; [|done].
    apply ledger_scores, ledger_join_lobby.
  - injection Hstep as <- <-. eapply plain_scores_untouched; [|done].
    apply ledger_scores, ledger_leave_lobby.
  - injection Hstep as <- <-. by apply plain_scores_start_game.
  - destruct (cast_vote c uname vote s) as [s1|] eqn:E; simpl in Hstep; [|done].
    injection Hstep as <- <-. eapply plain_scores_untouched; [|done].
    by eapply ledger_scores, ledger_cast_vote.
  - destruct (cast_revote c uname vote s) as [s1|] eqn:E; simpl in Hstep;
      [|done].
    injection Hstep as <- <-. eapply plain_scores_untouched; [|done].
    by eapply ledger_scores, ledger_cast_revote.
  - injection Hstep as <- <-. eapply plain_scores_untouched; [|done].
    apply ledger_scores, ledger_syncGameStateToPlayer.
  - injection Hstep as <- <-. by apply plain_scores_restart_game.
  - injection Hstep as <- <-. eapply plain_scores_untouched; [|done].
    apply ledger_scores, ledger_disconnect.
  - destruct (timeouts s !! k) as [[ms t]|]; injection Hstep as <- <-;
      [|done].
    by apply plain_scores_run_task.
  - injection Hstep as <- <-. unfold tick.
    pose proof (ledger_scores _ _ (ledger_tick_body i s)) as Hu.
    destruct (tick_body i s) as [s1 [cb|]]; simpl in Hu.
    + apply plain_scores_run_task. by eapply plain_scores_untouched.
    + by eapply plain_scores_untouched.
  - injection Hstep as <- <-. eapply plain_scores_untouched; [|done].
    apply ledger_scores, ledger_reaper.
Qed.

Lemma plain_scores_run es s s' xs :
  run es s = Some (s', xs) → plain_scores s → plain_scores s'.
Proof.
  revert s s' xs. induction es as [|e es IH]; intros s s' xs; simpl.
  - by intros [= <- <-].
  - destruct (step e s) as [[s1 x]|] eqn:E; simpl; [|done].
    destruct (run es s1) as [[s2 ys]|] eqn:E'; simpl; [|done].
    intros [= <- <-] Hok. eapply IH; [done|]. by eapply plain_scores_step.
Qed.

Lemma plain_scores_init topics : plain_scores (init topics).
Proof. intros r g H. simpl in H. by rewrite lookup_empty in H. Qed.

(** X7.  As long as no create request draws a code that is in use, every
    roster member of a lobby with a game state, other than a member named
    [__proto__], has a score of its own in it, and the score is a number:
    the scores are set for the roster when the game starts or restarts, a
    player who joins later is given a zero, and the additions and
    subtractions of [calculateResults] find a number.  Under the name
    [__proto__] no score is ever stored. *)
Theorem roster_members_have_a_score (topics : list string) (es : list input)
    (s : server) (xs : list (nat * task)) (c : string) (l : lobby) (r : loc)
    (g : gameState) (u : string) :
  fresh_codes es (init topics) →
  run es (init topics) = Some (s, xs) →
  lobbies s !! c = Some l →
  gameStates_get c s = Some (r, g) →
  u ∈ usernames l →
  (u ≠ "__proto__" → ∃ z, scores g !! u = Some (Int z)) ∧
  scores g !! "__proto__" = None.
Proof.
  intros Hfresh Hrun Hl Hg Hu. split.
  - intros Hnp.
    destruct (books_ok_run es _ _ _ Hfresh Hrun (books_ok_init topics))
      as (_ & _ & Hsc).
    by eapply Hsc.
  - apply gameStates_get_Some in Hg as [_ Hh].
    by eapply (plain_scores_run es _ _ _ Hrun (plain_scores_init topics)).
Qed.

Lemma roster_members_have_a_score_witness :
  (∃ z, scores game_after_prototype_name_round !! "constructor"
        = Some (Int z)) ∧
  scores game_after_prototype_name_round !! "__proto__" = None.
Proof.
  destruct more_scenarios_reached as (_ & Hrun & _).
  assert (fresh_codes prototype_name_round (init topics)) as Hfresh
    by (vm_compute; repeat split).
  assert (lobbies after_prototype_name_round !! "ROOM"
          = Some lobby_after_prototype_name_round) as Hl by closed.
  assert (gameStates_get "ROOM" after_prototype_name_round
          = Some (0%nat, game_after_prototype_name_round)) as Hg by closed.
  assert ("constructor" ∈ usernames lobby_after_prototype_name_round) as Hu
    by closed.
  assert ("constructor" ≠ "__proto__") as Hnp by closed.
  destruct (roster_members_have_a_score topics _ _ _ "ROOM" _ 0%nat _
              "constructor" Hfresh Hrun Hl Hg Hu) as [H1 H2].
  split; [exact (H1 Hnp)|exact H2].
Defined.

(** ** The phases of a round *)

(** X8.  [startVotingPhase] ends the game when every loaded topic has been
    used.  Otherwise the topic it selects is one of the loaded topics that
    this game has not used; it becomes the current topic and is added to
    the used topics, the votes are cleared, the phase is voting, the scores
    and the round number are kept, and a 20 second timer is armed whose
    expiry calls [processVoteResults]. *)
Theorem voting_phase_opens_with_an_unused_topic (rnd : random) (c : string)
    (s : server) (r : loc) (g : gameState) (l : lobby) :
  gameStates_get c s = Some (r, g) →
  lobbies s !! c = Some l →
  random_ok rnd →
  (List.filter (λ t, negb (bool_decide (t ∈ usedTopics g))) (debateTopics s)
   = [] →
   startVotingPhase rnd c s = endGame c s) ∧
  (List.filter (λ t, negb (bool_decide (t ∈ usedTopics g))) (debateTopics s)
   ≠ [] →
   ∃ t g',
     t ∈ debateTopics s ∧
     (t ∉ usedTopics g) ∧
     heap (startVotingPhase rnd c s) !! r = Some g' ∧
     currentTopic g' = t ∧
     usedTopics g' = usedTopics g ++ [t] ∧
     phase g' = voting ∧
     votes g' = ∅ ∧
     timer g' = 20 ∧
     timerInterval g' = Some (next_interval s) ∧
     scores g' = scores g ∧
     roundNumber g' = roundNumber g ∧
     intervals (startVotingPhase rnd c s) !! next_interval s
     = Some {| iv_state := r; iv_code := c;
               iv_callback := call_processVoteResults c |} ∧
     outbox (startVotingPhase rnd c s)
     = outbox s ++ [to_room c (topic_selected t);
                    to_room c (game_phase_update voting
                                 (Some (roundNumber g)) None)]).
Proof.
  intros Hg Hl Hrnd.
  apply gameStates_get_Some in Hg as Hg'. destruct Hg' as [Hr Hh].
  unfold startVotingPhase. rewrite Hg, Hl.
  set (avail := List.filter _ (debateTopics s)).
  split.
  - intros ->. done.
  - intros Hne. destruct avail as [|t0 av] eqn:Eav; [done|].
    rewrite decide_False by done.
    assert (random_index rnd (length (t0 :: av)) < length (t0 :: av))%nat
      as Hlt by (apply random_index_lt; [done|simpl; lia]).
    destruct (lookup_lt_is_Some_2 _ _ Hlt) as [t Ht]. rewrite Ht.
    assert (t ∈ avail) as Hin.
    { rewrite Eav. by eapply list_elem_of_lookup_2. }
    unfold avail in Hin. apply list_elem_of_In, filter_In in Hin as [Hin Hun].
    apply list_elem_of_In in Hin.
    apply negb_true_iff, bool_decide_eq_false in Hun.
    exists t. eexists. split; [done|]. split; [done|].
    match goal with
    | |- context [startTimer c 20 ?cb ?s0] =>
        match s0 with
        | context [store r ?g1 s] =>
            destruct (startTimer_state c 20 cb s0 r g1)
              as (-> & -> & _ & _ & _ & -> & _)
        end
    end.
    { unfold gameStates_get. simpl. rewrite gameStates_clear_timer. simpl.
      rewrite Hr. simpl. rewrite heap_clear_timer. simpl.
      by rewrite lookup_insert_eq. }
    rewrite !lookup_insert_eq. split; [reflexivity|]. simpl.
    rewrite next_interval_clear_timer, outbox_clear_timer. simpl.
    repeat split; try done;
      try (by rewrite lookup_insert_eq); by rewrite <- app_assoc.
Qed.

Lemma voting_phase_opens_with_an_unused_topic_witness :
  ∃ t g',
    t ∈ topics ∧
    (t ∉ usedTopics game_after_three_players_voting) ∧
    heap (startVotingPhase first "ROOM" after_three_players_voting) !! 0%nat
    = Some g' ∧
    currentTopic g' = t.
Proof.
  destruct (voting_phase_opens_with_an_unused_topic first "ROOM"
              after_three_players_voting 0%nat
              game_after_three_players_voting
              lobby_after_three_players_voting) as [_ H];
    [closed|closed|unfold random_ok; simpl; lia|].
  destruct H as (t & g' & H1 & H2 & H3 & H4 & _); [by vm_compute|].
  by exists t, g'.
Defined.

Lemma elem_of_Object_keys {V} (m : gmap string V) u :
  u ∈ Object_keys m ↔ is_Some (m !! u).
Proof.
  unfold Object_keys. rewrite list_elem_of_fmap. split.
  - intros ([u' v] & -> & Hin). apply elem_of_map_to_list in Hin. by exists v.
  - intros [v Hv]. exists (u, v). split; [done|].
    by apply elem_of_map_to_list.
Qed.

Lemma elem_of_speakers l g u :
  u ∈ speakers l g →
  u ∈ username <$> connectedPlayers (participants l) ∧
  is_Some (scores g !! u).
Proof.
  assert (∀ u, u ∈ List.filter
                     (λ u, bool_decide
                             (u ∈ username
                                <$> connectedPlayers (participants l)))
                     (Object_keys (scores g)) →
               u ∈ username <$> connectedPlayers (participants l) ∧
               is_Some (scores g !! u)) as Hbase.
  { intros u' Hu'. apply list_elem_of_In, filter_In in Hu' as [Hk Hc].
    apply bool_decide_eq_true in Hc. split; [done|].
    by apply elem_of_Object_keys, list_elem_of_In. }
  unfold speakers. case_decide; [apply Hbase|].
  unfold availableSpeakers. intros Hu.
  apply list_elem_of_In, filter_In in Hu as [Hu _].
  by apply Hbase, list_elem_of_In.
Qed.

(** X9.  When there is a speaker to choose, the speaker that
    [startSoloPhase] selects is a connected participant with an entry in
    the scores.  If some such participant has not spoken yet, the speaker is
    one who has not, and is added to the used speakers; if all have spoken,
    the list is reset and holds the new speaker alone. *)
Theorem speaker_is_connected_and_next_in_turn (rnd : random) (c : string)
    (s : server) (r : loc) (g : gameState) (l : lobby) :
  gameStates_get c s = Some (r, g) →
  lobbies s !! c = Some l →
  random_ok rnd →
  speakers l g ≠ [] →
  ∃ u g',
    heap (startSoloPhase rnd c s) !! r = Some g' ∧
    currentSpeaker g' = Some u ∧
    u ∈ username <$> connectedPlayers (participants l) ∧
    is_Some (scores g !! u) ∧
    (availableSpeakers l g ≠ [] →
     (u ∉ usedSpeakers g) ∧ usedSpeakers g' = usedSpeakers g ++ [u]) ∧
    (availableSpeakers l g = [] → usedSpeakers g' = [u]).
Proof.
  intros Hg Hl Hrnd Hne.
  apply gameStates_get_Some in Hg as Hg'. destruct Hg' as [Hr Hh].
  unfold startSoloPhase. rewrite Hg, Hl.
  change (speakers l (set_timer 60 (set_phase solo g))) with (speakers l g).
  change (availableSpeakers l (set_timer 60 (set_phase solo g)))
    with (availableSpeakers l g).
  destruct (speakers l g) as [|u0 sp] eqn:Esp; [done|].
  rewrite (decide_False (P := length (u0 :: sp) = 0%nat)) by done.
  assert (random_index rnd (length (u0 :: sp)) < length (u0 :: sp))%nat
    as Hlt by (apply random_index_lt; [done|simpl; lia]).
  destruct (lookup_lt_is_Some_2 _ _ Hlt) as [u Hu].
  rewrite Hu. apply list_elem_of_lookup_2 in Hu. rewrite <- Esp in Hu.
  destruct (elem_of_speakers l g u Hu) as [Hconn Hscore].
  exists u. eexists.
  match goal with
  | |- context [startTimer c 60 ?cb ?s0] =>
      match s0 with
      | context [store r ?g3 s] =>
          destruct (startTimer_state c 60 cb s0 r g3) as (-> & _)
      end
  end.
  { unfold gameStates_get. simpl. rewrite Hr. simpl.
    by rewrite lookup_insert_eq. }
  rewrite lookup_insert_eq. split; [reflexivity|]. simpl.
  split; [done|]. split; [done|]. split; [done|]. split.
  - intros Hav. split; [by eapply speakers_unused|].
    rewrite decide_False; [done|]. by destruct (availableSpeakers l g).
  - intros ->. done.
Qed.

Lemma speaker_is_connected_and_next_in_turn_witness :
  ∃ u g',
    heap (startSoloPhase first "ROOM" after_three_players_voting) !! 0%nat
    = Some g' ∧
    currentSpeaker g' = Some u ∧
    usedSpeakers g' = usedSpeakers game_after_three_players_voting ++ [u].
Proof.
  assert (gameStates_get "ROOM" after_three_players_voting
          = Some (0%nat, game_after_three_players_voting)) as Hg by closed.
  assert (lobbies after_three_players_voting !! "ROOM"
          = Some lobby_after_three_players_voting) as Hl by closed.
  assert (random_ok first) as Hrnd by (unfold random_ok; simpl; lia).
  assert (speakers lobby_after_three_players_voting
            game_after_three_players_voting ≠ []) as Hsp by (by vm_compute).
  assert (availableSpeakers lobby_after_three_players_voting
            game_after_three_players_voting ≠ []) as Hav by (by vm_compute).
  destruct (speaker_is_connected_and_next_in_turn first "ROOM"
              after_three_players_voting 0%nat
              game_after_three_players_voting
              lobby_after_three_players_voting Hg Hl Hrnd Hsp)
    as (u & g' & H1 & H2 & _ & _ & H3 & _).
  destruct (H3 Hav) as [_ H4].
  exists u, g'. split; [exact H1|]. split; [exact H2|exact H4].
Defined.

(** X10.  [calculateResults] checks neither the phase nor whether the round
    has been scored: called a second time (cast-revote schedules it each
    time a revote arrives once all connected participants have revoted) it
    awards the points and takes the penalty again, to every participant
    with a numeric score. *)
Theorem calculateResults_twice_scores_twice (c : string) (s : server)
    (r : loc) (g : gameState) (l : lobby) (p : participant) (z : Z) :
  gameStates_get c s = Some (r, g) →
  lobbies s !! c = Some l →
  NoDup (usernames l) →
  p ∈ participants l →
  scores g !! username p = Some (Int z) →
  ∃ g',
    heap (calculateResults c (calculateResults c s)) !! r = Some g' ∧
    scores g' !! username p
    = Some (Int (z + 2 * gain (agreeChange l g) (disagreeChange l g)
                           (js_get (revotes g) (username p))
                - 2 * penalty (connected p) (js_get (revotes g) (username p)))).
Proof.
  intros Hg Hl Hnd Hp Hz.
  destruct (calculateResults_score c s r g l p z Hg Hl Hnd Hp Hz)
    as (g1 & Hg1 & Hz1).
  pose proof (calculateResults_state c s r g l Hg Hl) as Hst.
  rewrite Hg1 in Hst. injection Hst as Hst.
  pose proof (same_registry_calculateResults c s) as (_ & Hls & Hgs & _).
  assert (gameStates_get c (calculateResults c s) = Some (r, g1)) as Hg1'.
  { apply gameStates_get_Some. rewrite Hgs. split; [|done].
    by apply gameStates_get_Some in Hg as [? _]. }
  assert (lobbies (calculateResults c s) !! c = Some l) as Hl1
    by by rewrite Hls.
  destruct (calculateResults_score c _ r g1 l p _ Hg1' Hl1 Hnd Hp Hz1)
    as (g2 & Hg2 & Hz2).
  exists g2. split; [done|]. rewrite Hz2. do 2 f_equal.
  assert (agreeChange l g1 = agreeChange l g) as -> by by rewrite Hst.
  assert (disagreeChange l g1 = disagreeChange l g) as -> by by rewrite Hst.
  assert (revotes g1 = revotes g) as -> by by rewrite Hst.
  lia.
Qed.

Lemma calculateResults_twice_scores_twice_witness :
  ∃ g',
    heap (calculateResults "ROOM"
            (calculateResults "ROOM" after_swing_round)) !! 0%nat
    = Some g' ∧
    revotes game_after_swing_round !! "Bob" = Some "agree" ∧
    scores game_after_swing_round !! "Bob" = Some (Int 0) ∧
    scores g' !! "Bob" = Some (Int 2) ∧
    revotes game_after_swing_round !! "Carol" = None ∧
    scores game_after_swing_round !! "Carol" = Some (Int 0) ∧
    scores g' !! "Carol" = Some (Int (-2)).
Proof.
  assert (gameStates_get "ROOM" after_swing_round
          = Some (0%nat, game_after_swing_round)) as Hg by closed.
  assert (lobbies after_swing_round !! "ROOM"
          = Some lobby_after_swing_round) as Hl by closed.
  assert (NoDup (usernames lobby_after_swing_round)) as Hnd by closed.
  assert ({| username := "Bob"; isHost := false; connected := true |}
          ∈ participants lobby_after_swing_round) as Hb by closed.
  assert ({| username := "Carol"; isHost := false; connected := true |}
          ∈ participants lobby_after_swing_round) as Hc by closed.
  assert (scores game_after_swing_round !! "Bob" = Some (Int 0)) as Hzb
    by closed.
  assert (scores game_after_swing_round !! "Carol" = Some (Int 0)) as Hzc
    by closed.
  destruct (calculateResults_twice_scores_twice "ROOM" _ _ _ _ _ 0
              Hg Hl Hnd Hb Hzb) as (g' & H1 & H2).
  destruct (calculateResults_twice_scores_twice "ROOM" _ _ _ _ _ 0
              Hg Hl Hnd Hc Hzc) as (g'' & H1' & H3).
  rewrite H1 in H1'. injection H1' as <-.
  exists g'. split; [exact H1|].
  split; [closed|]. split; [exact Hzb|].
  split; [etrans; [exact H2|closed]|].
  split; [closed|]. split; [exact Hzc|].
  etrans; [exact H3|closed].
Defined.



(** ** The sweep *)

Lemma filter_remove_participant (f : participant → bool) u ps :
  List.filter f (remove_participant u ps)
  = List.filter (λ p, bool_decide (username p ≠ u) && f p) ps.
Proof.
  unfold remove_participant. induction ps as [|p ps IH]; [done|]. simpl.
  destruct (bool_decide (username p ≠ u)); simpl; by rewrite IH.
Qed.

Lemma filter_all {A} (ps : list A) : List.filter (λ _, true) ps = ps.
Proof. induction ps as [|p ps IH]; [done|]. simpl. by rewrite IH. Qed.

(** The lobby of [c] after the loop of the sweep over the records [es]. *)
Lemma reap_fold_lobbies now es s c l :
  lobbies s !! c = Some l →
  ∃ l',
    lobbies (fold_left (reap_one now) es s) !! c = Some l' ∧
    code l' = code l ∧
    host l' = host l ∧
    participants l'
    = List.filter
        (λ p, negb (existsb
                      (λ e, bool_decide (e.1 = username p ∧ e.2.1 = c
                                         ∧ now - e.2.2 > 5 * 60 * 1000))
                      es))
        (participants l).
Proof.
  revert s l. induction es as [|[u [c0 t]] es IH]; intros s l Hl.
  - exists l. simpl. by rewrite filter_all.
  - simpl. case_decide as Hexp; cycle 1.
    { destruct (IH s l Hl) as (l' & H1 & H2 & H3 & H4).
      exists l'. split; [done|]. split; [done|]. split; [done|].
      rewrite H4. apply filter_ext. intros p.
      rewrite (bool_decide_eq_false_2 (_ ∧ _ ∧ _)); [done|]. simpl. tauto. }
    destruct (decide (c0 = c)) as [->|Hne].
    + rewrite Hl.
      match goal with
      | |- context [fold_left (reap_one now) es ?s1] =>
          destruct (IH s1 (set_participants
                             (remove_participant u (participants l)) l))
            as (l' & H1 & H2 & H3 & H4)
      end.
      { simpl. apply lookup_insert_eq. }
      exists l'. split; [exact H1|]. split; [done|]. split; [done|].
      rewrite H4. simpl. rewrite filter_remove_participant.
      apply filter_ext. intros p. simpl.
      destruct (decide (username p = u)) as [->|Hnu].
      * rewrite bool_decide_eq_false_2 by (intros ?; done).
        by rewrite bool_decide_eq_true_2.
      * rewrite bool_decide_eq_true_2 by done.
        rewrite (bool_decide_eq_false_2 (_ ∧ _ ∧ _)); [done|].
        intros [? _]. done.
    + assert (∀ p, bool_decide (u = username p ∧ c0 = c
                                ∧ now - t > 5 * 60 * 1000) = false) as Hno.
      { intros p. apply bool_decide_eq_false_2. tauto. }
      destruct (lobbies s !! c0) as [l0|] eqn:Hl0.
      * match goal with
        | |- context [fold_left (reap_one now) es ?s1] =>
            destruct (IH s1 l) as (l' & H1 & H2 & H3 & H4)
        end.
        { simpl. by rewrite lookup_insert_ne. }
        exists l'. split; [exact H1|]. split; [done|]. split; [done|].
        rewrite H4. apply filter_ext. intros p. simpl. by rewrite Hno.
      * match goal with
        | |- context [fold_left (reap_one now) es ?s1] =>
            destruct (IH s1 l) as (l' & H1 & H2 & H3 & H4)
        end; [done|].
        exists l'. split; [exact H1|]. split; [done|]. split; [done|].
        rewrite H4. apply filter_ext. intros p. simpl. by rewrite Hno.
Qed.

Lemma reap_fold_no_lobby now es s c :
  lobbies s !! c = None →
  lobbies (fold_left (reap_one now) es s) !! c = None.
Proof.
  revert s. induction es as [|[u [c0 t]] es IH]; intros s Hl; [done|].
  simpl. apply IH. unfold reap_one. case_decide; [|done].
  destruct (lobbies s !! c0) as [l0|] eqn:Hl0; simpl; [|done].
  rewrite lookup_insert_ne; [done|]. intros ->. congruence.
Qed.

Lemma reap_fold_records now es s u :
  disconnectedPlayers (fold_left (reap_one now) es s) !! u
  = if existsb (λ e, bool_decide (e.1 = u ∧ now - e.2.2 > 5 * 60 * 1000)) es
    then None else disconnectedPlayers s !! u.
Proof.
  revert s. induction es as [|[u0 [c0 t]] es IH]; intros s; [done|].
  simpl. rewrite IH. unfold reap_one. case_decide as Hexp; cycle 1.
  { rewrite (bool_decide_eq_false_2 (_ ∧ _)); [done|]. simpl. tauto. }
  assert (disconnectedPlayers
            (set_disconnectedPlayers
               (delete u0
                  (disconnectedPlayers
                     match lobbies s !! c0 with
                     | Some l =>
                         emit c0
                           (lobby_updated
                              (set_participants
                                 (remove_participant u0 (participants l)) l))
                           (set_lobbies
                              (<[c0:=set_participants
                                       (remove_participant u0
                                          (participants l)) l]>
                                 (lobbies s)) s)
                     | None => s
                     end))
               match lobbies s !! c0 with
               | Some l =>
                   emit c0
                     (lobby_updated
                        (set_participants
                           (remove_participant u0 (participants l)) l))
                     (set_lobbies
                        (<[c0:=set_participants
                                 (remove_participant u0 (participants l)) l]>
                           (lobbies s)) s)
               | None => s
               end)
          = delete u0 (disconnectedPlayers s)) as ->.
  { by destruct (lobbies s !! c0). }
  destruct (decide (u0 = u)) as [->|Hne].
  - rewrite lookup_delete_eq. simpl.
    rewrite bool_decide_eq_true_2 by done. simpl. by destruct (existsb _ _).
  - rewrite lookup_delete_ne by done. simpl.
    rewrite (bool_decide_eq_false_2 (_ ∧ _)); [done|]. intros [? _]. done.
Qed.

Lemma reap_fold_games now es s :
  gameStates (fold_left (reap_one now) es s) = gameStates s ∧
  heap (fold_left (reap_one now) es s) = heap s ∧
  intervals (fold_left (reap_one now) es s) = intervals s ∧
  timeouts (fold_left (reap_one now) es s) = timeouts s.
Proof.
  revert s. induction es as [|[u0 [c0 t]] es IH]; intros s; [done|].
  cbn [fold_left].
  destruct (IH (reap_one now s (u0, (c0, t)))) as (-> & -> & -> & ->).
  unfold reap_one. case_decide; [|done]. by destruct (lobbies s !! c0).
Qed.

Lemma existsb_records now (m : gmap string (string * Z)) u :
  existsb (λ e, bool_decide (e.1 = u ∧ now - e.2.2 > 5 * 60 * 1000))
    (map_to_list m)
  = match m !! u with
    | Some (c, t) => bool_decide (now - t > 5 * 60 * 1000)
    | None => false
    end.
Proof.
  apply eq_true_iff_eq. rewrite existsb_exists. split.
  - intros ([u' [c t]] & Hin & Hb). apply list_elem_of_In in Hin.
    apply elem_of_map_to_list in Hin.
    apply bool_decide_eq_true in Hb as [Hu Hexp]. simpl in *. subst u'.
    rewrite Hin. by apply bool_decide_eq_true.
  - destruct (m !! u) as [[c t]|] eqn:Hm; [|done]. intros Hb.
    exists (u, (c, t)). split.
    + by apply list_elem_of_In, elem_of_map_to_list.
    + apply bool_decide_eq_true in Hb. by apply bool_decide_eq_true.
Qed.

Lemma existsb_evicted now (m : gmap string (string * Z)) c u :
  existsb (λ e, bool_decide (e.1 = u ∧ e.2.1 = c
                             ∧ now - e.2.2 > 5 * 60 * 1000))
    (map_to_list m)
  = evicted now m c u.
Proof.
  unfold evicted. apply eq_true_iff_eq. rewrite existsb_exists. split.
  - intros ([u' [c' t]] & Hin & Hb). apply list_elem_of_In in Hin.
    apply elem_of_map_to_list in Hin.
    apply bool_decide_eq_true in Hb as (Hu & Hc & Hexp). simpl in *.
    subst u' c'. rewrite Hin. by apply bool_decide_eq_true.
  - destruct (m !! u) as [[c' t]|] eqn:Hm; [|done]. intros Hb.
    apply bool_decide_eq_true in Hb as [-> Hexp].
    exists (u, (c, t)). split.
    + by apply list_elem_of_In, elem_of_map_to_list.
    + by apply bool_decide_eq_true.
Qed.

Lemma reaper_lobbies now s c l :
  lobbies s !! c = Some l →
  ∃ l',
    lobbies (reaper now s) !! c = Some l' ∧
    code l' = code l ∧
    host l' = host l ∧
    participants l'
    = List.filter
        (λ p, negb (evicted now (disconnectedPlayers s) c (username p)))
        (participants l).
Proof.
  intros Hl. unfold reaper.
  destruct (reap_fold_lobbies now (map_to_list (disconnectedPlayers s))
              s c l Hl) as (l' & H1 & H2 & H3 & H4).
  exists l'. split; [done|]. split; [done|]. split; [done|].
  rewrite H4. apply filter_ext. intros p. by rewrite existsb_evicted.
Qed.

Lemma reaper_records now s u :
  disconnectedPlayers (reaper now s) !! u
  = swept now (disconnectedPlayers s !! u).
Proof.
  unfold reaper. rewrite reap_fold_records, existsb_records. unfold swept.
  destruct (disconnectedPlayers s !! u) as [[c t]|]; [|done].
  case_decide.
  - by rewrite bool_decide_eq_true_2.
  - by rewrite bool_decide_eq_false_2.
Qed.

(** X12.  The sweep drops every disconnection record that is older than
    five minutes and keeps the others.  From the lobby that a dropped record
    names it removes the participant with the name of the record, whatever
    the connected flag says; all other participants stay, in their order.
    The sweep never removes a lobby, even if it has lost its host or its
    last participant, and it leaves the game states and the timers as they
    are. *)
Theorem sweep_evicts_by_record (now : Z) (s : server) :
  (∀ u, disconnectedPlayers (reaper now s) !! u
        = swept now (disconnectedPlayers s !! u)) ∧
  (∀ c, match lobbies s !! c with
        | Some l =>
            ∃ l',
              lobbies (reaper now s) !! c = Some l' ∧
              code l' = code l ∧
              host l' = host l ∧
              participants l'
              = List.filter
                  (λ p, negb (evicted now (disconnectedPlayers s) c
                                (username p)))
                  (participants l)
        | None => lobbies (reaper now s) !! c = None
        end) ∧
  gameStates (reaper now s) = gameStates s ∧
  heap (reaper now s) = heap s ∧
  intervals (reaper now s) = intervals s ∧
  timeouts (reaper now s) = timeouts s.
Proof.
  split; [apply reaper_records|]. split; [|apply reap_fold_games].
  intros c. destruct (lobbies s !! c) as [l|] eqn:Hl.
  - by apply reaper_lobbies.
  - by apply reap_fold_no_lobby.
Qed.

Lemma records_api_lobby_join c u s :
  disconnectedPlayers (api_lobby_join c u s).1 = disconnectedPlayers s.
Proof.
  unfold api_lobby_join. case_decide; [done|].
  destruct (lobbies s !! c); [|done]. case_match; [done|]. simpl.
  by destruct (gameStates_get c _) as [[??]|].
Qed.

Lemma records_join_lobby id c u s :
  disconnectedPlayers (join_lobby id c u s) = disconnectedPlayers s.
Proof.
  unfold join_lobby. simpl. destruct (lobbies s !! c); [|done].
  by repeat case_match.
Qed.

Lemma find_participant_app u ps qs :
  find_participant u (ps ++ qs)
  = match find_participant u ps with
    | Some p => Some p
    | None => find_participant u qs
    end.
Proof.
  unfold find_participant. induction ps as [|p ps IH]; [done|]. simpl.
  by destruct (bool_decide (username p = u)).
Qed.

Lemma lobby_api_lobby_join c u s l :
  c ≠ "" → u ≠ "" →
  lobbies s !! c = Some l →
  ∃ l1,
    lobbies (api_lobby_join c u s).1 !! c = Some l1 ∧
    connected <$> find_participant u (participants l1) = Some true.
Proof.
  intros Hc Hu Hl. unfold api_lobby_join.
  rewrite decide_False by tauto. rewrite Hl.
  destruct (find_participant u (participants l)) as [p|] eqn:Hfind.
  - eexists. simpl. rewrite lookup_insert_eq. split; [done|]. simpl.
    apply find_set_connected. apply find_some in Hfind as [Hin Hp].
    apply bool_decide_eq_true in Hp as <-.
    by apply list_elem_of_fmap_2, list_elem_of_In.
  - eexists. split.
    + simpl. destruct (gameStates_get c _) as [[??]|]; simpl;
        apply lookup_insert_eq.
    + simpl. rewrite find_participant_app, Hfind.
      unfold find_participant. simpl. by rewrite bool_decide_eq_true_2.
Qed.

Lemma lobby_join_lobby id c u s l :
  lobbies s !! c = Some l →
  connected <$> find_participant u (participants l) = Some true →
  ∃ l1,
    lobbies (join_lobby id c u s) !! c = Some l1 ∧
    connected <$> find_participant u (participants l1) = Some true.
Proof.
  intros Hl Hconn. unfold join_lobby. simpl. rewrite Hl.
  destruct (find_participant u (participants l)) as [p|] eqn:Hfind;
    [|done].
  eexists. split.
  - repeat case_match; simpl; apply lookup_insert_eq.
  - simpl. apply find_set_connected. apply find_some in Hfind as [Hin Hp].
    apply bool_decide_eq_true in Hp as <-.
    by apply list_elem_of_fmap_2, list_elem_of_In.
Qed.

(** X13.  Reconnecting does not stop the eviction: neither the join route
    nor join-lobby removes the disconnection record of the player, so a
    player who left a running game and came back through both, and is a
    connected member of the roster again, is removed from the roster by the
    first sweep that finds the record older than five minutes. *)
Theorem reconnecting_does_not_stop_the_eviction (id c u : string) (t now : Z)
    (s : server) (l : lobby) :
  c ≠ "" → u ≠ "" →
  lobbies s !! c = Some l →
  disconnectedPlayers s !! u = Some (c, t) →
  now - t > 5 * 60 * 1000 →
  ∃ l1 l2,
    lobbies (join_lobby id c u (api_lobby_join c u s).1) !! c = Some l1 ∧
    connected <$> find_participant u (participants l1) = Some true ∧
    lobbies (reaper now (join_lobby id c u (api_lobby_join c u s).1)) !! c
    = Some l2 ∧
    (u ∉ usernames l2) ∧
    ∀ p, p ∈ participants l2 → p ∈ participants l1.
Proof.
  intros Hc Hu Hl Hrec Hexp.
  destruct (lobby_api_lobby_join c u s l Hc Hu Hl) as (l0 & Hl0 & Hconn0).
  destruct (lobby_join_lobby id c u _ l0 Hl0 Hconn0) as (l1 & Hl1 & Hconn1).
  destruct (reaper_lobbies now _ c l1 Hl1) as (l2 & Hl2 & _ & _ & Hps).
  exists l1, l2. split; [done|]. split; [done|]. split; [done|].
  rewrite records_join_lobby, records_api_lobby_join in Hps. split.
  - unfold usernames. intros (p & Hname & Hp)%list_elem_of_fmap.
    rewrite Hps in Hp. apply list_elem_of_In, filter_In in Hp as [_ Hp].
    apply negb_true_iff in Hp. unfold evicted in Hp.
    rewrite <- Hname, Hrec in Hp.
    by rewrite bool_decide_eq_true_2 in Hp.
  - intros p Hp. rewrite Hps in Hp.
    apply list_elem_of_In, filter_In in Hp as [Hp _].
    by apply list_elem_of_In.
Qed.

Lemma reconnecting_does_not_stop_the_eviction_witness :
  ∃ l1 l2,
    lobbies (join_lobby "s4" "ROOM" "Bob"
               (api_lobby_join "ROOM" "Bob" after_late_joiner).1) !! "ROOM"
    = Some l1 ∧
    connected <$> find_participant "Bob" (participants l1) = Some true ∧
    lobbies (reaper 400000
               (join_lobby "s4" "ROOM" "Bob"
                  (api_lobby_join "ROOM" "Bob" after_late_joiner).1))
      !! "ROOM"
    = Some l2 ∧
    ("Bob" ∉ usernames l2).
Proof.
  assert (lobbies after_late_joiner !! "ROOM"
          = Some lobby_after_late_joiner) as Hl by closed.
  assert (disconnectedPlayers after_late_joiner !! "Bob"
          = Some ("ROOM", 30000)) as Hrec by closed.
  destruct (reconnecting_does_not_stop_the_eviction "s4" "ROOM" "Bob" 30000
              400000 after_late_joiner lobby_after_late_joiner)
    as (l1 & l2 & H1 & H2 & H3 & H4 & _); [done|done|exact Hl|exact Hrec|lia|].
  exists l1, l2. split; [exact H1|]. split; [exact H2|].
  split; [exact H3|exact H4].
Defined.

(** ** Starting a game, joining a room *)

(** X14.  start-game is for the host of a lobby with at least two
    participants: from anyone else, or with fewer, it changes nothing.  It
    does not ask whether a game is running: it registers a new game state
    under the code, with a score of zero for every roster member other than
    a member named [__proto__], under which nothing is stored, and schedules
    [startVotingPhase] after 2000 ms.  A game state that was registered
    before stays as it is, its interval stays active and the callbacks that
    were pending stay pending. *)
Theorem start_game_registers_a_new_game_state (c u : string) (s : server)
    (l : lobby) :
  lobbies s !! c = Some l →
  (host l = u ∧ (2 ≤ length (participants l))%nat →
   gameStates_get c (start_game c u s)
   = Some (fresh_loc s, new_gameState (participants l)) ∧
   heap s !! fresh_loc s = None ∧
   (∀ r, r ≠ fresh_loc s → heap (start_game c u s) !! r = heap s !! r) ∧
   (∀ p, p ∈ participants l →
         scores (new_gameState (participants l)) !! username p
         = if bool_decide (username p = "__proto__") then None
           else Some (Int 0)) ∧
   intervals (start_game c u s) = intervals s ∧
   timeouts (start_game c u s)
   = timeouts s ++ [(2000, call_startVotingPhase c)]) ∧
  (host l ≠ u ∨ (length (participants l) < 2)%nat → start_game c u s = s).
Proof.
  intros Hl. unfold start_game. rewrite Hl. split.
  - intros Hguard. rewrite decide_True by done.
    split.
    { unfold gameStates_get. simpl. rewrite lookup_insert_eq. simpl.
      by rewrite lookup_insert_eq. }
    split; [apply fresh_loc_unused|]. split.
    { intros r Hne. simpl. by rewrite lookup_insert_ne. }
    split; [|done].
    intros p Hp. simpl. rewrite zero_scores_spec.
    rewrite bool_decide_eq_true_2 by by apply list_elem_of_fmap_2.
    rewrite lookup_empty.
    destruct (decide (username p = "__proto__")) as [Hn|Hn].
    + by rewrite !bool_decide_eq_true_2.
    + rewrite (bool_decide_eq_false_2 (_ ∧ _)) by (by intros [? _]).
      by rewrite bool_decide_eq_false_2.
  - intros Hguard. rewrite decide_False; [done|]. intros [? ?].
    destruct Hguard; [done|lia].
Qed.

Lemma start_game_registers_a_new_game_state_witness :
  gameStates_get "ROOM" (start_game "ROOM" "Alice" after_two_votes)
  = Some (fresh_loc after_two_votes,
          new_gameState (participants lobby_after_two_votes)) ∧
  scores (new_gameState (participants lobby_after_two_votes)) !! "Bob"
  = Some (Int 0) ∧
  intervals (start_game "ROOM" "Alice" after_two_votes)
  = intervals after_two_votes.
Proof.
  assert (lobbies after_two_votes !! "ROOM" = Some lobby_after_two_votes)
    as Hl by closed.
  destruct (start_game_registers_a_new_game_state "ROOM" "Alice"
              after_two_votes lobby_after_two_votes Hl) as [H _].
  destruct H as (H1 & _ & _ & H3 & H2 & _).
  { split; [closed|]. vm_compute. lia. }
  split; [exact H1|]. split; [|exact H2].
  apply (H3 {| username := "Bob"; isHost := false; connected := true |}).
  closed.
Defined.



(** ** Scoring in the earlier server *)

(** X16.  In the earlier server a round is scored in this way: a
    participant whose revote is on the side that changed by more gains the
    distance between the two changes (not the larger change), and a
    participant for whom the read of the revote is falsy (no revote under a
    name that is not a property name of [Object.prototype], or an empty one)
    loses a point, on the roster as it is (there is no connected flag).  The
    points announced are that distance. *)
Theorem earlier_scoring_awards_the_distance (l : Basic.lobby)
    (g : Basic.gameState) (p : Basic.participant) (z : Z) :
  NoDup (Basic.username <$> Basic.participants l) →
  p ∈ Basic.participants l →
  Basic.scores g !! Basic.username p = Some (Int z) →
  Basic.scores (Basic.calculateResults l g).1 !! Basic.username p
  = Some (Int (z + basic_gain (basic_agreeChange l g)
                     (basic_disagreeChange l g)
                     (js_get (Basic.revotes g) (Basic.username p))
               - basic_penalty
                   (js_get (Basic.revotes g) (Basic.username p)))) ∧
  Basic.pointsAwarded (Basic.calculateResults l g).2
  = Z.abs (basic_agreeChange l g - basic_disagreeChange l g) ∧
  Basic.phase (Basic.calculateResults l g).1 = round_results_phase.
Proof.
  intros Hnd Hp Hz. split; [|done].
  by apply basic_calculateResults_score.
Qed.

Lemma earlier_scoring_awards_the_distance_witness :
  Basic.scores (Basic.calculateResults earlier_lobby earlier_game).1 !! "Bob"
  = Some (Int 2).
Proof.
  assert (NoDup (Basic.username <$> Basic.participants earlier_lobby))
    as Hnd by closed.
  assert ({| Basic.username := "Bob"; Basic.isHost := false |}
          ∈ Basic.participants earlier_lobby) as Hp
    by (apply elem_of_cons; right; apply elem_of_cons; by left).
  assert (Basic.scores earlier_game !! "Bob" = Some (Int 0)) as Hz by closed.
  destruct (earlier_scoring_awards_the_distance earlier_lobby earlier_game
              _ 0 Hnd Hp Hz) as [H _].
  etrans; [exact H|]. vm_compute. reflexivity.
Defined.

(** ** What else the handlers do *)

(** X17.  The create route does not ask whether the code is in use.  If the
    code has a game state, the new lobby takes the place of the old one and
    the game state stays: the creator is the whole roster and has no score,
    and the next [calculateResults], finding no revote of the creator,
    makes the score NaN.  A creator whose name is a property name of
    [Object.prototype] is not penalised (the read of the revote is an
    inherited member) and stays without a score. *)
Theorem code_collision_leaves_the_host_without_a_score (u c : string)
    (now : Z) (s : server) (r : loc) (g : gameState) :
  (2 ≤ String.length u)%nat →
  gameStates_get c s = Some (r, g) →
  scores g !! u = None →
  revotes g !! u = None →
  ∃ l1 g',
    lobbies (api_lobby_create u c now s).1 !! c = Some l1 ∧
    usernames l1 = [u] ∧
    gameStates_get c (api_lobby_create u c now s).1 = Some (r, g) ∧
    heap (calculateResults c (api_lobby_create u c now s).1) !! r = Some g' ∧
    scores g' !! u
    = if bool_decide (u ∈ prototype_names) then None else Some NaN.
Proof.
  intros Hlen Hg Hsc Hrv. unfold api_lobby_create.
  rewrite decide_False by (intros [->|?]; simpl in *; lia). simpl.
  set (p := {| username := u; isHost := true; connected := true |}).
  eexists _, _. split; [apply lookup_insert_eq|]. split; [done|].
  split; [done|]. split.
  { eapply calculateResults_state; [done|]. simpl. apply lookup_insert_eq. }
  simpl.
  set (awarded := awardPoints [p] (revotes g) _ _ (scores g)).
  assert (awarded !! u = None) as Haw.
  { unfold awarded, awardPoints.
    destruct (winner _ _) as [[|side team] pts]; simpl; [done|].
    case_decide; [|done]. simpl.
    rewrite bool_decide_eq_false_2; [done|].
    unfold js_get. rewrite Hrv. by case_bool_decide. }
  change (penalize [p] (revotes g) awarded !! u
          = if bool_decide (u ∈ prototype_names) then None else Some NaN).
  unfold penalize. simpl. unfold js_get at 1. rewrite Hrv.
  case_bool_decide as Hname; simpl; [done|].
  assert (u ≠ "__proto__") as Hnp.
  { intros ->. apply Hname. vm_compute.
    repeat first [by left | right]. }
  rewrite lookup_js_set_plain by done.
  unfold js_get. rewrite Haw. by rewrite bool_decide_eq_false_2.
Qed.

Lemma code_collision_leaves_the_host_without_a_score_witness :
  ∃ g1 g2,
    heap (calculateResults "ROOM"
            (api_lobby_create "Zed" "ROOM" 9 after_four_players_revoting).1)
      !! 0%nat = Some g1 ∧
    scores g1 !! "Zed" = Some NaN ∧
    heap (calculateResults "ROOM"
            (api_lobby_create "toString" "ROOM" 9
               after_four_players_revoting).1)
      !! 0%nat = Some g2 ∧
    scores g2 !! "toString" = None.
Proof.
  assert (gameStates_get "ROOM" after_four_players_revoting
          = Some (0%nat, game_after_four_players_revoting)) as Hg by closed.
  assert (scores game_after_four_players_revoting !! "Zed" = None)
    as Hsc by closed.
  assert (revotes game_after_four_players_revoting !! "Zed" = None)
    as Hrv by closed.
  assert (2 ≤ String.length "Zed")%nat as Hlen by (simpl; lia).
  assert (scores game_after_four_players_revoting !! "toString" = None)
    as Hsc' by closed.
  assert (revotes game_after_four_players_revoting !! "toString" = None)
    as Hrv' by closed.
  assert (2 ≤ String.length "toString")%nat as Hlen' by (simpl; lia).
  destruct (code_collision_leaves_the_host_without_a_score "Zed" "ROOM" 9
              after_four_players_revoting 0%nat
              game_after_four_players_revoting Hlen Hg Hsc Hrv)
    as (l1 & g1 & _ & _ & _ & H1 & H2).
  destruct (code_collision_leaves_the_host_without_a_score "toString" "ROOM"
              9 after_four_players_revoting 0%nat
              game_after_four_players_revoting Hlen' Hg Hsc' Hrv')
    as (l2 & g2 & _ & _ & _ & H3 & H4).
  exists g1, g2. split; [exact H1|]. split; [exact H2|].
  split; [exact H3|exact H4].
Defined.

(** X18.  restart-game is for the socket that carries the name of the host;
    from any other socket it changes nothing.  It resets the game state in
    place: phase voting, round 1, no votes, no used topics or speakers, and
    a zero score for every roster member (but nothing is stored under the
    name [__proto__] where there was no such score), while the scores of
    names that are no longer on the roster are kept.  The interval of the
    game state is cleared; [startVotingPhase] is scheduled after 2000 ms,
    and the callbacks that were pending stay pending. *)
Theorem restart_game_resets_in_place (id c : string) (s : server) (l : lobby)
    (r : loc) (g : gameState) :
  lobbies s !! c = Some l →
  gameStates_get c s = Some (r, g) →
  ((sockets s !! id) ≫= s_username = Some (host l) →
   ∃ g',
     gameStates_get c (restart_game id c s) = Some (r, g') ∧
     phase g' = voting ∧
     roundNumber g' = 1 ∧
     votes g' = ∅ ∧
     revotes g' = ∅ ∧
     usedTopics g' = [] ∧
     usedSpeakers g' = [] ∧
     (∀ u, scores g' !! u
           = if bool_decide (u ∈ usernames l)
             then if bool_decide (u = "__proto__" ∧ scores g !! u = None)
                  then None else Some (Int 0)
             else scores g !! u) ∧
     intervals (restart_game id c s) = intervals (clear_timer g s) ∧
     timeouts (restart_game id c s)
     = timeouts s ++ [(2000, call_startVotingPhase c)]) ∧
  ((sockets s !! id) ≫= s_username ≠ Some (host l) →
   restart_game id c s = s).
Proof.
  intros Hl Hg. apply gameStates_get_Some in Hg as Hg'.
  destruct Hg' as [Hr Hh]. unfold restart_game. rewrite Hl, Hg. split.
  - intros Hhost. rewrite decide_True by done. eexists. split.
    { unfold gameStates_get. simpl.
      rewrite gameStates_clear_timer, heap_clear_timer. simpl.
      rewrite Hr. simpl. by rewrite lookup_insert_eq. }
    simpl. rewrite timeouts_clear_timer. simpl.
    repeat split; try done.
    + intros u. apply zero_scores_spec.
    + unfold clear_timer. simpl. by destruct (timerInterval g).
  - intros Hother. by rewrite decide_False.
Qed.

Lemma restart_game_resets_in_place_witness :
  ∃ g',
    gameStates_get "ROOM" (restart_game "s1" "ROOM" after_two_votes)
    = Some (0%nat, g') ∧
    votes g' = ∅ ∧
    usedTopics g' = [] ∧
    scores g' !! "Bob" = Some (Int 0).
Proof.
  assert (lobbies after_two_votes !! "ROOM" = Some lobby_after_two_votes)
    as Hl by closed.
  assert (gameStates_get "ROOM" after_two_votes
          = Some (0%nat, game_after_two_votes)) as Hg by closed.
  destruct (restart_game_resets_in_place "s1" "ROOM" after_two_votes
              lobby_after_two_votes 0%nat game_after_two_votes Hl Hg)
    as [H _].
  destruct H as (g' & H1 & _ & _ & H2 & _ & H3 & _ & H4 & _); [closed|].
  exists g'. split; [exact H1|]. split; [exact H2|]. split; [exact H3|].
  rewrite H4. closed.
Defined.

(** X19.  Without a game state under the code, the ten functions that
    begin by looking the game state up (every phase function, the timer,
    the end of the game and the sync) return at once and change nothing.
    The callbacks that do not look it up still act: the skip notice emits
    its two messages and schedules [showScoreboard]; the callback of
    [showScoreboard], which holds the game-state object, adds one to its
    round number and, when the game goes on, sets its phase to waiting,
    announces it and schedules [startVotingPhase]; and an interval that was
    not cleared takes a second off the timer of its object and emits
    game-timer. *)
Theorem phase_functions_need_a_game_state (rnd : random) (id c : string)
    (n : Z) (cb : task) (s : server) :
  gameStates s !! c = None →
  (startVotingPhase rnd c s = s ∧
   processVoteResults c s = s ∧
   startSoloPhase rnd c s = s ∧
   startDiscussionPhase c s = s ∧
   startRevotingPhase c s = s ∧
   calculateResults c s = s ∧
   showScoreboard c s = s ∧
   endGame c s = s ∧
   startTimer c n cb s = s ∧
   syncGameStateToPlayer id c s = s) ∧
  (∀ t,
     outbox (skipNotice c t s)
     = outbox s
       ++ [to_room c (game_phase_update round_skipped_phase None None);
           to_room c (round_skipped skip_message t)] ∧
     timeouts (skipNotice c t s)
     = timeouts s ++ [(5000, call_showScoreboard c)]) ∧
  (∀ r g,
     heap s !! r = Some g →
     let g1 := set_roundNumber (roundNumber g + 1) g in
     (roundNumber g1 > 5
      ∨ (length (debateTopics s) ≤ length (usedTopics g1))%nat →
      nextRound r c s = store r g1 s) ∧
     (¬ (roundNumber g1 > 5
         ∨ (length (debateTopics s) ≤ length (usedTopics g1))%nat) →
      heap (nextRound r c s) !! r = Some (set_phase waiting g1) ∧
      outbox (nextRound r c s)
      = outbox s ++ [to_room c (game_phase_update waiting None None)] ∧
      timeouts (nextRound r c s)
      = timeouts s ++ [(3000, call_startVotingPhase c)])) ∧
  (∀ i iv g,
     intervals s !! i = Some iv →
     heap s !! iv_state iv = Some g →
     timer <$> heap (tick_body i s).1 !! iv_state iv = Some (timer g - 1) ∧
     outbox (tick_body i s).1
     = outbox s ++ [to_room (iv_code iv) (game_timer (timer g - 1))]).
Proof.
  intros Hnone.
  assert (gameStates_get c s = None) as Hget.
  { unfold gameStates_get. by rewrite Hnone. }
  split; [|split; [|split]].
  - unfold startVotingPhase, processVoteResults, startSoloPhase,
      startDiscussionPhase, startRevotingPhase, calculateResults,
      showScoreboard, endGame, startTimer, syncGameStateToPlayer.
    by rewrite Hget.
  - intros t. unfold skipNotice. simpl. by rewrite <- app_assoc.
  - intros r g Hg g1. unfold nextRound. rewrite Hg. fold g1. split.
    + intros Hend. rewrite decide_True by done.
      unfold endGame, gameStates_get. simpl. by rewrite Hnone.
    + intros Hon. rewrite decide_False by done. simpl.
      by rewrite lookup_insert_eq.
  - intros i iv g Hi Hg. unfold tick_body. rewrite Hi, Hg.
    case_decide; simpl.
    + unfold clear_timer. simpl.
      destruct (timerInterval g); simpl; by rewrite lookup_insert_eq.
    + by rewrite lookup_insert_eq.
Qed.

(** The lobby ROOM was closed while an interval was active: the guarded
    functions do nothing, the interval still ticks, and a callback of
    [showScoreboard] would still start the next round of the object. *)
Lemma phase_functions_need_a_game_state_witness :
  let s := after_host_leaves_with_timer in
  ∃ g iv,
    run host_leaves_with_timer (init topics) = Some (s, []) ∧
    lobbies s !! "ROOM" = None ∧
    gameStates s !! "ROOM" = None ∧
    heap s !! 0%nat = Some g ∧
    intervals s !! 1%nat = Some iv ∧
    iv_state iv = 0%nat ∧
    calculateResults "ROOM" s = s ∧
    startDiscussionPhase "ROOM" s = s ∧
    timer <$> heap (tick_body 1 s).1 !! 0%nat = Some (timer g - 1) ∧
    outbox (tick_body 1 s).1
    = outbox s ++ [to_room "ROOM" (game_timer 59)] ∧
    roundNumber <$> heap (nextRound 0%nat "ROOM" s) !! 0%nat = Some 3 ∧
    timeouts (nextRound 0%nat "ROOM" s)
    = timeouts s ++ [(3000, call_startVotingPhase "ROOM")].
Proof.
  intros s.
  assert (gameStates s !! "ROOM" = None) as Hnone by closed.
  pose (g := default (new_gameState []) (heap s !! 0%nat)).
  pose (iv := {| iv_state := 0%nat; iv_code := "ROOM";
                 iv_callback := call_startDiscussionPhase "ROOM" |}).
  assert (heap s !! 0%nat = Some g) as Hg by closed.
  assert (intervals s !! 1%nat = Some iv) as Hi by closed.
  destruct (phase_functions_need_a_game_state first "s1" "ROOM" 20
              (call_processVoteResults "ROOM") s Hnone)
    as (Hten & _ & Hnext & Htick).
  destruct Hten as (_ & _ & _ & H4 & _ & H6 & _).
  destruct (Htick 1%nat iv g Hi Hg) as [T1 T2].
  destruct (Hnext 0%nat g Hg) as [_ Hon]. cbv zeta in Hon.
  destruct Hon as (N1 & _ & N3).
  { vm_compute. intros [?|?]; [done|lia]. }
  exists g, iv.
  split; [closed|]. split; [closed|]. split; [exact Hnone|].
  split; [exact Hg|]. split; [exact Hi|]. split; [reflexivity|].
  split; [exact H6|]. split; [exact H4|]. split; [exact T1|].
  split; [rewrite T2; closed|].
  split; [|exact N3].
  etrans; [exact (f_equal (fmap roundNumber) N1)|]. closed.
Defined.

(** X20.  leave-lobby never clears an interval and never cancels a pending
    callback, not even when it closes the lobby and removes its game state;
    the disconnect handler clears the interval of the game state when it
    closes the lobby. *)
Theorem closing_by_leave_lobby_keeps_the_timer (c u : string) (now : Z)
    (s : server) :
  intervals (leave_lobby c u now s) = intervals s ∧
  timeouts (leave_lobby c u now s) = timeouts s ∧
  heap (leave_lobby c u now s) = heap s ∧
  ∀ id l r g,
    sockets s !! id = Some {| s_username := Some u; s_lobbyCode := Some c |} →
    c ≠ "" → u ≠ "" →
    lobbies s !! c = Some l →
    u = host l →
    u ∈ usernames l →
    gameStates_get c s = Some (r, g) →
    phase g = waiting →
    gameStates (leave_lobby c u now s) !! c = None ∧
    gameStates (disconnect id now s) !! c = None ∧
    intervals (disconnect id now s) = intervals (clear_timer g s).
Proof.
  split; [|split; [|split]].
  - unfold leave_lobby. destruct (lobbies s !! c); [|done].
    by repeat case_match.
  - unfold leave_lobby. destruct (lobbies s !! c); [|done].
    by repeat case_match.
  - unfold leave_lobby. destruct (lobbies s !! c); [|done].
    by repeat case_match.
  - intros id l r g Hsock Hc Hu Hl Hhost Hin Hg Hph.
    destruct (find_participant_Some _ _ Hin) as [p Hp].
    assert (game_active (gameStates_get c s) = false) as Hidle.
    { rewrite Hg. simpl. by rewrite bool_decide_eq_false_2 by (by intros ?). }
    split.
    + unfold leave_lobby. rewrite Hl, Hidle.
      rewrite decide_True by (by right). simpl. apply lookup_delete_eq.
    + unfold disconnect. rewrite Hsock.
      rewrite decide_False by (intros [?|?]; done). simpl.
      rewrite Hl, Hp.
      change (gameStates_get c (set_sockets ?ss s))
        with (gameStates_get c s).
      rewrite Hidle, decide_True by (by right). rewrite Hg. simpl.
      rewrite gameStates_clear_timer. simpl.
      split; [apply lookup_delete_eq|].
      unfold clear_timer. by destruct (timerInterval g).
Qed.

Lemma closing_by_leave_lobby_keeps_the_timer_witness :
  gameStates (leave_lobby "ROOM" "Alice" 9 after_round_over) !! "ROOM" = None ∧
  intervals (leave_lobby "ROOM" "Alice" 9 after_round_over)
  = intervals after_round_over.
Proof.
  assert (sockets after_round_over !! "s1"
          = Some {| s_username := Some "Alice"; s_lobbyCode := Some "ROOM" |})
    as Hsock by closed.
  assert (lobbies after_round_over !! "ROOM" = Some lobby_after_round_over)
    as Hl by closed.
  assert ("Alice" = host lobby_after_round_over) as Hhost by closed.
  assert ("Alice" ∈ usernames lobby_after_round_over) as Hin by closed.
  assert (gameStates_get "ROOM" after_round_over
          = Some (0%nat, game_after_round_over)) as Hg by closed.
  assert (phase game_after_round_over = waiting) as Hph by closed.
  destruct (closing_by_leave_lobby_keeps_the_timer "ROOM" "Alice" 9
              after_round_over) as (H1 & _ & _ & H2).
  destruct (H2 "s1" lobby_after_round_over 0%nat game_after_round_over
              Hsock) as (H3 & _); [done|done|exact Hl|exact Hhost|exact Hin
                                  |exact Hg|exact Hph|].
  by split.
Defined.

(** X21.  The timed phases follow each other: [startDiscussionPhase] sets
    the phase to discussion and arms a timer of 180 seconds whose expiry
    calls [startRevotingPhase]; [startRevotingPhase] sets the phase to
    revoting, forgets the revotes of the round before (the votes are kept)
    and arms a timer of 20 seconds whose expiry calls [calculateResults].
    Each cancels the interval that the game state had and announces the
    phase to the room. *)
Theorem timed_phases_follow_each_other (c : string) (s : server) (r : loc)
    (g : gameState) :
  gameStates_get c s = Some (r, g) →
  (heap (startDiscussionPhase c s) !! r
   = Some (set_timerInterval (Some (next_interval s))
             (set_timer 180 (set_phase discussion g))) ∧
   intervals (startDiscussionPhase c s)
   = <[next_interval s :=
         {| iv_state := r; iv_code := c;
            iv_callback := call_startRevotingPhase c |}]>
       (intervals (clear_timer g s)) ∧
   outbox (startDiscussionPhase c s)
   = outbox s ++ [to_room c (game_phase_update discussion None None)]) ∧
  (heap (startRevotingPhase c s) !! r
   = Some (set_timerInterval (Some (next_interval s))
             (set_timer 20 (set_revotes ∅ (set_phase revoting g)))) ∧
   intervals (startRevotingPhase c s)
   = <[next_interval s :=
         {| iv_state := r; iv_code := c;
            iv_callback := call_calculateResults c |}]>
       (intervals (clear_timer g s)) ∧
   outbox (startRevotingPhase c s)
   = outbox s ++ [to_room c (game_phase_update revoting None None)]).
Proof.
  intros Hg. apply gameStates_get_Some in Hg as Hg'. destruct Hg' as [Hr Hh].
  split.
  - unfold startDiscussionPhase. rewrite Hg.
    match goal with
    | |- context [startTimer c 180 ?cb ?s0] =>
        destruct (startTimer_state c 180 cb s0 r
                    (set_timer 180 (set_phase discussion g)))
          as (-> & -> & _ & _ & _ & -> & _)
    end.
    { unfold gameStates_get. simpl. rewrite Hr. simpl.
      by rewrite lookup_insert_eq. }
    simpl. rewrite lookup_insert_eq. repeat split.
    unfold clear_timer. simpl. by destruct (timerInterval g).
  - unfold startRevotingPhase. rewrite Hg.
    match goal with
    | |- context [startTimer c 20 ?cb ?s0] =>
        destruct (startTimer_state c 20 cb s0 r
                    (set_timer 20 (set_revotes ∅ (set_phase revoting g))))
          as (-> & -> & _ & _ & _ & -> & _)
    end.
    { unfold gameStates_get. simpl. rewrite Hr. simpl.
      by rewrite lookup_insert_eq. }
    simpl. rewrite lookup_insert_eq. repeat split.
    unfold clear_timer. simpl. by destruct (timerInterval g).
Qed.

Lemma timed_phases_follow_each_other_witness :
  outbox (startRevotingPhase "ROOM" after_two_votes)
  = outbox after_two_votes
    ++ [to_room "ROOM" (game_phase_update revoting None None)].
Proof.
  assert (gameStates_get "ROOM" after_two_votes
          = Some (0%nat, game_after_two_votes)) as Hg by closed.
  destruct (timed_phases_follow_each_other "ROOM" after_two_votes 0%nat
              game_after_two_votes Hg) as [_ (_ & _ & H)].
  exact H.
Defined.

Lemma tally_incr_valid v t :
  valid_choice v →
  agree (tally_incr v t) + disagree (tally_incr v t) + abstain (tally_incr v t)
  = agree t + disagree t + abstain t + 1 ∧
  others (tally_incr v t) = others t.
Proof.
  intros [-> | [-> | ->] ]; unfold tally_incr; simpl; split; (lia || done).
Qed.

(** X22.  The earlier server counts the ballot of every participant of the
    roster: when each ballot counts as agree, disagree or abstain (a missing
    ballot under a name that is not a property name of [Object.prototype],
    or an empty one, counts as abstain), the three counters of the tally
    add up to the size of the roster and no other counter appears. *)
Theorem earlier_tally_counts_the_whole_roster (ps : list Basic.participant)
    (ballots : gmap string string) :
  (∀ p, p ∈ ps →
        valid_choice
          (key_of (or_abstain (js_get ballots (Basic.username p))))) →
  agree (Basic.countVotes ps ballots) + disagree (Basic.countVotes ps ballots)
  + abstain (Basic.countVotes ps ballots)
  = Z.of_nat (length ps) ∧
  others (Basic.countVotes ps ballots) = ∅.
Proof.
  unfold Basic.countVotes.
  assert (∀ t0,
            (∀ p, p ∈ ps →
                  valid_choice
                    (key_of (or_abstain
                               (js_get ballots (Basic.username p))))) →
            let t := fold_left
                       (λ t p,
                          tally_incr
                            (key_of (or_abstain
                                       (js_get ballots (Basic.username p))))
                            t)
                       ps t0 in
            agree t + disagree t + abstain t
            = agree t0 + disagree t0 + abstain t0 + Z.of_nat (length ps) ∧
            others t = others t0) as Hgen.
  { induction ps as [|p ps IH]; intros t0 Hvalid; simpl; [split; [lia|done]|].
    destruct (IH (tally_incr
                    (key_of (or_abstain
                               (js_get ballots (Basic.username p)))) t0))
      as [Hsum Hothers].
    { intros q Hq. apply Hvalid. by right. }
    destruct (tally_incr_valid
                (key_of (or_abstain (js_get ballots (Basic.username p)))) t0)
      as [Hsum1 Hothers1].
    { apply Hvalid. by left. }
    cbv zeta in Hsum, Hothers. split; [lia|congruence]. }
  intros Hvalid. destruct (Hgen tally_zero Hvalid) as [Hsum Hothers].
  cbv zeta in Hsum, Hothers. simpl in Hsum. split; [lia|done].
Qed.

Lemma earlier_tally_counts_the_whole_roster_witness :
  agree (Basic.countVotes (Basic.participants earlier_lobby)
           (Basic.revotes earlier_game))
  + disagree (Basic.countVotes (Basic.participants earlier_lobby)
                (Basic.revotes earlier_game))
  + abstain (Basic.countVotes (Basic.participants earlier_lobby)
               (Basic.revotes earlier_game))
  = 2.
Proof.
  apply (earlier_tally_counts_the_whole_roster
           (Basic.participants earlier_lobby) (Basic.revotes earlier_game)).
  intros p Hp. apply elem_of_cons in Hp as [->|Hp]; [by left|].
  apply elem_of_cons in Hp as [->|Hp]; [by left|].
  by apply elem_of_nil in Hp.
Defined.

(** X23.  A participant other than the host who leaves, or whose socket
    disconnects, while the lobby has no game state or its phase is waiting
    is removed from the roster; the lobby stays, with its game state, as
    long as somebody is left on the roster, and lobby-updated is broadcast.
    While a game is active in any other phase the participant stays on the
    roster with the connected flag cleared and is recorded in
    [disconnectedPlayers] with the time of the departure.  A socket that
    never joined a lobby disconnects without any other effect than the loss
    of the socket. *)
Theorem participant_departure (c u : string) (s : server) (l : lobby)
    (now : Z) :
  lobbies s !! c = Some l →
  u ≠ host l →
  u ∈ usernames l →
  (game_active (gameStates_get c s) = false →
   remove_participant u (participants l) ≠ [] →
   ∃ l',
     lobbies (leave_lobby c u now s) !! c = Some l' ∧
     participants l' = remove_participant u (participants l) ∧
     gameStates (leave_lobby c u now s) = gameStates s ∧
     disconnectedPlayers (leave_lobby c u now s) = disconnectedPlayers s ∧
     outbox (leave_lobby c u now s)
     = outbox s ++ [to_room c (lobby_updated l')]) ∧
  (game_active (gameStates_get c s) = true →
   ∃ l',
     lobbies (leave_lobby c u now s) !! c = Some l' ∧
     participants l' = set_connected u false (participants l) ∧
     gameStates (leave_lobby c u now s) = gameStates s ∧
     disconnectedPlayers (leave_lobby c u now s) !! u = Some (c, now) ∧
     outbox (leave_lobby c u now s)
     = outbox s ++ [to_room c (lobby_updated l')]) ∧
  (∀ id,
     sockets s !! id = Some {| s_username := Some u; s_lobbyCode := Some c |} →
     c ≠ "" →
     u ≠ "" →
     sockets (disconnect id now s) !! id = None ∧
     (game_active (gameStates_get c s) = false →
      remove_participant u (participants l) ≠ [] →
      ∃ l',
        lobbies (disconnect id now s) !! c = Some l' ∧
        participants l' = remove_participant u (participants l) ∧
        gameStates (disconnect id now s) = gameStates s ∧
        disconnectedPlayers (disconnect id now s) = disconnectedPlayers s ∧
        outbox (disconnect id now s)
        = outbox s ++ [to_room c (lobby_updated l')]) ∧
     (game_active (gameStates_get c s) = true →
      ∃ l',
        lobbies (disconnect id now s) !! c = Some l' ∧
        participants l' = set_connected u false (participants l) ∧
        gameStates (disconnect id now s) = gameStates s ∧
        disconnectedPlayers (disconnect id now s) !! u = Some (c, now) ∧
        outbox (disconnect id now s)
        = outbox s ++ [to_room c (lobby_updated l')])) ∧
  (∀ id,
     sockets s !! id = Some {| s_username := None; s_lobbyCode := None |} →
     lobbies (disconnect id now s) = lobbies s ∧
     gameStates (disconnect id now s) = gameStates s ∧
     disconnectedPlayers (disconnect id now s) = disconnectedPlayers s ∧
     outbox (disconnect id now s) = outbox s ∧
     sockets (disconnect id now s) = delete id (sockets s)).
Proof.
  intros Hl Hne Hin.
  destruct (find_participant_Some _ _ Hin) as [p Hp].
  assert (∀ ps : list participant,
            ps ≠ [] → ¬ (length ps = 0%nat ∨ u = host l)) as Hstay.
  { intros ps Hps [Hlen|Heq]; [|done]. by destruct ps. }
  split; [|split; [|split]].
  - intros Hidle Hleft. unfold leave_lobby. rewrite Hl, Hidle.
    rewrite decide_False by (by apply Hstay).
    eexists. simpl. rewrite lookup_insert_eq. done.
  - intros Hact. unfold leave_lobby. rewrite Hl, Hact, Hp.
    eexists. simpl. rewrite !lookup_insert_eq. done.
  - intros id Hsock Hc Hu.
    assert (gameStates_get c (set_sockets (delete id (sockets s)) s)
            = gameStates_get c s) as Hget by done.
    split; [|split].
    + unfold disconnect. rewrite Hsock.
      rewrite decide_False by (intros [?|?]; done). simpl.
      rewrite Hl, Hp, Hget.
      destruct (game_active (gameStates_get c s)); simpl;
        [apply lookup_delete_eq|].
      case_decide; simpl; [|apply lookup_delete_eq].
      destruct (gameStates_get c s) as [[r g]|]; simpl;
        [unfold clear_timer; destruct (timerInterval g); simpl|];
        apply lookup_delete_eq.
    + intros Hidle Hleft. unfold disconnect. rewrite Hsock.
      rewrite decide_False by (intros [?|?]; done). simpl.
      rewrite Hl, Hp, Hget, Hidle.
      rewrite decide_False by (by apply Hstay).
      eexists. simpl. rewrite lookup_insert_eq. done.
    + intros Hact. unfold disconnect. rewrite Hsock.
      rewrite decide_False by (intros [?|?]; done). simpl.
      rewrite Hl, Hp, Hget, Hact.
      eexists. simpl. rewrite !lookup_insert_eq. done.
  - intros id Hsock. unfold disconnect. by rewrite Hsock.
Qed.

Lemma participant_departure_witness :
  ∃ l',
    lobbies (leave_lobby "ROOM" "Bob" 9 after_two_votes) !! "ROOM" = Some l' ∧
    participants l'
    = set_connected "Bob" false (participants lobby_after_two_votes) ∧
    disconnectedPlayers (leave_lobby "ROOM" "Bob" 9 after_two_votes) !! "Bob"
    = Some ("ROOM", 9).
Proof.
  assert (lobbies after_two_votes !! "ROOM" = Some lobby_after_two_votes)
    as Hl by closed.
  assert ("Bob" ≠ host lobby_after_two_votes) as Hne by (by vm_compute).
  assert ("Bob" ∈ usernames lobby_after_two_votes) as Hin by closed.
  assert (game_active (gameStates_get "ROOM" after_two_votes) = true)
    as Hact by closed.
  destruct (participant_departure "ROOM" "Bob" after_two_votes
              lobby_after_two_votes 9 Hl Hne Hin) as (_ & H & _).
  destruct (H Hact) as (l' & H1 & H2 & _ & H3 & _).
  by exists l'.
Defined.

